(** * godouble: a shallow embedding of the call-matching and verification engine

    The development follows the Go package [godouble]: expectations
    (expectation.go), return value sources (return_values.go), the method
    registry and dispatch (method.go, double.go), the stub / mock / spy / fake
    method calls and the recorded-call views of a spy.

    Conventions of the embedding:
    - a Go [int] and the [uint64] tick are integers in [Z]; where the source
      does arithmetic on them ([count++], [atomic.AddUint64]) the wrap-around
      of the machine type is written out;
    - a call of [T.Fatalf] aborts the running operation: operations that can
      reach one return an [outcome], as do operations that can hit a Go
      run-time panic (index out of range, nil dereference);
    - pointers to method calls are addresses into a heap of call objects, so
      that two holders of the same registration see the same counters and
      the same recorded-call log;
    - [T.Logf] output (tracing) carries no state and is left out. *)

From Equations Require Import Equations.
From stdpp Require Import gmap strings list fin_maps pretty sorting.

#[local] Set Warnings "-register-all".

Local Open Scope Z_scope.

(** ** Outcomes: a value, a fatal test failure, or a run-time panic *)

Inductive outcome (A : Type) : Type :=
| Ok (a : A)
| Fatal (msg : string)
| Panic (msg : string).
Arguments Ok {A} a.
Arguments Fatal {A} msg.
Arguments Panic {A} msg.

#[global] Instance outcome_ret : MRet outcome := fun A a => Ok a.
#[global] Instance outcome_bind : MBind outcome := fun A B f m =>
  match m with
  | Ok a => f a
  | Fatal msg => Fatal msg
  | Panic msg => Panic msg
  end.

Definition is_Ok {A} (o : outcome A) : bool :=
  match o with Ok _ => true | _ => false end.

Definition is_Fatal {A} (o : outcome A) : bool :=
  match o with Fatal _ => true | _ => false end.

(** ** Machine integers *)

Definition uint64_modulus : Z := 2 ^ 64.
Definition int_min : Z := - 2 ^ 63.
Definition int_max : Z := 2 ^ 63 - 1.

(** [x + 1] on a [uint64]. *)
Definition uint64_incr (x : Z) : Z := (x + 1) mod uint64_modulus.

(** [x++] on an [int] (two's complement, 64 bits). *)
Definition int_incr (x : Z) : Z :=
  if decide (x = int_max) then int_min else x + 1.

(** ** Expectations (expectation.go) *)

(** The four implementations of the [Expectation] interface. *)
Inductive Expectation : Type :=
| calledExactly (times : Z)
| calledNever
| calledAtLeast (times : Z)
| calledBetween (atLeast atMost : Z).

Definition Met (e : Expectation) (count : Z) : bool :=
  match e with
  | calledExactly times => bool_decide (count = times)
  | calledNever => bool_decide (count = 0)
  | calledAtLeast times => bool_decide (count >= times)
  | calledBetween atLeast atMost =>
      bool_decide (count >= atLeast) && bool_decide (count <= atMost)
  end.

(** [Complete] is a method of [calledExactly] and [calledBetween] only: the
    other two implementations are not a [Completion], which is [None] here.
    It is what the type assertion [expect.(Completion)] observes. *)
Definition Complete (e : Expectation) (count : Z) : option bool :=
  match e with
  | calledExactly times => Some (bool_decide (count >= times))
  | calledBetween _ atMost => Some (bool_decide (count >= atMost))
  | calledNever | calledAtLeast _ => None
  end.

Definition Exactly (n : Z) : Expectation := calledExactly n.
Definition Once : Expectation := Exactly 1.
Definition Twice : Expectation := Exactly 2.
Definition Never : Expectation := calledNever.
Definition AtLeast (n : Z) : Expectation := calledAtLeast n.
Definition Between (min max : Z) : Expectation := calledBetween min max.
Definition AtMost (n : Z) : Expectation := Between 0 n.

(** ** The reflection interface

    Values of Go's [interface{}] and the [reflect] package are outside the
    package under study: they are parameters of the development.  A
    [reflect.Method] of an interface type is the record of what the package
    reads from it. *)

Module reflect.

Inductive Kind : Type :=
| Invalid | Bool | Int | Int8 | Int16 | Int32 | Int64
| Uint | Uint8 | Uint16 | Uint32 | Uint64 | Uintptr
| Float32 | Float64 | Complex64 | Complex128
| Array | Chan | Func | Interface | Map | Ptr | Slice | String | Struct
| UnsafePointer.

#[global] Instance Kind_eq_dec : EqDecision Kind.
Proof. solve_decision. Defined.

End reflect.

Class Reflection (value rtype : Type) : Type := {
  (** [reflect.TypeOf]: [None] is the nil type of the nil interface value. *)
  TypeOf : value -> option rtype;
  Kind : rtype -> reflect.Kind;
  AssignableTo : rtype -> rtype -> bool;
  Implements : rtype -> rtype -> bool;
  (** [reflect.Zero(t).Interface()]. *)
  Zero : rtype -> value;
  (** [Type.Elem], and for a type of kind [Func] its [In], [Out] and
      [IsVariadic]. *)
  Elem : rtype -> rtype;
  FuncIn : rtype -> list rtype;
  FuncOut : rtype -> list rtype;
  FuncIsVariadic : rtype -> bool;
  (** [reflect.Value.Call] and [CallSlice] on a value of kind [Func]. *)
  reflectCall : value -> list value -> outcome (list value);
  reflectCallSlice : value -> list value -> outcome (list value);
  (** The type assertion [v.(bool)]. *)
  asBool : value -> option bool;
  (** [reflect.ValueOf(v)]: its [Kind], [Len], [Index(i).Interface()] and
      [IsNil]; [boxInt n] is the [int] [n] as an interface value and
      [intType] is [reflect.TypeOf(0)]. *)
  valueKind : value -> reflect.Kind;
  valueLen : value -> Z;
  valueIndex : value -> Z -> value;
  valueIsNil : value -> bool;
  boxInt : Z -> value;
  intType : rtype;
  (** The type [func(interface{}) bool] of the closures built by [Eql] and
      [IsA]. *)
  predicateType : rtype
}.

(** Addresses of call objects, and names of methods: the index of the
    double and the method name. *)
Abbreviation ref := nat (only parsing).
Abbreviation methodRef := (nat * string)%type (only parsing).

Section Godouble.

Context {value rtype : Type} `{!Reflection value rtype}.

Record reflectMethod : Type := {
  Name : string;
  In : list rtype;
  IsVariadic : bool;
  Out : list rtype
}.

Definition NumIn (m : reflectMethod) : Z := Z.of_nat (length (In m)).
Definition NumOut (m : reflectMethod) : Z := Z.of_nat (length (Out m)).

(** ** Assertions on method shapes (assertions.go) *)

Fixpoint assertAssignableOuts (outs : list (option rtype)) (mOuts : list rtype)
  : outcome unit :=
  match outs, mOuts with
  | [], _ => Ok ()
  | _ :: _, [] => Panic "reflect: Out index out of range"
  | out :: outs', mType :: mOuts' =>
      match out with
      | Some o =>
          if AssignableTo o mType then assertAssignableOuts outs' mOuts'
          else Fatal "expects to have return Value to be assignable"
      | None => assertAssignableOuts outs' mOuts'
      end
  end.

Definition AssertMethodReturnTypes (m : reflectMethod)
    (returnTypes : list (option rtype)) : outcome unit :=
  if decide (NumOut m ≠ Z.of_nat (length returnTypes))
  then Fatal "expects to have a different number of return values"
  else assertAssignableOuts returnTypes (Out m).

Definition AssertMethodReturnValues (m : reflectMethod)
    (returnValues : list value) : outcome unit :=
  AssertMethodReturnTypes m (TypeOf <$> returnValues).

Definition AssertMethodOutputs (m : reflectMethod) (funcType : rtype)
  : outcome unit :=
  if decide (Kind funcType ≠ reflect.Func) then Fatal "expected func"
  else if decide (NumOut m ≠ Z.of_nat (length (FuncOut funcType)))
  then Fatal "expects to have a different number of return values"
  else AssertMethodReturnTypes m (Some <$> FuncOut funcType).

Fixpoint assertAssignableIns (mIns fIns : list rtype) : outcome unit :=
  match fIns, mIns with
  | [], _ => Ok ()
  | _ :: _, [] => Panic "reflect: In index out of range"
  | fIn :: fIns', mIn :: mIns' =>
      if AssignableTo mIn fIn then assertAssignableIns mIns' fIns'
      else Fatal "requires arg to be assignable"
  end.

Definition AssertMethodInputs (m : reflectMethod) (funcType : rtype)
  : outcome unit :=
  if decide (Kind funcType ≠ reflect.Func) then Fatal "expected func"
  else if negb (bool_decide (FuncIsVariadic funcType = IsVariadic m))
  then Fatal "expects a different variadic flag"
  else if decide (Z.of_nat (length (FuncIn funcType)) ≠ NumIn m)
  then Fatal "expects a different number of arguments"
  else assertAssignableIns (In m) (FuncIn funcType).

(** ** Matchers (matcher.go)

    The implementations of the [Matcher] interface.  A [funcMatcher] wraps
    the [reflect.Value] of a function: one supplied by the test, or one of
    the closures of type [func(interface{}) bool] that [Eql] and [IsA]
    build.  The explanation texts are only printed and are left out. *)

Inductive goFunc : Type :=
| UserFunc (f : value)
| PkgFunc (body : value -> outcome bool).

Inductive Matcher : Type :=
| funcMatcher (f : goFunc)
| argumentsMatcher (matcherList : list Matcher)
| sliceMatcher (matcherList : list Matcher)
| nilMatcher
| lenMatcher (m : Matcher)
| andMatcher (matcherList : list Matcher)
| orMatcher (matcherList : list Matcher)
| notMatcher (m : Matcher).

(** What may be passed where the package takes a matcher as [interface{}]:
    a matcher, a [reflect.Type], or any other value. *)
Inductive rawInput : Type :=
| RawMatcher (m : Matcher)
| RawType (t : rtype)
| RawValue (v : value).

(** [reflect.DeepEqual(arg, v)] for the [v] given to [Eql], and the
    [String()] of a matcher, which [fmt] prints in the description of a
    view. *)
Class MatcherPrimitives : Type := {
  DeepEqual : value -> rawInput -> bool;
  showMatcher : Matcher -> string
}.

Context `{!MatcherPrimitives}.

(** Which implementations have a [ForMethod], and which a [ForType], in
    their method set (promoted methods of an embedded [matcherList]
    included). *)
Definition isMethodArgsMatcher (m : Matcher) : bool :=
  match m with
  | funcMatcher _ | argumentsMatcher _ | sliceMatcher _
  | andMatcher _ | orMatcher _ | notMatcher _ => true
  | nilMatcher | lenMatcher _ => false
  end.

Definition isSingleArgMatcher (m : Matcher) : bool :=
  match m with
  | argumentsMatcher _ => false
  | _ => true
  end.

(** [f.Type()] of the wrapped [reflect.Value]. *)
Definition goFunc_Type (f : goFunc) : outcome rtype :=
  match f with
  | UserFunc v =>
      match TypeOf v with
      | Some t => Ok t
      | None => Panic "reflect: call of reflect.Value.Type on zero Value"
      end
  | PkgFunc _ => Ok predicateType
  end.

Definition funcMatcher_Matches (f : goFunc) (args : list value) : outcome bool :=
  match f with
  | UserFunc v =>
      ft ← goFunc_Type f;
      if decide (Kind ft ≠ reflect.Func) then Panic "reflect: IsVariadic of non-func type"
      else
        res ← (if FuncIsVariadic ft then reflectCallSlice v args
               else reflectCall v args);
        match res with
        | r :: _ =>
            match asBool r with
            | Some b => Ok b
            | None => Panic "interface conversion: not a bool"
            end
        | [] => Panic "index out of range"
        end
  | PkgFunc body =>
      match args with
      | [arg] =>
          (* [reflect.ValueOf(nil)] is the zero [Value], which [Call] refuses *)
          match TypeOf arg with
          | Some _ => body arg
          | None => Panic "reflect: Call using zero Value argument"
          end
      | _ => Panic "reflect: Call with wrong number of input arguments"
      end
  end.

Fixpoint Matches (m : Matcher) (args : list value) {struct m} : outcome bool :=
  match m with
  | funcMatcher f => funcMatcher_Matches f args
  | argumentsMatcher l =>
      (fix positional (l : list Matcher) (args : list value) : outcome bool :=
         match l, args with
         | matcher :: l', arg :: args' =>
             b ← Matches matcher [arg];
             if b : bool then positional l' args' else Ok false
         | _, _ => Ok true
         end) l args
  | sliceMatcher l =>
      match args with
      | [] => Panic "index out of range"
      | slice :: _ =>
          match valueKind slice with
          | reflect.Array | reflect.Slice =>
              if decide (valueLen slice < Z.of_nat (length l)) then Ok false
              else
                (fix elements (l : list Matcher) (i : Z) : outcome bool :=
                   match l with
                   | [] => Ok true
                   | matcher :: l' =>
                       b ← Matches matcher [valueIndex slice i];
                       if b : bool then elements l' (i + 1) else Ok false
                   end) l 0
          | _ => Ok false
          end
      end
  | nilMatcher =>
      match args with
      | [] => Panic "index out of range"
      | arg :: _ =>
          match TypeOf arg with
          | None => Ok true
          | Some _ =>
              match valueKind arg with
              | reflect.Chan | reflect.Func | reflect.Interface
              | reflect.Map | reflect.Ptr | reflect.Slice => Ok (valueIsNil arg)
              | _ => Ok false
              end
          end
      end
  | lenMatcher m' =>
      match args with
      | [] => Panic "index out of range"
      | arg :: _ =>
          match valueKind arg with
          | reflect.Array | reflect.Chan | reflect.Map | reflect.Slice | reflect.String =>
              Matches m' [boxInt (valueLen arg)]
          | _ => Ok false
          end
      end
  | andMatcher l =>
      (fix all (l : list Matcher) : outcome bool :=
         match l with
         | [] => Ok true
         | m' :: l' => b ← Matches m' args; if b : bool then all l' else Ok false
         end) l
  | orMatcher l =>
      (fix any (l : list Matcher) : outcome bool :=
         match l with
         | [] => Ok false
         | m' :: l' => b ← Matches m' args; if b : bool then Ok true else any l'
         end) l
  | notMatcher m' => b ← Matches m' args; Ok (negb b)
  end.

Definition funcMatcher_ForType (f : goFunc) (in_ : rtype) : outcome unit :=
  vt ← goFunc_Type f;
  if decide (Kind vt ≠ reflect.Func)
  then Fatal "expected to be a function that accepts 1 argument and returns bool"
  else
    match FuncIn vt, FuncOut vt with
    | [in0], [out0] =>
        if decide (Kind out0 ≠ reflect.Bool)
        then Fatal "expected to be a function that accepts 1 argument and returns bool"
        else if AssignableTo in_ in0 then Ok ()
        else Fatal "Argument expected to be assignable"
    | _, _ => Fatal "expected to be a function that accepts 1 argument and returns bool"
    end.

(** [forType]: the type assertion to [SingleArgMatcher] followed by the
    implementation's [ForType]. *)
Fixpoint forType (ft : rtype) (matcher : Matcher) {struct matcher} : outcome unit :=
  let matcherList_ForType :=
    fix each (ft : rtype) (l : list Matcher) : outcome unit :=
      match l with
      | [] => Ok ()
      | m' :: l' => _ ← forType ft m'; each ft l'
      end in
  match matcher with
  | funcMatcher f => funcMatcher_ForType f ft
  | argumentsMatcher _ => Fatal "Cannot use as SingleArgMatcher"
  | sliceMatcher l =>
      match Kind ft with
      | reflect.Slice | reflect.Array => matcherList_ForType (Elem ft) l
      | _ => Fatal "Slice() used to match non slice or array type"
      end
  | nilMatcher =>
      match Kind ft with
      | reflect.Chan | reflect.Func | reflect.Interface
      | reflect.Map | reflect.Ptr | reflect.Slice => Ok ()
      | _ => Fatal "type cannot be nil"
      end
  | lenMatcher m' =>
      match Kind ft with
      | reflect.Array | reflect.Chan | reflect.Map | reflect.Slice
      | reflect.String => forType intType m'
      | _ => Fatal "cannot check length of type"
      end
  | andMatcher l | orMatcher l => matcherList_ForType ft l
  | notMatcher m' => forType ft m'
  end.

Definition funcMatcher_ForMethod (f : goFunc) (m : reflectMethod) : outcome unit :=
  ft ← goFunc_Type f;
  if decide (Kind ft ≠ reflect.Func) then Fatal "expected Func(...) bool"
  else
    match FuncOut ft with
    | [out0] =>
        if decide (Kind out0 ≠ reflect.Bool) then Fatal "expected Func(...) bool"
        else AssertMethodInputs m ft
    | _ => Fatal "expected Func(...) bool"
    end.

Definition Slice (matchers : list Matcher) : Matcher := sliceMatcher matchers.

(** [argumentsMatcher.ForMethod]: the receiver is a pointer and its
    [matcherList] is replaced when the method is variadic; the list after
    the call is the result. *)
Fixpoint forTypes (ins : list rtype) (l : list Matcher) : outcome unit :=
  match l, ins with
  | [], _ => Ok ()
  | _ :: _, [] => Panic "reflect: In index out of range"
  | matcher :: l', in_ :: ins' =>
      _ ← (if isSingleArgMatcher matcher then forType in_ matcher
           else Fatal "Cannot validate as SingleArgMatcher");
      forTypes ins' l'
  end.

Definition argumentsMatcher_ForMethod (l : list Matcher) (m : reflectMethod)
  : outcome (list Matcher) :=
  l1 ← (if IsVariadic m then
          if decide (Z.of_nat (length l) > NumIn m - 1) then
            if decide (NumIn m - 1 < 0)
            then Panic "slice bounds out of range"
            else
              let fixed := Z.to_nat (NumIn m - 1) in
              Ok (take fixed l ++ [Slice (drop fixed l)])
          else Ok l
        else if decide (Z.of_nat (length l) > NumIn m)
        then Fatal "requires not more argument matchers than the method has arguments"
        else Ok l);
  _ ← forTypes (In m) l1;
  Ok l1.

(** [forMethod]: the type assertion to [MethodArgsMatcher] followed by the
    implementation's [ForMethod]; the result is the matcher after the call. *)
Fixpoint forMethod (method : reflectMethod) (matcher : Matcher) {struct matcher}
  : outcome Matcher :=
  let matcherList_ForMethod :=
    fix each (l : list Matcher) : outcome (list Matcher) :=
      match l with
      | [] => Ok []
      | m' :: l' => m1 ← forMethod method m'; l1 ← each l'; Ok (m1 :: l1)
      end in
  match matcher with
  | funcMatcher f => _ ← funcMatcher_ForMethod f method; Ok matcher
  | argumentsMatcher l =>
      l1 ← argumentsMatcher_ForMethod l method; Ok (argumentsMatcher l1)
  | sliceMatcher l => l1 ← matcherList_ForMethod l; Ok (sliceMatcher l1)
  | nilMatcher | lenMatcher _ => Fatal "Cannot use as MethodArgsMatcher"
  | andMatcher l => l1 ← matcherList_ForMethod l; Ok (andMatcher l1)
  | orMatcher l => l1 ← matcherList_ForMethod l; Ok (orMatcher l1)
  | notMatcher m' => m1 ← forMethod method m'; Ok (notMatcher m1)
  end.

Definition Func (f : value) : Matcher := funcMatcher (UserFunc f).
Definition Args (matchers : list Matcher) : Matcher := argumentsMatcher matchers.
Definition All (matchers : list Matcher) : Matcher := andMatcher matchers.
Definition And (matchers : list Matcher) : Matcher := All matchers.
Definition Any (matchers : list Matcher) : Matcher := orMatcher matchers.
Definition Or (matchers : list Matcher) : Matcher := Any matchers.
Definition Not (matcher : Matcher) : Matcher := notMatcher matcher.
Definition Nil : Matcher := nilMatcher.

Definition Eql (v : rawInput) : Matcher :=
  funcMatcher (PkgFunc (fun arg => Ok (DeepEqual arg v))).

(** [IsA(t)], for the [reflect.Type] that [t] is or has. *)
Definition IsA (rt : option rtype) : Matcher :=
  funcMatcher (PkgFunc (fun x =>
    match TypeOf x, rt with
    | Some argT, Some rt =>
        if AssignableTo argT rt then Ok true
        else match Kind argT with
             | reflect.Interface =>
                 if decide (Kind rt ≠ reflect.Interface)
                 then Panic "reflect: non-interface type passed to Type.Implements"
                 else Ok (Implements argT rt)
             | _ => Ok false
             end
    | _, _ => Panic "invalid memory address or nil pointer dereference"
    end)).

(** [reflect.TypeOf(x).Kind()] of a raw input: the matcher implementations
    are structs or pointers to structs, a [reflect.Type] is a pointer. *)
Definition rawKind (x : rawInput) : outcome reflect.Kind :=
  match x with
  | RawMatcher (argumentsMatcher _) | RawMatcher (sliceMatcher _) => Ok reflect.Ptr
  | RawMatcher _ => Ok reflect.Struct
  | RawType _ => Ok reflect.Ptr
  | RawValue v =>
      match TypeOf v with
      | Some t => Ok (Kind t)
      | None => Panic "invalid memory address or nil pointer dereference"
      end
  end.

(** The value [x] when [reflect.TypeOf(x).Kind() == reflect.Func]: by
    [rawKind] only a [RawValue] can be of kind [Func]. *)
Definition kindIsFunc (x : rawInput) : outcome (option value) :=
  k ← rawKind x;
  match x with
  | RawValue v => Ok (if decide (k = reflect.Func) then Some v else None)
  | _ => Ok None
  end.

Definition genericSingleArgumentMatcher (matcher : rawInput) : outcome Matcher :=
  match matcher with
  | RawMatcher m =>
      if isSingleArgMatcher m then Ok m
      else Ok (Eql matcher)
  | RawType t => Ok (IsA (Some t))
  | RawValue _ =>
      f ← kindIsFunc matcher;
      match f with
      | Some v => Ok (Func v)
      | None => Ok (Eql matcher)
      end
  end.

Fixpoint genericSingleArgumentMatchers (matchers : list rawInput)
  : outcome (list Matcher) :=
  match matchers with
  | [] => Ok []
  | m :: ms =>
      m1 ← genericSingleArgumentMatcher m;
      ms1 ← genericSingleArgumentMatchers ms;
      Ok (m1 :: ms1)
  end.

(** The type assertion [x.(MethodArgsMatcher)]. *)
Definition asMethodArgsMatcher (x : rawInput) : option Matcher :=
  match x with
  | RawMatcher m => if isMethodArgsMatcher m then Some m else None
  | _ => None
  end.

Definition NewMatcherForMethod (forMethod_ : reflectMethod)
    (matchers : list rawInput) : outcome Matcher :=
  if decide (NumIn forMethod_ = 0)
  then Fatal "Cannot build matcher for a method which takes no arguments"
  else
    match matchers with
    | [] => Ok (All [])
    | first :: rest =>
        f ← kindIsFunc first;
        match f with
        | Some v => forMethod forMethod_ (Func v)
        | None =>
            if decide (Z.of_nat (length matchers) > 1) then
              matcherSlice ← genericSingleArgumentMatchers matchers;
              Ok (Args matcherSlice)
            else
              match asMethodArgsMatcher first with
              | Some m => forMethod forMethod_ m
              | None =>
                  m1 ← genericSingleArgumentMatcher first;
                  forMethod forMethod_ (Args [m1])
              end
        end
    end.

(** ** Return value sources (return_values.go)

    The result of [Receive] is the tuple of values or the error.  A source
    is a value here: what a [Receive] leaves behind is the source after the
    call.  Time is not modelled: a delay has elapsed when [Receive] returns,
    and a [returnChannel] is the queue of tuples sent so far with its closed
    flag, so that receiving from an empty open channel is the timeout. *)

Inductive ReturnValues : Type :=
| fixedReturnValues (v : list value)
| reflectZeroReturnValues (zv : list rtype)
| returnChannel (values : list (list value)) (closed : bool)
| delayedReturnValues (rv : ReturnValues)
| sequentialReturnValues (values : list ReturnValues)
    (rvChan : option (list ReturnValues)).

Definition Values (values : list value) : ReturnValues := fixedReturnValues values.
Definition ZeroValues (m : reflectMethod) : ReturnValues :=
  reflectZeroReturnValues (Out m).
Definition Delayed (rv : ReturnValues) : ReturnValues := delayedReturnValues rv.
Definition RandDelayed (rv : ReturnValues) : ReturnValues := delayedReturnValues rv.

(** [Sequence]: the relay channel is not made and the worker is not
    started; [rvChan] is [None] until [once.Do(s.run)] has run. *)
Definition Sequence (values : list ReturnValues) : ReturnValues :=
  sequentialReturnValues values None.

(** The type assertion to [multiValues] and the call of [multiValued()]. *)
Definition multiValued (rv : ReturnValues) : bool :=
  match rv with
  | returnChannel _ _ | sequentialReturnValues _ _ => true
  | _ => false
  end.

Definition received : Type := list value + string.

(** [Receive].  For a [sequentialReturnValues], [rvChan] holds the sources
    the worker of [run] has still to go through, the first of them being
    the one it is at; the worker's next send on the relay is computed when
    a receiver asks for it. *)
Fixpoint Receive (rv : ReturnValues) : received * ReturnValues :=
  match rv with
  | fixedReturnValues v => (inl v, rv)
  | reflectZeroReturnValues zv => (inl (Zero <$> zv), rv)
  | returnChannel q closed =>
      match q with
      | generatedReturns :: q' => (inl generatedReturns, returnChannel q' closed)
      | [] =>
          if closed
          then (inr "requested values from closed return channel", rv)
          else (inr "timed out waiting for return channel to provide values", rv)
      end
  | delayedReturnValues d =>
      let '(res, d') := Receive d in (res, delayedReturnValues d')
  | sequentialReturnValues values rvChan =>
      let relay :=
        fix relay (l : list ReturnValues) : option (list value) * list ReturnValues :=
          match l with
          | [] => (None, [])
          | r :: rest =>
              if multiValued r then
                match Receive r with
                | (inl result, r') => (Some result, r' :: rest)
                | (inr _, _) => relay rest
                end
              else
                match Receive r with
                | (inl result, _) => (Some result, rest)
                | (inr _, _) => relay rest
                end
          end in
      let '(sent, pending) :=
        match rvChan with
        | Some pending => relay pending
        | None => relay values
        end in
      match sent with
      | Some generatedReturns =>
          (inl generatedReturns, sequentialReturnValues values (Some pending))
      | None =>
          (inr "no available values", sequentialReturnValues values (Some pending))
      end
  end.

(** The results of [n] successive calls of [Receive]. *)
Fixpoint receives (n : nat) (rv : ReturnValues) : list received :=
  match n with
  | O => []
  | S n' => let '(res, rv') := Receive rv in res :: receives n' rv'
  end.

(** What a source gives to a sequence it is part of.  A multi-valued source
    (a channel, a sequence) gives all the tuples it has until its first
    error, [exhaust]: the queue of a channel, and for a sequence what the
    sources its worker has still to go through give, in order.  Any other
    source gives the tuple of one [Receive], or nothing if that is an
    error. *)
Fixpoint exhaust (rv : ReturnValues) : list (list value) :=
  match rv with
  | returnChannel q _ => q
  | sequentialReturnValues values rvChan =>
      let sources :=
        fix sources (l : list ReturnValues) : list (list value) :=
          match l with
          | [] => []
          | r :: rest =>
              (if multiValued r then exhaust r
               else match Receive r with
                    | (inl result, _) => [result]
                    | (inr _, _) => []
                    end) ++ sources rest
          end in
      match rvChan with
      | Some pending => sources pending
      | None => sources values
      end
  | _ => []
  end.

Definition contribution (r : ReturnValues) : list (list value) :=
  if multiValued r then exhaust r
  else match Receive r with
       | (inl result, _) => [result]
       | (inr _, _) => []
       end.

(** The worker's loop of [run] and the sources of [exhaust], by name. *)
Fixpoint relay (l : list ReturnValues)
  : option (list value) * list ReturnValues :=
  match l with
  | [] => (None, [])
  | r :: rest =>
      if multiValued r then
        match Receive r with
        | (inl result, r') => (Some result, r' :: rest)
        | (inr _, _) => relay rest
        end
      else
        match Receive r with
        | (inl result, _) => (Some result, rest)
        | (inr _, _) => relay rest
        end
  end.

Definition pendingOf (values : list ReturnValues)
    (rvChan : option (list ReturnValues)) :=
  match rvChan with Some pending => pending | None => values end.

(** A multi-valued source gives the tuples of [exhaust], one at each
    [Receive], and an error when there is none left. *)
Definition givesExhaust (rv : ReturnValues) : Prop :=
  multiValued rv = true ->
  exists rv', multiValued rv' = true /\ exhaust rv' = tail (exhaust rv) /\
    match exhaust rv with
    | v :: _ => Receive rv = (inl v, rv')
    | [] => exists e, Receive rv = (inr e, rv')
    end.



(** [ForMethod] of the validating sources. *)
Fixpoint ReturnValues_ForMethod (rv : ReturnValues) (m : reflectMethod)
  : outcome unit :=
  match rv with
  | fixedReturnValues v => AssertMethodReturnValues m v
  | reflectZeroReturnValues _ => Ok ()
  | returnChannel _ _ => Ok ()
  | delayedReturnValues d => ReturnValues_ForMethod d m
  | sequentialReturnValues values _ =>
      (fix each (l : list ReturnValues) : outcome unit :=
         match l with
         | [] => Ok ()
         | r :: l' => _ ← ReturnValues_ForMethod r m; each l'
         end) values
  end.

(** ** Method calls, methods and doubles

    A [*method] is named by its double and its name (a [methodRef]); a
    [MethodCall] held in an interface value is the address of a call object
    in the heap (a [ref]). *)

Record stubbedMethodCall : Type := {
  method_ : methodRef;
  returns : option ReturnValues;
  matcher : option Matcher
}.

Record mockedMethodCall : Type := {
  mock_stub : stubbedMethodCall;
  count : Z;
  after : list ref;
  expect : option Expectation
}.

Record recordedCall : Type := {
  tick : Z;
  args : list value
}.

Record spyMethodCall : Type := {
  spy_stub : stubbedMethodCall;
  recorded : list recordedCall;
  subsets : list string
}.

Record fakeMethodCall : Type := {
  fake_spy : spyMethodCall;
  impl : value
}.

Inductive MethodCall : Type :=
| StubCall (c : stubbedMethodCall)
| MockCall (c : mockedMethodCall)
| SpyCall (c : spyMethodCall)
| FakeCall (c : fakeMethodCall).

Record method : Type := {
  calls : list ref;
  m : reflectMethod
}.

(** What the package takes as [returnValues ...interface{}]: one
    [ReturnValues], or plain values. *)
Inductive rawReturns : Type :=
| ReturnsSource (rv : ReturnValues)
| ReturnsValues (vs : list value).

Definition MatcherForMethod : Type :=
  reflectMethod -> option Matcher -> list rawInput -> outcome Matcher.
Definition ReturnsForMethod : Type :=
  reflectMethod -> option ReturnValues -> rawReturns -> outcome ReturnValues.

(** What a [defaultCall] function returns: nil, or the call it has made
    from the [Method] it is given, by [Stub()], [Mock()], [Spy()] or
    [Fake(impl)], and set up. *)
Inductive madeCall : Type :=
| MadeStub (returns : option ReturnValues) (matcher : option Matcher)
| MadeMock (returns : option ReturnValues) (matcher : option Matcher)
    (after : list ref) (expect : option Expectation)
| MadeSpy (returns : option ReturnValues)
| MadeFake (impl : value).

(** A [TestDouble] as [NewDouble] returns it. *)
Record TestDouble : Type := {
  methods : gmap string method;
  defaultCall : methodRef -> option madeCall;
  defaultReturnValues : reflectMethod -> ReturnValues;
  forInterface : string;
  trace : bool;
  d_matcher : MatcherForMethod;
  d_returns : ReturnsForMethod
}.

(** The state of the test process: the global [tick], the call objects and
    the doubles. *)
Record world : Type := {
  w_tick : Z;
  heap : list MethodCall;
  doubles : list TestDouble
}.

Definition newMethod (rm : reflectMethod) : method := {| calls := []; m := rm |}.

Definition newStubbedMethodCall (mr : methodRef) : stubbedMethodCall :=
  {| method_ := mr; returns := None; matcher := None |}.

Definition newMockedMethodCall (mr : methodRef) : mockedMethodCall :=
  {| mock_stub := newStubbedMethodCall mr; count := 0; after := []; expect := None |}.

Definition TestDouble_String (d : TestDouble) : string :=
  "DoubleFor(" +:+ forInterface d +:+ ")".

Definition method_String (d : TestDouble) (name : string) : string :=
  TestDouble_String d +:+ "." +:+ name.

(** [newSpyMethodCall(m, subsets...)], given the [String()] of [m]. *)
Definition newSpyMethodCall (mString : string) (mr : methodRef)
    (subsets : list string) : spyMethodCall :=
  {| spy_stub := newStubbedMethodCall mr;
     recorded := [];
     subsets := match subsets with
                | [] => ["all calls to " +:+ mString]
                | _ => subsets
                end |}.

(** [NewReturnsForMethod]. *)
Definition NewReturnsForMethod (forMethod_ : reflectMethod) (values : rawReturns)
  : outcome ReturnValues :=
  let rv := match values with
            | ReturnsSource rv => rv
            | ReturnsValues vs => Values vs
            end in
  _ ← ReturnValues_ForMethod rv forMethod_;
  Ok rv.

(** *** Matching *)

Definition stub_matches (c : stubbedMethodCall) (args : list value) : outcome bool :=
  match matcher c with
  | Some mt => Matches mt args
  | None => Ok true
  end.

Definition complete (c : mockedMethodCall) : bool :=
  match expect c with
  | Some e =>
      match Complete e (count c) with
      | Some b => b
      | None => false
      end
  | None => false
  end.

Definition met (c : mockedMethodCall) : bool :=
  match expect c with
  | Some e => Met e (count c)
  | None => true
  end.

(** [call.complete()] through a [MockedMethodCall] interface value. *)
Definition complete_at (h : list MethodCall) (call : ref) : outcome bool :=
  match h !! call with
  | Some (MockCall c) => Ok (complete c)
  | _ => Panic "invalid memory address or nil pointer dereference"
  end.

Fixpoint inSequence_loop (h : list MethodCall) (after : list ref) : outcome bool :=
  match after with
  | [] => Ok true
  | call :: rest =>
      b ← complete_at h call;
      if b : bool then inSequence_loop h rest else Ok false
  end.

Definition inSequence (h : list MethodCall) (c : mockedMethodCall) : outcome bool :=
  inSequence_loop h (after c).

Definition mock_matches (h : list MethodCall) (c : mockedMethodCall)
    (args : list value) : outcome bool :=
  b ← stub_matches (mock_stub c) args;
  if b : bool then
    if negb (complete c) then inSequence h c else Ok false
  else Ok false.

Definition matches (h : list MethodCall) (call : MethodCall) (args : list value)
  : outcome bool :=
  match call with
  | StubCall c => stub_matches c args
  | MockCall c => mock_matches h c args
  | SpyCall _ | FakeCall _ => Ok true
  end.

Definition matches_at (h : list MethodCall) (call : ref) (args : list value)
  : outcome bool :=
  match h !! call with
  | Some c => matches h c args
  | None => Panic "invalid memory address or nil pointer dereference"
  end.

(** *** Operations on the state

    An operation runs on the world and leaves a world behind also when it
    ends in a fatal failure or a panic: a test can recover from either and
    go on. *)

Definition M (A : Type) : Type := world -> outcome A * world.

#[global] Instance M_ret : MRet M := fun A a w => (Ok a, w).
#[global] Instance M_bind : MBind M := fun A B f ma w =>
  match ma w with
  | (Ok a, w') => f a w'
  | (Fatal msg, w') => (Fatal msg, w')
  | (Panic msg, w') => (Panic msg, w')
  end.

Definition get : M world := fun w => (Ok w, w).
Definition liftO {A} (o : outcome A) : M A := fun w => (o, w).
Definition Fatalf {A} (msg : string) : M A := liftO (Fatal msg).
Definition nilDereference {A} : M A :=
  liftO (Panic "invalid memory address or nil pointer dereference").

Definition setCall (call : ref) (c : MethodCall) : M unit := fun w =>
  (Ok (), {| w_tick := w_tick w; heap := <[call := c]> (heap w); doubles := doubles w |}).

(** A new call object: its address is the next free one. *)
Definition alloc (c : MethodCall) : M ref := fun w =>
  (Ok (length (heap w)),
   {| w_tick := w_tick w; heap := heap w ++ [c]; doubles := doubles w |}).

Definition lookupDouble (w : world) (d : nat) : outcome TestDouble :=
  match doubles w !! d with
  | Some td => Ok td
  | None => Panic "invalid memory address or nil pointer dereference"
  end.

Definition lookupMethod (w : world) (mr : methodRef) : outcome method :=
  td ← lookupDouble w mr.1;
  match methods td !! mr.2 with
  | Some meth => Ok meth
  | None => Panic "invalid memory address or nil pointer dereference"
  end.

Definition setMethod (td : TestDouble) (name : string) (meth : method) : TestDouble :=
  {| methods := <[name := meth]> (methods td);
     defaultCall := defaultCall td;
     defaultReturnValues := defaultReturnValues td;
     forInterface := forInterface td;
     trace := trace td;
     d_matcher := d_matcher td;
     d_returns := d_returns td |}.

Definition addMethodCall (mr : methodRef) (call : ref) : M unit := fun w =>
  match doubles w !! mr.1 with
  | Some td =>
      match methods td !! mr.2 with
      | Some meth =>
          let meth' := {| calls := calls meth ++ [call]; m := m meth |} in
          (Ok (), {| w_tick := w_tick w; heap := heap w;
                     doubles := <[mr.1 := setMethod td mr.2 meth']> (doubles w) |})
      | None => (Panic "invalid memory address or nil pointer dereference", w)
      end
  | None => (Panic "invalid memory address or nil pointer dereference", w)
  end.

(** [newRecordedCall]: [atomic.AddUint64(&tick, 1)] returns the new value. *)
Definition newRecordedCall (args : list value) : M recordedCall := fun w =>
  let t := uint64_incr (w_tick w) in
  (Ok {| tick := t; args := args |},
   {| w_tick := t; heap := heap w; doubles := doubles w |}).

(** *** Dispatch: [spy] *)

Definition stub_spy (w : world) (c : stubbedMethodCall)
  : outcome (received * stubbedMethodCall) :=
  rv ← match returns c with
       | Some rv => Ok rv
       | None =>
           td ← lookupDouble w (method_ c).1;
           meth ← lookupMethod w (method_ c);
           Ok (defaultReturnValues td (m meth))
       end;
  let '(res, rv') := Receive rv in
  Ok (res, {| method_ := method_ c; returns := Some rv'; matcher := matcher c |}).

Definition spy_record (c : spyMethodCall) (rc : recordedCall) : spyMethodCall :=
  {| spy_stub := spy_stub c; recorded := recorded c ++ [rc]; subsets := subsets c |}.

Definition fake_call (impl : value) (args : list value) : outcome (list value) :=
  match TypeOf impl with
  | None => Panic "reflect: call of reflect.Value.Type on zero Value"
  | Some implT =>
      if decide (Kind implT ≠ reflect.Func) then Panic "reflect: IsVariadic of non-func type"
      else if FuncIsVariadic implT then reflectCallSlice impl args
      else reflectCall impl args
  end.

Definition spy (call : ref) (args : list value) : M received :=
  w ← get;
  match heap w !! call with
  | None => nilDereference
  | Some (StubCall c) =>
      '(res, c') ← liftO (stub_spy w c);
      _ ← setCall call (StubCall c');
      mret res
  | Some (MockCall c) =>
      let c1 := {| mock_stub := mock_stub c; count := int_incr (count c);
                   after := after c; expect := expect c |} in
      _ ← setCall call (MockCall c1);
      '(res, s') ← liftO (stub_spy w (mock_stub c1));
      _ ← setCall call (MockCall {| mock_stub := s'; count := count c1;
                                    after := after c1; expect := expect c1 |});
      mret res
  | Some (SpyCall c) =>
      rc ← newRecordedCall args;
      let c1 := spy_record c rc in
      _ ← setCall call (SpyCall c1);
      '(res, s') ← liftO (stub_spy w (spy_stub c1));
      _ ← setCall call (SpyCall {| spy_stub := s'; recorded := recorded c1;
                                   subsets := subsets c1 |});
      mret res
  | Some (FakeCall c) =>
      rc ← newRecordedCall args;
      _ ← setCall call (FakeCall {| fake_spy := spy_record (fake_spy c) rc;
                                    impl := impl c |});
      returnVals ← liftO (fake_call (impl c) args);
      mret (inl returnVals)
  end.

(** *** [method.match] and [method.invoke] *)

Fixpoint firstMatch (h : list MethodCall) (calls : list ref) (args : list value)
  : outcome (option ref) :=
  match calls with
  | [] => Ok None
  | possible :: rest =>
      b ← matches_at h possible args;
      if b : bool then Ok (Some possible) else firstMatch h rest args
  end.

Definition newFakeMethodCall (mString : string) (mr : methodRef)
    (meth : method) (impl : value) : outcome fakeMethodCall :=
  match TypeOf impl with
  | None => Panic "reflect: call of reflect.Value.Type on zero Value"
  | Some implT =>
      _ ← AssertMethodInputs (m meth) implT;
      _ ← AssertMethodOutputs (m meth) implT;
      Ok {| fake_spy := newSpyMethodCall mString mr []; impl := impl |}
  end.

(** The call object a [defaultCall] function has made. *)
Definition made (td : TestDouble) (mr : methodRef) (meth : method) (c : madeCall)
  : outcome MethodCall :=
  match c with
  | MadeStub rv mt =>
      Ok (StubCall {| method_ := mr; returns := rv; matcher := mt |})
  | MadeMock rv mt after_ expect_ =>
      Ok (MockCall {| mock_stub := {| method_ := mr; returns := rv; matcher := mt |};
                      count := 0; after := after_; expect := expect_ |})
  | MadeSpy rv =>
      let c := newSpyMethodCall (method_String td mr.2) mr [] in
      Ok (SpyCall {| spy_stub := {| method_ := mr; returns := rv; matcher := None |};
                     recorded := recorded c; subsets := subsets c |})
  | MadeFake impl_ =>
      c ← newFakeMethodCall (method_String td mr.2) mr meth impl_;
      Ok (FakeCall c)
  end.

Definition method_match (mr : methodRef) (args : list value) : M ref :=
  w ← get;
  td ← liftO (lookupDouble w mr.1);
  meth ← liftO (lookupMethod w mr);
  found ← liftO (firstMatch (heap w) (calls meth) args);
  match found with
  | Some possible => mret possible
  | None =>
      match defaultCall td mr with
      | None => Fatalf "Nil DefaultMethodCall returned"
      | Some mc =>
          c ← liftO (made td mr meth mc);
          defaultMatcher ← alloc c;
          w1 ← get;
          b ← liftO (matches_at (heap w1) defaultMatcher args);
          if negb b then Fatalf "Method expects default matcher to match"
          else
            _ ← addMethodCall mr defaultMatcher;
            mret defaultMatcher
      end
  end.

Definition method_invoke (mr : methodRef) (args : list value) : M (list value) :=
  matched ← method_match mr args;
  res ← spy matched args;
  match res with
  | inr err => Fatalf "No return values available for method"
  | inl returns_ =>
      w ← get;
      meth ← liftO (lookupMethod w mr);
      _ ← liftO (AssertMethodReturnValues (m meth) returns_);
      mret returns_
  end.

(** Whether the method [name] of double [d] is found in [d.methods]. *)
Definition found (w : world) (d : nat) (name : string) : outcome bool :=
  td ← lookupDouble w d;
  Ok (bool_decide (is_Some (methods td !! name))).

Definition TestDouble_Invoke (d : nat) (methodName : string) (args : list value)
  : M (list value) :=
  w ← get;
  ok ← liftO (found w d methodName);
  if ok : bool then method_invoke (d, methodName) args
  else Fatalf "Unexpected call to unknown methodName".

(** *** Registration (double.go) *)

(** The type assertion [methodCall.(SpyMethodCall)]: a [*spyMethodCall]
    and a [*fakeMethodCall], which embeds one, have the methods of the
    interface; a nil interface value has not. *)
Definition isSpyMethodCall (h : list MethodCall) (call : ref) : bool :=
  match h !! call with
  | Some (SpyCall _) | Some (FakeCall _) => true
  | _ => false
  end.

Fixpoint firstSpy (h : list MethodCall) (calls : list ref) : option ref :=
  match calls with
  | [] => None
  | methodCall :: rest =>
      if isSpyMethodCall h methodCall then Some methodCall else firstSpy h rest
  end.

Definition TestDouble_Stub (d : nat) (methodName : string) : M ref :=
  w ← get;
  ok ← liftO (found w d methodName);
  if ok : bool then
    stub ← alloc (StubCall (newStubbedMethodCall (d, methodName)));
    _ ← addMethodCall (d, methodName) stub;
    mret stub
  else Fatalf "Cannot Stub non existent method".

Definition TestDouble_Mock (d : nat) (methodName : string) : M ref :=
  w ← get;
  ok ← liftO (found w d methodName);
  if ok : bool then
    mock ← alloc (MockCall (newMockedMethodCall (d, methodName)));
    _ ← addMethodCall (d, methodName) mock;
    mret mock
  else Fatalf "Cannot Mock non existent method".

Definition TestDouble_Spy (d : nat) (methodName : string) : M ref :=
  w ← get;
  ok ← liftO (found w d methodName);
  if ok : bool then
    td ← liftO (lookupDouble w d);
    meth ← liftO (lookupMethod w (d, methodName));
    match firstSpy (heap w) (calls meth) with
    | Some call => mret call
    | None =>
        spy ← alloc (SpyCall (newSpyMethodCall (method_String td methodName)
                                (d, methodName) []));
        _ ← addMethodCall (d, methodName) spy;
        mret spy
    end
  else Fatalf "Cannot Spy on non existent method".

Definition TestDouble_Fake (d : nat) (methodName : string) (impl : value) : M ref :=
  w ← get;
  ok ← liftO (found w d methodName);
  if ok : bool then
    td ← liftO (lookupDouble w d);
    meth ← liftO (lookupMethod w (d, methodName));
    match firstSpy (heap w) (calls meth) with
    | Some call => Fatalf "unreachable fake for a method which has previously registered a spy"
    | None =>
        c ← liftO (newFakeMethodCall (method_String td methodName)
                     (d, methodName) meth impl);
        fake ← alloc (FakeCall c);
        _ ← addMethodCall (d, methodName) fake;
        mret fake
    end
  else Fatalf "Cannot Fake non existent method".

(** *** Setup of a registered call: [Matching], [Returning], [After],
    [Expect] *)

Definition stubOf (c : MethodCall) : stubbedMethodCall :=
  match c with
  | StubCall s => s
  | MockCall c => mock_stub c
  | SpyCall c => spy_stub c
  | FakeCall c => spy_stub (fake_spy c)
  end.

Definition withStub (c : MethodCall) (s : stubbedMethodCall) : MethodCall :=
  match c with
  | StubCall _ => StubCall s
  | MockCall c =>
      MockCall {| mock_stub := s; count := count c; after := after c; expect := expect c |}
  | SpyCall c =>
      SpyCall {| spy_stub := s; recorded := recorded c; subsets := subsets c |}
  | FakeCall c =>
      FakeCall {| fake_spy := {| spy_stub := s; recorded := recorded (fake_spy c);
                                 subsets := subsets (fake_spy c) |};
                  impl := impl c |}
  end.

(** [stubbedMethodCall.Returning], which the mock and the spy delegate to. *)
Definition Returning (call : ref) (returnValues : rawReturns) : M unit :=
  w ← get;
  match heap w !! call with
  | None => nilDereference
  | Some c =>
      let s := stubOf c in
      td ← liftO (lookupDouble w (method_ s).1);
      meth ← liftO (lookupMethod w (method_ s));
      rv ← liftO (d_returns td (m meth) (returns s) returnValues);
      setCall call (withStub c {| method_ := method_ s; returns := Some rv;
                                  matcher := matcher s |})
  end.

(** [stubbedMethodCall.Matching], which the mock delegates to. *)
Definition Matching (call : ref) (matchers : list rawInput) : M unit :=
  w ← get;
  match heap w !! call with
  | Some ((StubCall _ | MockCall _) as c) =>
      let s := stubOf c in
      td ← liftO (lookupDouble w (method_ s).1);
      meth ← liftO (lookupMethod w (method_ s));
      mt ← liftO (d_matcher td (m meth) (matcher s) matchers);
      setCall call (withStub c {| method_ := method_ s; returns := returns s;
                                  matcher := Some mt |})
  | _ => nilDereference
  end.

Definition After (call : ref) (after_ : list ref) : M unit :=
  w ← get;
  match heap w !! call with
  | Some (MockCall c) =>
      setCall call (MockCall {| mock_stub := mock_stub c; count := count c;
                                after := after c ++ after_; expect := expect c |})
  | _ => nilDereference
  end.

Definition Expect (call : ref) (expect_ : Expectation) : M unit :=
  w ← get;
  match heap w !! call with
  | Some (MockCall c) =>
      setCall call (MockCall {| mock_stub := mock_stub c; count := count c;
                                after := after c; expect := Some expect_ |})
  | _ => nilDereference
  end.

(** [ExpectInOrder(calls...)]: [calls[i].After(calls[i-1])] for [i] from the
    last index down to 1. *)
Fixpoint ExpectInOrder_down (calls : list ref) (i : nat) : M unit :=
  match i with
  | O => mret ()
  | S i' =>
      match calls !! i, calls !! i' with
      | Some c, Some prev => _ ← After c [prev]; ExpectInOrder_down calls i'
      | _, _ => liftO (Panic "index out of range")
      end
  end.

Definition ExpectInOrder (calls : list ref) : M unit :=
  ExpectInOrder_down calls (length calls - 1)%nat.

(** [verify]: whether [t.Errorf] is called. *)
Definition verify (c : MethodCall) : bool :=
  match c with
  | MockCall c => negb (met c)
  | _ => false
  end.

(** ** Recorded calls and their views (spy.go) *)

(** [s[i]] and [s[from:to]] of a Go slice of length [len(s)]. *)
Definition go_index {A} (s : list A) (i : Z) : outcome A :=
  if decide (0 <= i) then
    match s !! Z.to_nat i with
    | Some x => Ok x
    | None => Panic "index out of range"
    end
  else Panic "index out of range".

Definition go_slice {A} (s : list A) (from to : Z) : outcome (list A) :=
  if decide (0 <= from ∧ from <= to ∧ to <= Z.of_nat (length s))
  then Ok (take (Z.to_nat (to - from)) (drop (Z.to_nat from) s))
  else Panic "slice bounds out of range".

(** The recorded calls behind a [RecordedCalls] interface value. *)
Definition recordedCallsOf (c : MethodCall) : option spyMethodCall :=
  match c with
  | SpyCall c => Some c
  | FakeCall c => Some (fake_spy c)
  | _ => None
  end.

Definition NumCalls (c : spyMethodCall) : Z := Z.of_nat (length (recorded c)).

(** [Expect] on a view: whether [t.Errorf] is called. *)
Definition spy_Expect (c : spyMethodCall) (expect_ : Expectation) : bool :=
  negb (Met expect_ (NumCalls c)).

Definition newSubset (td : TestDouble) (c : spyMethodCall)
    (calls : list recordedCall) (desc : list string) : spyMethodCall :=
  let result :=
    newSpyMethodCall (method_String td (method_ (spy_stub c)).2)
      (method_ (spy_stub c)) (desc ++ subsets c) in
  {| spy_stub := spy_stub result; recorded := calls; subsets := subsets result |}.

Fixpoint matchingCalls (mt : Matcher) (calls : list recordedCall)
  : outcome (list recordedCall) :=
  match calls with
  | [] => Ok []
  | call :: rest =>
      b ← Matches mt (args call);
      subsetCalls ← matchingCalls mt rest;
      Ok (if b : bool then call :: subsetCalls else subsetCalls)
  end.

(** [Matching] on a view.  Matchers are values here: a matcher object that
    an earlier call has passed through [ForMethod], which rewrites the
    [matcherList] of an [Args] matcher in place, is to be given as that call
    left it (the result of [forMethod]), not as it was built. *)
Definition spy_Matching (td : TestDouble) (c : spyMethodCall)
    (matchers : list rawInput) : outcome spyMethodCall :=
  match methods td !! (method_ (spy_stub c)).2 with
  | None => Panic "invalid memory address or nil pointer dereference"
  | Some meth =>
      mt ← d_matcher td (m meth) None matchers;
      subsetCalls ← matchingCalls mt (recorded c);
      Ok (newSubset td c subsetCalls
            ["calls matching " +:+ showMatcher mt +:+ " within"])
  end.

Definition spy_Slice (td : TestDouble) (c : spyMethodCall) (from to : Z)
  : outcome spyMethodCall :=
  let l := Z.of_nat (length (recorded c)) in
  if decide (from < 0 ∨ to < 0 ∨ from > to)
  then Fatal "reflect.Invalid reflect.Slice of RecordedCalls"
  else
    '(subsetCalls, sliceDesc) ←
      (if decide (from > l) then
         Ok ([], "[" +:+ pretty from +:+ ">=len():]")
       else if decide (to > l) then
         sub ← go_slice (recorded c) from l;
         Ok (sub, "[" +:+ pretty from +:+ ":]")
       else
         sub ← go_slice (recorded c) from to;
         Ok (sub, "[" +:+ pretty from +:+ ":" +:+ pretty to +:+ "]"));
    Ok (newSubset td c subsetCalls ["newSliceMatcher" +:+ sliceDesc +:+ " of"]).

(** [sort.Search(n, f)] of the Go library: the binary search
    [i, j := 0, n; for i < j { h := int(uint(i+j) >> 1); if !f(h) { i = h + 1 }
    else { j = h } }; return i]. *)
Equations? search_loop (f : Z -> outcome bool) (i j : Z) : outcome Z
  by wf (Z.to_nat (j - i)) lt :=
  search_loop f i j with decide (i < j) => {
    | right _ => Ok i
    | left _ with f (Z.shiftr (i + j) 1) => {
        | Ok false => search_loop f (Z.shiftr (i + j) 1 + 1) j
        | Ok true => search_loop f i (Z.shiftr (i + j) 1)
        | Fatal msg => Fatal msg
        | Panic msg => Panic msg } }.
Proof.
  all: rewrite Z.shiftr_div_pow2 by lia; change (2 ^ 1) with 2;
    pose proof (Z.div_mod (i + j) 2 ltac:(lia));
    pose proof (Z.mod_pos_bound (i + j) 2 ltac:(lia)); lia.
Qed.

Definition sort_Search (n : Z) (f : Z -> outcome bool) : outcome Z :=
  search_loop f 0 n.

Definition spy_After (td : TestDouble) (c : spyMethodCall)
    (recordedCalls : spyMethodCall) : outcome spyMethodCall :=
  let recorded_ := recorded recordedCalls in
  let len := Z.of_nat (length (recorded c)) in
  subsetCalls ←
    (if decide (Z.of_nat (length recorded_) > 0) then
       last ← go_index recorded_ (Z.of_nat (length recorded_) - 1);
       let lastTick := tick last in
       partitionIndex ←
         sort_Search len (fun i =>
           rc ← go_index (recorded c) i;
           Ok (bool_decide (tick rc > lastTick)));
       if decide (partitionIndex < len)
       then go_slice (recorded c) partitionIndex len
       else Ok []
     else Ok (recorded c));
  Ok (newSubset td c subsetCalls
        (["calls after"; ">>"] ++ (subsets recordedCalls ++ ["<<"; "within"]))).

(** [NewDouble], for the methods of the interface and the hooks that
    [defaults] and the configurators have set. *)
Definition NewDouble (forInterface_ : string) (ifaceMethods : list reflectMethod)
    (defaultCall_ : methodRef -> option madeCall)
    (defaultReturnValues_ : reflectMethod -> ReturnValues)
    (trace_ : bool) (matcher_ : MatcherForMethod) (returns_ : ReturnsForMethod)
  : TestDouble :=
  {| methods := list_to_map ((fun rm => (Name rm, newMethod rm)) <$> ifaceMethods);
     defaultCall := defaultCall_;
     defaultReturnValues := defaultReturnValues_;
     forInterface := forInterface_;
     trace := trace_;
     d_matcher := matcher_;
     d_returns := returns_ |}.

(** The world before any double is made: the global [tick] is zero. *)
Definition initial : world := {| w_tick := 0; heap := []; doubles := [] |}.

Definition addDouble (td : TestDouble) : M nat := fun w =>
  (Ok (length (doubles w)),
   {| w_tick := w_tick w; heap := heap w; doubles := doubles w ++ [td] |}).

(** ** Tests as sequences of operations *)

Inductive op : Type :=
| OpNewDouble (forInterface_ : string) (ifaceMethods : list reflectMethod)
    (defaultCall_ : methodRef -> option madeCall)
    (defaultReturnValues_ : reflectMethod -> ReturnValues)
    (trace_ : bool) (matcher_ : MatcherForMethod) (returns_ : ReturnsForMethod)
| OpStub (d : nat) (methodName : string)
| OpMock (d : nat) (methodName : string)
| OpSpy (d : nat) (methodName : string)
| OpFake (d : nat) (methodName : string) (impl : value)
| OpReturning (call : ref) (returnValues : rawReturns)
| OpMatching (call : ref) (matchers : list rawInput)
| OpAfter (call : ref) (after_ : list ref)
| OpExpect (call : ref) (expect_ : Expectation)
| OpInvoke (d : nat) (methodName : string) (args : list value).

(** The world an operation leaves behind, however it ends. *)
Definition run_op (o : op) (w : world) : world :=
  match o with
  | OpNewDouble i ms dc dr tr mt rt => (addDouble (NewDouble i ms dc dr tr mt rt) w).2
  | OpStub d n => (TestDouble_Stub d n w).2
  | OpMock d n => (TestDouble_Mock d n w).2
  | OpSpy d n => (TestDouble_Spy d n w).2
  | OpFake d n impl_ => (TestDouble_Fake d n impl_ w).2
  | OpReturning c r => (Returning c r w).2
  | OpMatching c ms => (Matching c ms w).2
  | OpAfter c a => (After c a w).2
  | OpExpect c e => (Expect c e w).2
  | OpInvoke d n a => (TestDouble_Invoke d n a w).2
  end.

Definition run (ops : list op) (w : world) : world :=
  foldl (fun w o => run_op o w) w ops.

(** Invocations of methods of doubles, as operations. *)
Definition invocations (invs : list (nat * string * list value)) : list op :=
  (fun i => OpInvoke i.1.1 i.1.2 i.2) <$> invs.

(** The views of the recorded calls of a world: the registered spies and
    fakes, and what [Matching], [Slice] and [After] derive from views. *)
Inductive viewOf (w : world) : spyMethodCall -> Prop :=
| view_registered call c v :
    heap w !! call = Some c -> recordedCallsOf c = Some v -> viewOf w v
| view_Matching td v matchers v' :
    viewOf w v -> spy_Matching td v matchers = Ok v' -> viewOf w v'
| view_Slice td v from to v' :
    viewOf w v -> spy_Slice td v from to = Ok v' -> viewOf w v'
| view_After td v u v' :
    viewOf w v -> viewOf w u -> spy_After td v u = Ok v' -> viewOf w v'.

(** The largest tick of a list of recorded calls. *)
Definition maxTick (l : list recordedCall) : option Z :=
  foldr (fun rc acc => match acc with
                       | Some t => Some (Z.max (tick rc) t)
                       | None => Some (tick rc)
                       end) None l.

Definition tickOrdered (l : list recordedCall) : Prop :=
  StronglySorted (fun a b => tick a < tick b) l.

(** The recorded-call log of a call object (empty for a stub or a mock), and
    the logs of all call objects of a world, by address. *)
Definition logOf (c : MethodCall) : list recordedCall :=
  match recordedCallsOf c with
  | Some v => recorded v
  | None => []
  end.

Definition logs (w : world) : list (list recordedCall) := logOf <$> heap w.

(** The invariant of the logs: each is in strictly increasing tick order
    and holds no tick above the global [tick]. *)
Definition ticksInv (w : world) : Prop :=
  0 <= w_tick w /\
  Forall (fun l => tickOrdered l /\ Forall (fun rc => tick rc <= w_tick w) l) (logs w).

(** What an operation may do to the logs: new call objects come with an
    empty log, and at most one log gets one recorded call, stamped with the
    incremented [tick]. *)
Definition logEffect (w w' : world) : Prop :=
  exists k : nat,
    let L := logs w ++ replicate k [] in
    (w_tick w' = w_tick w /\ logs w' = L) \/
    (w_tick w' = uint64_incr (w_tick w) /\
     exists call l a, L !! call = Some l /\
       logs w' = <[call := l ++ [{| tick := w_tick w'; args := a |}]]> L).

(** ** The registry, the ticks and the descriptions across operations *)

(** An expectation that is not a [Completion], or no expectation: a mock
    that has it is never complete. *)
Definition noCompletion (e : option Expectation) : Prop :=
  match e with
  | Some e => forall n, Complete e n = None
  | None => True
  end.

(** What an operation may do to the registry: the call objects and the
    doubles that are there stay, no method is added to a double, the calls
    of a method are only appended to, with addresses of call objects, as
    are the calls of the methods of a new double. *)
Definition methodExtends (n : nat) (meth meth' : method) : Prop :=
  m meth' = m meth /\
  exists news, calls meth' = calls meth ++ news /\
    Forall (fun call => (call < n)%nat) news.

Definition registryExtends (w w' : world) : Prop :=
  (length (heap w) <= length (heap w'))%nat /\
  (forall d td, doubles w !! d = Some td ->
     exists td', doubles w' !! d = Some td' /\
       forall name,
         option_Forall2 (methodExtends (length (heap w')))
           (methods td !! name) (methods td' !! name)) /\
  (forall d td', doubles w !! d = None -> doubles w' !! d = Some td' ->
     forall name meth call,
       methods td' !! name = Some meth -> call ∈ calls meth ->
       (call < length (heap w'))%nat).

(** No tick is in the logs of two call objects. *)
Definition logsApart (w : world) : Prop :=
  forall i j li lj a b,
    logs w !! i = Some li -> logs w !! j = Some lj ->
    a ∈ li -> b ∈ lj -> tick a = tick b -> i = j.

(** ** [TestDouble.Verify] (double.go)

    The calls for which [verify] reports an error with [t.Errorf], which
    does not stop the test.  Go ranges over the map of methods in an
    unspecified order; here it is that of [map_to_list]. *)
Fixpoint verifyCalls (h : list MethodCall) (calls : list ref) : outcome (list ref) :=
  match calls with
  | [] => Ok []
  | methodCall :: rest =>
      match h !! methodCall with
      | None => Panic "invalid memory address or nil pointer dereference"
      | Some c =>
          errs ← verifyCalls h rest;
          Ok (if verify c then methodCall :: errs else errs)
      end
  end.

Definition TestDouble_Verify (w : world) (d : nat) : outcome (list ref) :=
  td ← lookupDouble w d;
  verifyCalls (heap w) (flat_map (fun nm => calls nm.2) (map_to_list (methods td))).

(** ** [spyMethodCall.String] (spy.go)

    The descriptions of a view, one per line and indented by their depth:
    [">>"] saves the depth and ["<<"] goes back to the depth last saved,
    [rewinds[0]].  The depth is a Go [int]. *)
Definition newline : string := String (Ascii.ascii_of_nat 10) EmptyString.

Fixpoint indentation (depth : nat) : string :=
  match depth with
  | O => EmptyString
  | S depth' => "  " +:+ indentation depth'
  end.

Fixpoint String_loop (subsets : list string) (i : nat) (depth : Z)
    (rewinds : list Z) (sb : string) : outcome string :=
  match subsets with
  | [] => Ok sb
  | s :: rest =>
      if decide (s = ">>") then String_loop rest (S i) depth (depth :: rewinds) sb
      else if decide (s = "<<") then
        match rewinds with
        | [] => Panic "index out of range"
        | saved :: rewinds' => String_loop rest (S i) saved rewinds' sb
        end
      else
        let sb1 := if decide (0 < i)%nat then sb +:+ newline else sb in
        String_loop rest (S i) (int_incr depth) rewinds
          (sb1 +:+ indentation (Z.to_nat depth) +:+ s)
  end.

Definition spy_String (c : spyMethodCall) : outcome string :=
  String_loop (subsets c) 0 0 [] EmptyString.

(** The descriptions of a call object that records calls. *)
Definition subsetsOf (c : MethodCall) : list string :=
  match recordedCallsOf c with
  | Some v => subsets v
  | None => []
  end.

(** A list of descriptions that [String] goes through without a panic,
    ending with the saved depths it started from. *)
Definition balanced (l : list string) : Prop :=
  forall rest i depth rewinds sb,
    exists i' depth' sb',
      String_loop (l ++ rest) i depth rewinds sb = String_loop rest i' depth' rewinds sb'.

(** What an operation may do to the descriptions: those of the call objects
    that are there stay, and a new call object has none or the one of a
    registration. *)
Definition descsKept (w w' : world) : Prop :=
  exists news,
    subsetsOf <$> heap w' = (subsetsOf <$> heap w) ++ news /\
    Forall (fun l => l = [] \/ exists s, l = ["all calls to " +:+ s]) news.

(** ** Call objects across operations *)

(** The dynamic type of a call object, with the function of a fake: what no
    operation changes. *)
Inductive callKind : Type :=
| StubKind
| MockKind
| SpyKind
| FakeKind (impl_ : value).

Definition kindOf (c : MethodCall) : callKind :=
  match c with
  | StubCall _ => StubKind
  | MockCall _ => MockKind
  | SpyCall _ => SpyKind
  | FakeCall c => FakeKind (impl c)
  end.

Definition kindsKept (w w' : world) : Prop :=
  (kindOf <$> heap w) `prefix_of` (kindOf <$> heap w').

(** Every call registered for a method of a double is the address of a call
    object. *)
Definition registrationsAllocated (w : world) : Prop :=
  forall d td name meth call,
    doubles w !! d = Some td -> methods td !! name = Some meth ->
    call ∈ calls meth -> (call < length (heap w))%nat.

(** The [after] list of a call object (empty unless it is a mock), which
    operations only append to. *)
Definition afterOf (c : MethodCall) : list ref :=
  match c with
  | MockCall c => after c
  | _ => []
  end.

Definition afterGrows (w w' : world) : Prop :=
  forall call l, (afterOf <$> heap w) !! call = Some l ->
    exists l', (afterOf <$> heap w') !! call = Some l' /\ l `prefix_of` l'.

End Godouble.

(** ** An instance: string and integer values

    A small universe of values and types on which the definitions run: the
    interface [api] of the package's tests has the methods
    [call(in string) int] and [other() int], and [VStrLen] is the function
    [func(s string) int { return len(s) }] that the tests install as a
    fake. *)

Inductive exValue : Type :=
| VInt (n : Z)
| VStr (s : string)
| VBool (b : bool)
| VStrLen
| VNil.

Inductive exType : Type :=
| TInt | TString | TBool | TEmptyInterface | TPredicate | TStrLenFunc.

#[global] Instance exValue_eq_dec : EqDecision exValue.
Proof. solve_decision. Defined.
#[global] Instance exType_eq_dec : EqDecision exType.
Proof. solve_decision. Defined.

#[global] Instance exReflection : Reflection exValue exType := {|
  TypeOf v := match v with
              | VInt _ => Some TInt
              | VStr _ => Some TString
              | VBool _ => Some TBool
              | VStrLen => Some TStrLenFunc
              | VNil => None
              end;
  Kind t := match t with
            | TInt => reflect.Int
            | TString => reflect.String
            | TBool => reflect.Bool
            | TEmptyInterface => reflect.Interface
            | TPredicate | TStrLenFunc => reflect.Func
            end;
  AssignableTo a b := bool_decide (a = b) || bool_decide (b = TEmptyInterface);
  Implements a b := bool_decide (b = TEmptyInterface);
  Zero t := match t with
            | TInt => VInt 0
            | TString => VStr ""
            | TBool => VBool false
            | _ => VNil
            end;
  Elem t := t;
  FuncIn t := match t with
              | TPredicate => [TEmptyInterface]
              | TStrLenFunc => [TString]
              | _ => []
              end;
  FuncOut t := match t with
               | TPredicate => [TBool]
               | TStrLenFunc => [TInt]
               | _ => []
               end;
  FuncIsVariadic _ := false;
  reflectCall f args_ :=
    match f, args_ with
    | VStrLen, [VStr s] => Ok [VInt (Z.of_nat (String.length s))]
    | _, _ => Panic "reflect: Call with wrong arguments"
    end;
  reflectCallSlice _ _ := Panic "reflect: CallSlice of non-variadic function";
  asBool v := match v with VBool b => Some b | _ => None end;
  valueKind v := match v with
                 | VInt _ => reflect.Int
                 | VStr _ => reflect.String
                 | VBool _ => reflect.Bool
                 | VStrLen => reflect.Func
                 | VNil => reflect.Invalid
                 end;
  valueLen v := match v with VStr s => Z.of_nat (String.length s) | _ => 0 end;
  valueIndex _ _ := VNil;
  valueIsNil _ := false;
  boxInt n := VInt n;
  intType := TInt;
  predicateType := TPredicate
|}.

#[global] Instance exMatcherPrimitives : @MatcherPrimitives exValue exType := {|
  DeepEqual arg v := match v with
                     | RawValue x => bool_decide (arg = x)
                     | _ => false
                     end;
  showMatcher _ := "matcher"
|}.

Definition api_call : @reflectMethod exType :=
  {| Name := "call"; In := [TString]; IsVariadic := false; Out := [TInt] |}.
Definition api_other : @reflectMethod exType :=
  {| Name := "other"; In := []; IsVariadic := false; Out := [TInt] |}.

(** Modelled from the spec: the hooks that [defaults] gives a double ([defaults]
    is called by [NewDouble] and is not among the sources).  Unregistered
    calls go to a mock that expects never to be called, the default return
    values are the zero values, and the integrations build matchers and
    return values as [NewMatcherForMethod] and [NewReturnsForMethod] do. *)
Definition newApiDouble : @op exValue exType :=
  OpNewDouble "api" [api_call; api_other]
    (fun _ => Some (MadeMock None None [] (Some Never)))
    ZeroValues false
    (fun rm _ matchers => NewMatcherForMethod rm matchers)
    (fun rm _ values => NewReturnsForMethod rm values).

Definition apiWorld : @world exValue exType := run [newApiDouble] initial.

(** The double that [newApiDouble] makes. *)
Definition apiDouble : @TestDouble exValue exType :=
  NewDouble "api" [api_call; api_other]
    (fun _ => Some (MadeMock None None [] (Some Never)))
    ZeroValues false
    (fun rm _ matchers => NewMatcherForMethod rm matchers)
    (fun rm _ values => NewReturnsForMethod rm values).

(** [Mock("call").Returning(1).Expect(Once())], then
    [Stub("call").Returning(99)]. *)
Definition mockThenStub : @world exValue exType :=
  run [OpMock 0%nat "call"; OpReturning 0%nat (ReturnsValues [VInt 1]);
       OpExpect 0%nat Once;
       OpStub 0%nat "call"; OpReturning 1%nat (ReturnsValues [VInt 99])] apiWorld.

Definition theMock : @mockedMethodCall exValue exType :=
  {| mock_stub := {| method_ := (0%nat, "call");
                     returns := Some (fixedReturnValues [VInt 1]);
                     matcher := None |};
     count := 0; after := []; expect := Some Once |}.

(** [Stub("call").Matching("second").Returning(1)], then
    [Stub("call").Returning(99)]. *)
Definition twoStubs : @world exValue exType :=
  run [OpStub 0%nat "call"; OpMatching 0%nat [RawValue (VStr "second")];
       OpReturning 0%nat (ReturnsValues [VInt 1]);
       OpStub 0%nat "call"; OpReturning 1%nat (ReturnsValues [VInt 99])] apiWorld.

(** The double and its method [call] in a world with the one double. *)
Definition doubleOf (w : @world exValue exType) : @TestDouble exValue exType :=
  default apiDouble (doubles w !! 0%nat).
Definition callOf (w : @world exValue exType) : @method exType :=
  default (newMethod api_call) (methods (doubleOf w) !! "call").
Definition stubAt (w : @world exValue exType) (call : nat)
  : @stubbedMethodCall exValue exType :=
  match heap w !! call with
  | Some c => stubOf c
  | None => newStubbedMethodCall (0%nat, "call")
  end.

(** [Spy("call")] and the calls with ["first"], ["second"], ["third"]. *)
Definition spiedCalls : list (@op exValue exType) :=
  [newApiDouble; OpSpy 0%nat "call";
   OpInvoke 0%nat "call" [VStr "first"];
   OpInvoke 0%nat "call" [VStr "second"];
   OpInvoke 0%nat "call" [VStr "third"]].

Definition exCall (t : Z) (s : string) : @recordedCall exValue :=
  {| tick := t; args := [VStr s] |}.

(** The spy of [spiedCalls]. *)
Definition theSpy : @spyMethodCall exValue exType :=
  {| spy_stub := {| method_ := (0%nat, "call");
                    returns := Some (reflectZeroReturnValues [TInt]);
                    matcher := None |};
     recorded := [exCall 1 "first"; exCall 2 "second"; exCall 3 "third"];
     subsets := ["all calls to DoubleFor(api).call"] |}.

(** The view [spy.Matching("second")]. *)
Definition theSecond : @spyMethodCall exValue exType :=
  {| spy_stub := newStubbedMethodCall (0%nat, "call");
     recorded := [exCall 2 "second"];
     subsets := ["calls matching matcher within";
                 "all calls to DoubleFor(api).call"] |}.


(** [Fake("call", func(s string) int { return len(s) })]. *)
Definition fakeWorld : @world exValue exType :=
  run [OpFake 0%nat "call" VStrLen] apiWorld.

(** The call object at an address. *)
Definition objAt (w : @world exValue exType) (call : nat) : @MethodCall exValue exType :=
  default (StubCall (newStubbedMethodCall (0%nat, "call"))) (heap w !! call).

(** [Spy("call")], then [Stub("call")]. *)
Definition spyThenStub : @world exValue exType :=
  run [OpSpy 0%nat "call"; OpStub 0%nat "call"] apiWorld.

(** [Mock("call")] twice. *)
Definition twoMocks : @world exValue exType :=
  run [OpMock 0%nat "call"; OpMock 0%nat "call"] apiWorld.

(** A double whose default call is a spy. *)
Definition spyByDefault : @world exValue exType :=
  run [OpNewDouble "api" [api_call; api_other]
         (fun _ => Some (MadeSpy None))
         ZeroValues false
         (fun rm _ matchers => NewMatcherForMethod rm matchers)
         (fun rm _ values => NewReturnsForMethod rm values)] initial.

(** [first := Mock("call").Returning(1).Expect(Once())] and
    [second := Mock("call").Matching("go").Returning(2)]. *)
Definition mocksUnordered : @world exValue exType :=
  run [OpMock 0%nat "call"; OpReturning 0%nat (ReturnsValues [VInt 1]);
       OpExpect 0%nat Once;
       OpMock 0%nat "call"; OpMatching 1%nat [RawValue (VStr "go")];
       OpReturning 1%nat (ReturnsValues [VInt 2])] apiWorld.

Definition theSecondMock : @mockedMethodCall exValue exType :=
  {| mock_stub := {| method_ := (0%nat, "call");
                     returns := Some (fixedReturnValues [VInt 2]);
                     matcher := Some (Args [Eql (RawValue (VStr "go"))]) |};
     count := 0; after := []; expect := None |}.

(** [second.After(first)], and what [second] is then. *)
Definition mocksInOrder : @world exValue exType :=
  run [OpAfter 1%nat [0%nat]] mocksUnordered.

Definition theSequencedMock : @mockedMethodCall exValue exType :=
  {| mock_stub := mock_stub theSecondMock; count := 0; after := [0%nat];
     expect := None |}.

(** As in [TestTestDouble_Spy], the spy is set to return from a channel and
    is called three times; a [Stub("call")] is registered in between. *)
Definition spyUses : list (@op exValue exType) :=
  [OpReturning 0%nat
     (ReturnsSource (returnChannel [[VInt 1]; [VInt 2]; [VInt 3]] false));
   OpInvoke 0%nat "call" [VStr "first"];
   OpStub 0%nat "call";
   OpInvoke 0%nat "call" [VStr "second"];
   OpInvoke 0%nat "call" [VStr "third"]].

(** [Stub("call")] and a call, after the fake is registered. *)
Definition fakeUses : list (@op exValue exType) :=
  [OpStub 0%nat "call"; OpInvoke 0%nat "call" [VStr "abc"]].

(** * Properties *)

(** ** Expectations *)

(** C4: [Met] and [Complete] of the five expectations, for every count:
    [Exactly(n)] is met at [n] and complete from [n] on; [Never] is met at 0
    and [AtLeast(n)] from [n] on, and neither is a [Completion];
    [AtMost(n)] is met from 0 to [n] and complete from [n] on;
    [Between(lo,hi)] is met from [lo] to [hi] and complete from [hi] on;
    with the boundary values of [Between(5,11)]. *)
Theorem expectation_table (n lo hi count : Z) :
  (Met (Exactly n) count = true <-> count = n) /\
  Complete (Exactly n) count = Some (bool_decide (count >= n)) /\
  (Met Never count = true <-> count = 0) /\
  Complete Never count = None /\
  (Met (AtLeast n) count = true <-> count >= n) /\
  Complete (AtLeast n) count = None /\
  (Met (AtMost n) count = true <-> 0 <= count <= n) /\
  Complete (AtMost n) count = Some (bool_decide (count >= n)) /\
  (Met (Between lo hi) count = true <-> lo <= count <= hi) /\
  Complete (Between lo hi) count = Some (bool_decide (count >= hi)) /\
  Met (Between 5 11) 5 = true /\ Met (Between 5 11) 11 = true /\
  Met (Between 5 11) 4 = false /\ Met (Between 5 11) 12 = false /\
  Complete (Between 5 11) 11 = Some true /\
  Complete (Between 5 11) 10 = Some false.
Proof.
  unfold Exactly, Never, AtLeast, AtMost, Between; simpl.
  rewrite !andb_true_iff, !bool_decide_eq_true.
  repeat split; try reflexivity; lia.
Qed.

Section Properties.

Context {value rtype : Type} `{!Reflection value rtype}
  `{!@MatcherPrimitives value rtype}.

Implicit Types (h : list (@MethodCall value rtype)).
Implicit Types (c v u : @spyMethodCall value rtype).
Implicit Types (td : @TestDouble value rtype).
Implicit Types (w : @world value rtype).

(** ** Views: [Slice] *)

Lemma go_slice_Ok {A} (s : list A) (from to : Z) :
  0 <= from -> from <= to -> to <= Z.of_nat (length s) ->
  go_slice s from to = Ok (take (Z.to_nat (to - from)) (drop (Z.to_nat from) s)).
Proof.
  intros. unfold go_slice. rewrite decide_True by lia. reflexivity.
Qed.

Lemma recorded_newSubset td c calls desc :
  recorded (newSubset td c calls desc) = calls.
Proof. reflexivity. Qed.

Lemma lookup_take_drop {A} (s : list A) (n i k : nat) :
  take n (drop i s) !! k = if decide (k < n)%nat then s !! (i + k)%nat else None.
Proof.
  case_decide.
  - rewrite lookup_take_lt by done. apply lookup_drop.
  - apply lookup_take_ge. lia.
Qed.

(** C7: [Slice(from, to)] on a view of [l] recorded calls ends in the fatal
    failure exactly when [from > to], [from < 0] or [to < 0]; otherwise it
    returns, without an index fault, the view of the calls at the positions
    [from <= p < to] of this view that exist, which is empty when
    [from >= l]. *)
Theorem Slice_range td c (from to : Z) :
  match spy_Slice td c from to with
  | Fatal _ => from > to \/ from < 0 \/ to < 0
  | Panic _ => False
  | Ok v =>
      ~ (from > to \/ from < 0 \/ to < 0) /\
      recorded v = take (Z.to_nat (to - from)) (drop (Z.to_nat from) (recorded c)) /\
      (forall k : nat,
         recorded v !! k =
           if decide (from + Z.of_nat k < to)
           then recorded c !! (Z.to_nat from + k)%nat else None) /\
      (from >= NumCalls c -> recorded v = [])
  end.
Proof.
  unfold spy_Slice, NumCalls.
  set (l := Z.of_nat (length (recorded c))).
  destruct (decide (from < 0 \/ to < 0 \/ from > to)) as [Hbad|Hok]; [lia|].
  assert (Hrange :
    forall sub,
      sub = take (Z.to_nat (to - from)) (drop (Z.to_nat from) (recorded c)) ->
      ~ (from > to \/ from < 0 \/ to < 0) /\
      sub = take (Z.to_nat (to - from)) (drop (Z.to_nat from) (recorded c)) /\
      (forall k : nat,
         sub !! k =
           if decide (from + Z.of_nat k < to)
           then recorded c !! (Z.to_nat from + k)%nat else None) /\
      (from >= l -> sub = [])).
  { intros sub ->.
    split; [lia|]. split; [done|]. split.
    - intros k. rewrite lookup_take_drop.
      repeat case_decide; try done; lia.
    - intros Hge. rewrite drop_ge by lia. by rewrite take_nil. }
  destruct (decide (from > l)) as [Hfl|Hfl]; simpl.
  - apply Hrange. rewrite drop_ge by lia. by rewrite take_nil.
  - destruct (decide (to > l)) as [Htl|Htl]; simpl.
    + rewrite go_slice_Ok by lia. simpl. apply Hrange.
      rewrite !take_ge; [done | |]; rewrite length_drop; lia.
    + rewrite go_slice_Ok by lia. simpl. by apply Hrange.
Qed.

(** ** Views: [After] *)

Lemma shiftr_1_half (x : Z) : Z.shiftr x 1 = x `div` 2.
Proof. rewrite Z.shiftr_div_pow2 by lia. reflexivity. Qed.

(** The binary search returns, and on a predicate that is false then true
    over [i..j) it returns the index where it turns true. *)
Lemma search_loop_partition (p : Z -> bool) (f : Z -> outcome bool) (n : nat) :
  forall i j : Z,
    Z.to_nat (j - i) = n ->
    0 <= i <= j ->
    (forall k, i <= k < j -> f k = Ok (p k)) ->
    (forall k k', i <= k <= k' -> k' < j -> p k = true -> p k' = true) ->
    exists r, search_loop f i j = Ok r /\ i <= r <= j /\
      (forall k, i <= k < r -> p k = false) /\
      (forall k, r <= k < j -> p k = true).
Proof.
  induction (lt_wf n) as [n _ IH]. intros i j Hn Hij Hf Hmono.
  rewrite search_loop_equation_1.
  destruct (decide (i < j)) as [Hlt|Hge]; simpl.
  - pose proof (shiftr_1_half (i + j)) as Hh.
    assert (Hhr : i <= Z.shiftr (i + j) 1 < j).
    { rewrite Hh. split.
      - apply Z.div_le_lower_bound; lia.
      - apply Z.div_lt_upper_bound; lia. }
    set (hh := Z.shiftr (i + j) 1) in *.
    rewrite (Hf hh) by lia.
    destruct (p hh) eqn:Hp; simpl.
    + destruct (IH (Z.to_nat (hh - i)) ltac:(lia) i hh eq_refl ltac:(lia))
        as (r & Hr & Hb & Hlo & Hhi).
      * intros k Hk. apply Hf. lia.
      * intros k k' Hk Hk'. apply Hmono; lia.
      * exists r. split; [done|]. split; [lia|]. split; [done|].
        intros k Hk. destruct (decide (k < hh)); [apply Hhi; lia|].
        apply (Hmono hh k); [lia|lia|done].
    + destruct (IH (Z.to_nat (j - (hh + 1))) ltac:(lia) (hh + 1) j eq_refl ltac:(lia))
        as (r & Hr & Hb & Hlo & Hhi).
      * intros k Hk. apply Hf. lia.
      * intros k k' Hk Hk'. apply Hmono; lia.
      * exists r. split; [done|]. split; [lia|]. split; [|done].
        intros k Hk. destruct (decide (hh < k)); [apply Hlo; lia|].
        destruct (p k) eqn:Hpk; [|done].
        rewrite (Hmono k hh) in Hp; [done|lia|lia|done].
  - exists i. split; [done|]. split; [lia|]. split; intros; lia.
Qed.

Lemma tickOrdered_sublist (l1 l2 : list (@recordedCall value)) :
  l1 `sublist_of` l2 -> tickOrdered l2 -> tickOrdered l1.
Proof.
  unfold tickOrdered. induction 1 as [|x l1 l2 Hsub IH|x l1 l2 Hsub IH];
    rewrite ?StronglySorted_cons.
  - done.
  - intros [Hall Hs]. split; [|by apply IH].
    rewrite Forall_forall in *. intros y Hy. apply Hall.
    by eapply elem_of_sublist.
  - intros [_ Hs]. by apply IH.
Qed.

Lemma tickOrdered_lookup_lt (l : list (@recordedCall value)) (i j : nat) a b :
  tickOrdered l -> l !! i = Some a -> l !! j = Some b -> (i < j)%nat ->
  tick a < tick b.
Proof.
  unfold tickOrdered. intros Hs. revert i j.
  induction Hs as [|x l Hs IH Hall]; intros i j Hi Hj Hlt; [done|].
  destruct j as [|j]; [lia|]. destruct i as [|i]; simpl in *.
  - injection Hi as ->. rewrite Forall_forall in Hall. apply Hall.
    by eapply list_elem_of_lookup_2.
  - apply (IH i j); [done|done|lia].
Qed.

Lemma tickOrdered_snoc (l : list (@recordedCall value)) x :
  tickOrdered (l ++ [x]) <-> tickOrdered l /\ Forall (fun a => tick a < tick x) l.
Proof.
  unfold tickOrdered. rewrite StronglySorted_app. split.
  - intros (Hall & Hl & _). split; [done|].
    rewrite Forall_forall. intros a Ha. apply Hall; [done|]. by apply list_elem_of_singleton.
  - intros [Hl Hall]. split; [|split; [done|by repeat constructor]].
    intros a b Ha Hb. apply list_elem_of_singleton in Hb as ->.
    rewrite Forall_forall in Hall. by apply Hall.
Qed.

Lemma maxTick_snoc_ordered (l : list (@recordedCall value)) x :
  tickOrdered (l ++ [x]) -> maxTick (l ++ [x]) = Some (tick x).
Proof.
  induction l as [|a l IH]; [done|].
  intros Hs. pose proof Hs as Hs'.
  change ((a :: l) ++ [x]) with (a :: (l ++ [x])) in Hs.
  apply StronglySorted_cons in Hs as [Hall Hs].
  change (maxTick ((a :: l) ++ [x])) with
    (match maxTick (l ++ [x]) with
     | Some t => Some (Z.max (tick a) t)
     | None => Some (tick a)
     end).
  rewrite (IH Hs).
  rewrite Forall_forall in Hall.
  assert (tick a < tick x)
    by (apply Hall, elem_of_app; right; by apply list_elem_of_singleton).
  f_equal. lia.
Qed.

Lemma filter_drop_partition {A} (P : A -> Prop) `{!forall x, Decision (P x)}
    (l : list A) (r : nat) :
  (forall k x, l !! k = Some x -> (k < r)%nat -> ~ P x) ->
  (forall k x, l !! k = Some x -> (r <= k)%nat -> P x) ->
  filter P l = drop r l.
Proof.
  revert r. induction l as [|a l IH]; intros r Hlo Hhi.
  - by rewrite drop_nil.
  - destruct r as [|r].
    + rewrite drop_0, filter_cons_True by (apply (Hhi 0%nat); [done|lia]).
      f_equal. rewrite (IH 0%nat); [by rewrite drop_0| |].
      * intros; lia.
      * intros k x Hk _. apply (Hhi (S k)); [done|lia].
    + rewrite filter_cons_False by (apply (Hlo 0%nat); [done|lia]).
      simpl. apply IH.
      * intros k x Hk Hlt. apply (Hlo (S k)); [done|lia].
      * intros k x Hk Hle. apply (Hhi (S k)); [done|lia].
Qed.

(** On tick-ordered views, [After] returns the view of the calls whose tick
    is above the largest tick of the other view, and all of the calls when
    the other view is empty. *)
Lemma spy_After_ordered td v u :
  tickOrdered (recorded v) -> tickOrdered (recorded u) ->
  exists v', spy_After td v u = Ok v' /\
    recorded v' =
      match maxTick (recorded u) with
      | Some t => filter (fun rc => t < tick rc) (recorded v)
      | None => recorded v
      end.
Proof.
  intros Hv Hu. unfold spy_After.
  destruct u as [ustub ru usub]; simpl in Hu |- *.
  revert Hu. destruct ru as [|x l0 _] using rev_ind; intros Hu.
  { simpl. eexists. split; [reflexivity|done]. }
  rewrite maxTick_snoc_ordered by done.
  rewrite decide_True by (rewrite length_app; simpl; lia).
  assert (Hidx : go_index (l0 ++ [x]) (Z.of_nat (length (l0 ++ [x])) - 1) = Ok x).
  { unfold go_index. rewrite decide_True by (rewrite length_app; simpl; lia).
    replace (Z.to_nat (Z.of_nat (length (l0 ++ [x])) - 1)) with (length l0)
      by (rewrite length_app; simpl; lia).
    by rewrite list_lookup_middle. }
  rewrite Hidx. simpl.
  set (len := Z.of_nat (length (recorded v))).
  set (p := fun k : Z =>
              match recorded v !! Z.to_nat k with
              | Some rc => bool_decide (tick rc > tick x)
              | None => false
              end).
  destruct (search_loop_partition p
              (fun i => rc ← go_index (recorded v) i; Ok (bool_decide (tick rc > tick x)))
              (Z.to_nat (len - 0)) 0 len eq_refl ltac:(lia))
    as (r & Hr & Hb & Hlo & Hhi).
  { intros k Hk. unfold go_index, p. rewrite decide_True by lia.
    destruct (lookup_lt_is_Some_2 (recorded v) (Z.to_nat k) ltac:(lia)) as [rc Hrc].
    by rewrite Hrc. }
  { intros k k' Hk Hk'. unfold p.
    destruct (lookup_lt_is_Some_2 (recorded v) (Z.to_nat k) ltac:(lia)) as [a Ha].
    destruct (lookup_lt_is_Some_2 (recorded v) (Z.to_nat k') ltac:(lia)) as [b Hb'].
    rewrite Ha, Hb', !bool_decide_eq_true. intros Hgt.
    destruct (decide (k = k')) as [->|Hne]; [congruence|].
    pose proof (tickOrdered_lookup_lt _ (Z.to_nat k) (Z.to_nat k') a b Hv Ha Hb' ltac:(lia)).
    lia. }
  unfold sort_Search. rewrite Hr. simpl.
  assert (Hfilter : filter (fun rc => tick x < tick rc) (recorded v)
                    = drop (Z.to_nat r) (recorded v)).
  { apply filter_drop_partition.
    - intros k rc Hk Hlt.
      pose proof (lookup_lt_Some _ _ _ Hk).
      specialize (Hlo (Z.of_nat k) ltac:(lia)). unfold p in Hlo.
      rewrite Nat2Z.id, Hk in Hlo. apply bool_decide_eq_false in Hlo. lia.
    - intros k rc Hk Hle.
      pose proof (lookup_lt_Some _ _ _ Hk).
      specialize (Hhi (Z.of_nat k) ltac:(lia)). unfold p in Hhi.
      rewrite Nat2Z.id, Hk in Hhi. apply bool_decide_eq_true in Hhi. lia. }
  destruct (decide (r < len)) as [Hrl|Hrl].
  - rewrite go_slice_Ok by lia. simpl. eexists. split; [reflexivity|].
    rewrite recorded_newSubset, Hfilter.
    apply take_ge. rewrite length_drop. lia.
  - simpl. eexists. split; [reflexivity|].
    rewrite recorded_newSubset, Hfilter. symmetry. apply drop_ge. lia.
Qed.

(** ** The effect of the operations on the recorded-call logs *)

Ltac unfold_M :=
  unfold mbind, M_bind, mret, M_ret, get, liftO, Fatalf, nilDereference,
    setCall, alloc, newRecordedCall in *; simpl in *.

Lemma logs_insert_same h call (c c' : @MethodCall value rtype) :
  h !! call = Some c -> logOf c' = logOf c ->
  logOf <$> <[call := c']> h = logOf <$> h.
Proof.
  intros Hc Hlog. rewrite list_fmap_insert. apply list_insert_id.
  rewrite list_lookup_fmap, Hc. simpl. congruence.
Qed.

Lemma logs_insert_insert h call (c1 c2 : @MethodCall value rtype) :
  logOf c2 = logOf c1 ->
  logOf <$> <[call := c2]> (<[call := c1]> h) = logOf <$> <[call := c1]> h.
Proof.
  intros Hlog. rewrite list_insert_insert_eq, !list_fmap_insert. by rewrite Hlog.
Qed.

Lemma stub_spy_method_ w (s s' : @stubbedMethodCall value rtype) res :
  stub_spy w s = Ok (res, s') -> method_ s' = method_ s /\ matcher s' = matcher s.
Proof.
  unfold stub_spy. intros Hs.
  destruct (returns s); simpl in Hs.
  - destruct (Receive r). by injection Hs as _ <-.
  - destruct (lookupDouble w (method_ s).1); simpl in Hs; try done.
    destruct (lookupMethod w (method_ s)); simpl in Hs; try done.
    destruct (Receive _). by injection Hs as _ <-.
Qed.

(** [spy] keeps the doubles; it leaves the logs as they are, or appends one
    recorded call with the incremented tick to the log of the call. *)
Lemma spy_effect call args_ w :
  doubles (spy call args_ w).2 = doubles w /\
  length (heap (spy call args_ w).2) = length (heap w) /\
  ((w_tick (spy call args_ w).2 = w_tick w /\ logs (spy call args_ w).2 = logs w) \/
   (w_tick (spy call args_ w).2 = uint64_incr (w_tick w) /\
    exists l, logs w !! call = Some l /\
      logs (spy call args_ w).2 =
        <[call := l ++ [{| tick := uint64_incr (w_tick w); args := args_ |}]]> (logs w))).
Proof.
  unfold spy, logs. unfold_M.
  destruct (heap w !! call) as [[c|c|c|c]|] eqn:Hcall; simpl.
  - destruct (stub_spy w c) as [[res c']| |] eqn:Hs; simpl;
      (split; [done|]); rewrite ?length_insert; (split; [done|]); left; (split; [done|]);
      [|done|done].
    by apply (logs_insert_same _ _ (StubCall c)).
  - destruct (stub_spy w _) as [[res s']| |] eqn:Hs; simpl;
      (split; [done|]); rewrite ?length_insert; (split; [done|]); left; (split; [done|]).
    + rewrite logs_insert_insert by done. by apply (logs_insert_same _ _ (MockCall c)).
    + by apply (logs_insert_same _ _ (MockCall c)).
    + by apply (logs_insert_same _ _ (MockCall c)).
  - assert (Hl : (logOf <$> heap w) !! call = Some (recorded c))
      by (by rewrite list_lookup_fmap, Hcall).
    destruct (stub_spy _ _) as [[res s']| |] eqn:Hs; simpl;
      (split; [done|]); rewrite ?length_insert; (split; [done|]); right; (split; [done|]);
      exists (recorded c); (split; [done|]).
    + rewrite logs_insert_insert by done. by rewrite list_fmap_insert.
    + by rewrite list_fmap_insert.
    + by rewrite list_fmap_insert.
  - assert (Hl : (logOf <$> heap w) !! call = Some (recorded (fake_spy c)))
      by (by rewrite list_lookup_fmap, Hcall).
    destruct (fake_call _ _) as [res| |] eqn:Hs; simpl;
      (split; [done|]); rewrite ?length_insert; (split; [done|]); right; (split; [done|]);
      exists (recorded (fake_spy c)); (split; [done|]);
      by rewrite list_fmap_insert.
  - split; [done|]. split; [done|]. by left.
Qed.

Lemma made_log td mr meth mc (c : @MethodCall value rtype) :
  made td mr meth mc = Ok c -> logOf c = [].
Proof.
  destruct mc; simpl; intros Hc; try (by injection Hc as <-).
  unfold newFakeMethodCall in Hc. destruct (TypeOf impl0); simpl in Hc; [|done].
  destruct (AssertMethodInputs _ _); simpl in Hc; try done.
  destruct (AssertMethodOutputs _ _); simpl in Hc; try done.
  by injection Hc as <-.
Qed.

Lemma addMethodCall_effect mr call w :
  w_tick (addMethodCall mr call w).2 = w_tick w /\
  heap (addMethodCall mr call w).2 = heap w.
Proof.
  unfold addMethodCall. destruct (doubles w !! mr.1); [|done].
  by destruct (methods _ !! mr.2).
Qed.

Lemma logs_alloc_fresh w (c : @MethodCall value rtype) :
  logOf c = [] -> logOf <$> (heap w ++ [c]) = logs w ++ replicate 1 [].
Proof. intros Hc. unfold logs. by rewrite fmap_app; simpl; rewrite Hc. Qed.

(** [method.match] keeps the tick and the logs; a default it makes has an
    empty log. *)
Lemma method_match_effect mr args_ w :
  w_tick (method_match mr args_ w).2 = w_tick w /\
  exists k, logs (method_match mr args_ w).2 = logs w ++ replicate k [].
Proof.
  assert (Hsame : w_tick w = w_tick w /\
                  exists k, logs w = logs w ++ replicate k []).
  { split; [done|]. exists 0%nat. simpl. by rewrite app_nil_r. }
  unfold method_match. unfold_M.
  destruct (lookupDouble w mr.1) as [td| |]; simpl; try apply Hsame.
  destruct (lookupMethod w mr) as [meth| |]; simpl; try apply Hsame.
  destruct (firstMatch _ _ _) as [[possible|]| |]; simpl; try apply Hsame.
  destruct (defaultCall td mr) as [mc|]; simpl; try apply Hsame.
  destruct (made td mr meth mc) as [c| |] eqn:Hmade; simpl; try apply Hsame.
  apply made_log in Hmade.
  match goal with |- context [matches_at ?a ?b ?c] =>
    destruct (matches_at a b c) as [b'| |] end; simpl.
  - destruct b'; simpl.
    + match goal with |- context [addMethodCall ?a ?b ?c] =>
        destruct (addMethodCall_effect a b c) as [Ht Hh];
        destruct (addMethodCall a b c) as [[[]| |] w2] end; simpl in *;
        unfold logs; rewrite Ht, Hh; (split; [done|]); exists 1%nat;
        by apply logs_alloc_fresh.
    + split; [done|]. exists 1%nat. by apply logs_alloc_fresh.
  - split; [done|]. exists 1%nat. by apply logs_alloc_fresh.
  - split; [done|]. exists 1%nat. by apply logs_alloc_fresh.
Qed.

Lemma method_invoke_effect mr args_ w :
  logEffect w (method_invoke mr args_ w).2.
Proof.
  unfold method_invoke. unfold mbind at 1. unfold M_bind.
  destruct (method_match_effect mr args_ w) as [Ht [k Hk]].
  destruct (method_match mr args_ w) as [[matched| |] w1]; simpl in *;
    try (exists k; left; by split).
  unfold mbind at 1. unfold M_bind.
  destruct (spy_effect matched args_ w1) as (_ & _ & Hs).
  assert (Hrest : logEffect w (spy matched args_ w1).2).
  { exists k. simpl. destruct Hs as [[Ht2 Hl2]|[Ht2 (l & Hl & Hl2)]].
    - left. split; congruence.
    - right. split; [congruence|]. exists matched, l, args_.
      rewrite <- Hk. split; [done|]. by rewrite Ht2. }
  destruct (spy matched args_ w1) as [[[returns_|err]| |] w2]; simpl in *; try done.
  unfold_M. destruct (lookupMethod w2 mr); simpl; try done.
  by destruct (AssertMethodReturnValues _ _).
Qed.

Lemma logEffect_same (w w' : @world value rtype) :
  w_tick w' = w_tick w -> logs w' = logs w -> logEffect w w'.
Proof. intros Ht Hl. exists 0%nat. left. simpl. by rewrite app_nil_r. Qed.

Lemma logEffect_refl (w : @world value rtype) : logEffect w w.
Proof. by apply logEffect_same. Qed.

Lemma logEffect_fresh (w w' : @world value rtype) :
  w_tick w' = w_tick w -> logs w' = logs w ++ replicate 1 [] -> logEffect w w'.
Proof. intros Ht Hl. exists 1%nat. left. by split. Qed.

Lemma TestDouble_Invoke_effect d name args_ w :
  logEffect w (TestDouble_Invoke d name args_ w).2.
Proof.
  unfold TestDouble_Invoke. unfold_M.
  destruct (found w d name) as [[]| |]; simpl; try apply logEffect_refl.
  apply method_invoke_effect.
Qed.

Lemma logOf_withStub (c : @MethodCall value rtype) s : logOf (withStub c s) = logOf c.
Proof. by destruct c. Qed.

Lemma register_effect mr (c : @MethodCall value rtype) w :
  logOf c = [] ->
  logEffect w
    ((stub ← alloc c; _ ← addMethodCall mr stub; mret stub) w).2.
Proof.
  intros Hc. unfold_M.
  match goal with |- context [addMethodCall ?a ?b ?c] =>
    destruct (addMethodCall_effect a b c) as [Ht Hh];
    destruct (addMethodCall a b c) as [[[]| |] w2] end; simpl in *;
    apply logEffect_fresh; unfold logs; rewrite ?Ht, ?Hh; try done;
    by apply logs_alloc_fresh.
Qed.

Lemma run_op_effect (o : @op value rtype) w : logEffect w (run_op o w).
Proof.
  destruct o; simpl.
  - by apply logEffect_same.
  - unfold TestDouble_Stub. unfold mbind at 1 2. unfold M_bind, get, liftO.
    destruct (found w d methodName) as [[]| |]; simpl; try apply logEffect_refl.
    by apply register_effect.
  - unfold TestDouble_Mock. unfold mbind at 1 2. unfold M_bind, get, liftO.
    destruct (found w d methodName) as [[]| |]; simpl; try apply logEffect_refl.
    by apply register_effect.
  - unfold TestDouble_Spy. unfold mbind at 1 2 3 4. unfold M_bind, get, liftO.
    destruct (found w d methodName) as [[]| |]; simpl; try apply logEffect_refl.
    destruct (lookupDouble w d); simpl; try apply logEffect_refl.
    destruct (lookupMethod w _); simpl; try apply logEffect_refl.
    destruct (firstSpy _ _); simpl; try apply logEffect_refl.
    by apply register_effect.
  - unfold TestDouble_Fake. unfold mbind at 1 2 3 4. unfold M_bind, get, liftO.
    destruct (found w d methodName) as [[]| |]; simpl; try apply logEffect_refl.
    destruct (lookupDouble w d) as [td| |]; simpl; try apply logEffect_refl.
    destruct (lookupMethod w _) as [meth| |]; simpl; try apply logEffect_refl.
    destruct (firstSpy _ _); simpl; try apply logEffect_refl.
    unfold mbind at 1. unfold M_bind.
    destruct (newFakeMethodCall _ _ _ _) as [c| |] eqn:Hc; simpl; try apply logEffect_refl.
    apply register_effect.
    apply (made_log td (d, methodName) meth (MadeFake impl0)). simpl.
    by rewrite Hc.
  - unfold Returning. unfold_M.
    destruct (heap w !! call) as [c|] eqn:Hcall; simpl; try apply logEffect_refl.
    destruct (lookupDouble w _); simpl; try apply logEffect_refl.
    destruct (lookupMethod w _); simpl; try apply logEffect_refl.
    destruct (d_returns _ _ _ _); simpl; try apply logEffect_refl.
    apply logEffect_same; [done|]. unfold logs; simpl.
    apply (logs_insert_same _ _ c); [done|]. apply logOf_withStub.
  - unfold Matching. unfold_M.
    destruct (heap w !! call) as [[c|c|c|c]|] eqn:Hcall; simpl; try apply logEffect_refl.
    all: destruct (lookupDouble w _); simpl; try apply logEffect_refl.
    all: destruct (lookupMethod w _); simpl; try apply logEffect_refl.
    all: destruct (d_matcher _ _ _ _); simpl; try apply logEffect_refl.
    all: apply logEffect_same; [done|]; unfold logs; simpl.
    + by apply (logs_insert_same _ _ (StubCall c)).
    + by apply (logs_insert_same _ _ (MockCall c)).
  - unfold After. unfold_M.
    destruct (heap w !! call) as [[c|c|c|c]|] eqn:Hcall; simpl; try apply logEffect_refl.
    apply logEffect_same; [done|]; unfold logs; simpl.
    by apply (logs_insert_same _ _ (MockCall c)).
  - unfold Expect. unfold_M.
    destruct (heap w !! call) as [[c|c|c|c]|] eqn:Hcall; simpl; try apply logEffect_refl.
    apply logEffect_same; [done|]; unfold logs; simpl.
    by apply (logs_insert_same _ _ (MockCall c)).
  - apply TestDouble_Invoke_effect.
Qed.

Lemma uint64_incr_no_wrap (t : Z) :
  0 <= t < uint64_modulus - 1 -> uint64_incr t = t + 1.
Proof. intros Ht. unfold uint64_incr. apply Z.mod_small. lia. Qed.

(** The invariant of the logs is kept by every operation, as long as the
    global tick does not wrap around. *)
Lemma logEffect_ticksInv (w w' : @world value rtype) :
  logEffect w w' -> ticksInv w -> w_tick w < uint64_modulus - 1 ->
  ticksInv w' /\ w_tick w' <= w_tick w + 1.
Proof.
  intros [k Heff] [Hpos Hinv] Hbound. simpl in Heff.
  assert (HL : Forall (fun l => tickOrdered l /\
                         Forall (fun rc : @recordedCall value => tick rc <= w_tick w) l)
                 (logs w ++ replicate k [])).
  { apply Forall_app. split; [done|]. apply Forall_replicate.
    split; [constructor|constructor]. }
  destruct Heff as [[Ht Hl]|[Ht (call & l & a & Hcall & Hl)]].
  - split; [|lia]. split; [lia|]. by rewrite Hl, Ht.
  - rewrite uint64_incr_no_wrap in Ht by lia. split; [|lia].
    split; [lia|]. rewrite Hl. apply Forall_insert.
    + eapply Forall_impl; [exact HL|]. intros l' [Hs Hall]. split; [done|].
      eapply Forall_impl; [exact Hall|]. simpl. intros; lia.
    + rewrite Forall_lookup in HL. destruct (HL _ _ Hcall) as [Hs Hall]. split.
      * apply tickOrdered_snoc. split; [done|].
        eapply Forall_impl; [exact Hall|]. simpl. intros; lia.
      * apply Forall_app. split.
        -- eapply Forall_impl; [exact Hall|]. simpl. intros; lia.
        -- repeat constructor. simpl. lia.
Qed.

Lemma ticksInv_initial : ticksInv (@initial value rtype).
Proof. split; [done|]. constructor. Qed.

Lemma run_snoc (ops : list (@op value rtype)) o w :
  run (ops ++ [o]) w = run_op o (run ops w).
Proof. unfold run. by rewrite foldl_app. Qed.

(** After fewer than 2^64 operations from the initial world, the logs are
    in strictly increasing tick order. *)
Lemma run_ticksInv (ops : list (@op value rtype)) :
  Z.of_nat (length ops) < uint64_modulus ->
  ticksInv (run ops initial) /\ w_tick (run ops initial) <= Z.of_nat (length ops).
Proof.
  induction ops as [|o ops IH] using rev_ind; intros Hlen.
  - split; [apply ticksInv_initial|done].
  - rewrite length_app in Hlen. simpl in Hlen.
    destruct IH as [Hinv Hle]; [lia|].
    rewrite run_snoc, length_app. simpl.
    destruct (logEffect_ticksInv _ _ (run_op_effect o (run ops initial)) Hinv)
      as [Hinv' Hle']; [lia|].
    split; [done|lia].
Qed.

(** ** Views are order-preserving sub-sequences of a log *)

Lemma matchingCalls_sublist (mt : @Matcher value) (l sub : list (@recordedCall value)) :
  matchingCalls mt l = Ok sub -> sub `sublist_of` l.
Proof.
  revert sub. induction l as [|call l IH]; intros sub; simpl.
  - by intros [= <-].
  - destruct (Matches mt (args call)) as [b| |]; simpl; try done.
    destruct (matchingCalls mt l) as [sub'| |]; simpl; try done.
    intros [= <-]. destruct b; [apply sublist_skip|apply sublist_cons]; by apply IH.
Qed.

Lemma go_slice_sublist {A} (s sub : list A) (from to : Z) :
  go_slice s from to = Ok sub -> sub `sublist_of` s.
Proof.
  unfold go_slice. case_decide; [|done]. intros [= <-].
  etrans; [apply sublist_take|apply sublist_drop].
Qed.

Lemma spy_Matching_sublist td v matchers v' :
  spy_Matching td v matchers = Ok v' -> recorded v' `sublist_of` recorded v.
Proof.
  unfold spy_Matching. destruct (methods td !! _); [|done].
  destruct (d_matcher _ _ _ _) as [mt| |]; simpl; try done.
  destruct (matchingCalls mt (recorded v)) as [sub| |] eqn:Hsub; simpl; try done.
  intros [= <-]. by apply (matchingCalls_sublist mt).
Qed.

Lemma spy_Slice_sublist td v from to v' :
  spy_Slice td v from to = Ok v' -> recorded v' `sublist_of` recorded v.
Proof.
  unfold spy_Slice. case_decide; [done|].
  case_decide; simpl.
  - intros [= <-]. apply sublist_nil_l.
  - case_decide; simpl;
      (destruct (go_slice _ _ _) as [sub| |] eqn:Hsub; simpl; try done;
       intros [= <-]; by apply go_slice_sublist in Hsub).
Qed.

Lemma spy_After_sublist td v u v' :
  spy_After td v u = Ok v' -> recorded v' `sublist_of` recorded v.
Proof.
  unfold spy_After. case_decide; simpl.
  - destruct (go_index _ _) as [last| |]; simpl; try done.
    destruct (sort_Search _ _) as [partitionIndex| |]; simpl; try done.
    case_decide; simpl.
    + destruct (go_slice _ _ _) as [sub| |] eqn:Hsub; simpl; try done.
      intros [= <-]. by apply go_slice_sublist in Hsub.
    + intros [= <-]. apply sublist_nil_l.
  - by intros [= <-].
Qed.

Lemma viewOf_sublist w v :
  viewOf w v ->
  exists call obj, heap w !! call = Some obj /\ is_Some (recordedCallsOf obj) /\
    recorded v `sublist_of` logOf obj.
Proof.
  induction 1 as [call obj v Hc Hv|td v ms v' _ IH Hm|td v from to v' _ IH Hs
                  |td v u v' _ IH _ _ Ha].
  - exists call, obj. split; [done|]. split; [by eexists|]. unfold logOf. by rewrite Hv.
  - destruct IH as (call & obj & Hc & Hspy & Hsub). exists call, obj.
    split; [done|]. split; [done|]. etrans; [|exact Hsub].
    by eapply spy_Matching_sublist.
  - destruct IH as (call & obj & Hc & Hspy & Hsub). exists call, obj.
    split; [done|]. split; [done|]. etrans; [|exact Hsub].
    by eapply spy_Slice_sublist.
  - destruct IH as (call & obj & Hc & Hspy & Hsub). exists call, obj.
    split; [done|]. split; [done|]. etrans; [|exact Hsub].
    by eapply spy_After_sublist.
Qed.

Lemma viewOf_tickOrdered w v : ticksInv w -> viewOf w v -> tickOrdered (recorded v).
Proof.
  intros [_ Hinv] Hv.
  destruct (viewOf_sublist w v Hv) as (call & obj & Hc & _ & Hsub).
  apply (tickOrdered_sublist _ _ Hsub).
  unfold logs in Hinv. rewrite Forall_lookup in Hinv.
  apply (Hinv call). by rewrite list_lookup_fmap, Hc.
Qed.

(** C9: in a world reached by fewer than 2^64 operations (so that the
    64-bit tick has not wrapped around), every spy and fake registration
    and every view derived from one by [Matching], [Slice] or [After] has
    its recorded calls in strictly increasing tick order; the view is a
    sub-sequence, in the same order, of the log of a registration; and any
    further operation only appends to the logs: at most one recorded call,
    stamped with the incremented tick. *)
Theorem views_tick_ordered (ops : list (@op value rtype)) w v :
  Z.of_nat (length ops) < uint64_modulus ->
  w = run ops initial ->
  viewOf w v ->
  tickOrdered (recorded v) /\
  (exists call obj parent,
     heap w !! call = Some obj /\ recordedCallsOf obj = Some parent /\
     tickOrdered (recorded parent) /\
     recorded v `sublist_of` recorded parent) /\
  (forall o, logEffect w (run_op o w)).
Proof.
  intros Hlen -> Hv.
  destruct (run_ticksInv ops Hlen) as [Hinv _].
  split; [by eapply viewOf_tickOrdered|]. split; [|intros o; apply run_op_effect].
  destruct (viewOf_sublist _ v Hv) as (call & obj & Hc & [parent Hp] & Hsub).
  exists call, obj, parent. split; [done|]. split; [done|].
  unfold logOf in Hsub. rewrite Hp in Hsub. split; [|done].
  eapply viewOf_tickOrdered; [exact Hinv|]. by eapply view_registered.
Qed.

(** C3: for views [v] and [u] of one world (reached by fewer than 2^64
    operations), [v.After(u)] returns the view of exactly the calls of [v]
    whose tick is strictly above the largest tick in [u], and of every call
    of [v] when [u] is empty. *)
Theorem After_exceeds_max (ops : list (@op value rtype)) w td v u :
  Z.of_nat (length ops) < uint64_modulus ->
  w = run ops initial ->
  viewOf w v -> viewOf w u ->
  exists v', spy_After td v u = Ok v' /\
    (forall t, maxTick (recorded u) = Some t ->
       recorded v' = filter (fun rc => t < tick rc) (recorded v)) /\
    (recorded u = [] -> recorded v' = recorded v).
Proof.
  intros Hlen -> Hv Hu.
  destruct (run_ticksInv ops Hlen) as [Hinv _].
  destruct (spy_After_ordered td v u) as (v' & Hv' & Hrec).
  - by eapply viewOf_tickOrdered.
  - by eapply viewOf_tickOrdered.
  - exists v'. split; [done|]. split.
    + intros t Ht. by rewrite Hrec, Ht.
    + intros Hnil. by rewrite Hrec, Hnil.
Qed.

(** ** Registration: [Spy] and [Fake] *)

Lemma found_true w d name :
  found w d name = Ok true ->
  exists td meth, doubles w !! d = Some td /\ methods td !! name = Some meth.
Proof.
  unfold found, lookupDouble. destruct (doubles w !! d) as [td|]; simpl; [|done].
  intros [= Hf]. apply bool_decide_eq_true in Hf as [meth Hm]. by exists td, meth.
Qed.

Lemma lookups_found w d name td meth :
  doubles w !! d = Some td -> methods td !! name = Some meth ->
  found w d name = Ok true /\ lookupDouble w d = Ok td /\
  lookupMethod w (d, name) = Ok meth.
Proof.
  intros Hd Hm. unfold found, lookupMethod, lookupDouble. simpl. rewrite Hd. simpl.
  rewrite Hm. split; [|done]. f_equal; apply bool_decide_eq_true; by eexists.
Qed.

(** Appending a registration to a method that is there. *)
Lemma addMethodCall_found w d name td meth call :
  doubles w !! d = Some td -> methods td !! name = Some meth ->
  exists td',
    addMethodCall (d, name) call w =
      (Ok (), {| w_tick := w_tick w; heap := heap w;
                 doubles := <[d := td']> (doubles w) |}) /\
    <[d := td']> (doubles w) !! d = Some td' /\
    methods td' !! name = Some {| calls := calls meth ++ [call]; m := m meth |}.
Proof.
  intros Hd Hm. unfold addMethodCall. simpl. rewrite Hd, Hm.
  eexists. split; [reflexivity|]. split.
  - apply list_lookup_insert_eq. by eapply lookup_lt_Some.
  - simpl. apply lookup_insert_eq.
Qed.

Lemma firstSpy_Some h calls_ call :
  firstSpy h calls_ = Some call -> isSpyMethodCall h call = true /\ call ∈ calls_.
Proof.
  induction calls_ as [|x calls_ IH]; simpl; [done|].
  destruct (isSpyMethodCall h x) eqn:Hx.
  - intros [= <-]. split; [done|]. apply elem_of_cons. by left.
  - intros Hf. destruct (IH Hf). split; [done|]. apply elem_of_cons. by right.
Qed.

(** A new registration that is a spy or a fake is the first one of its
    method when there was none before. *)
Lemma firstSpy_registered h calls_ (obj : @MethodCall value rtype) :
  firstSpy h calls_ = None -> is_Some (recordedCallsOf obj) ->
  firstSpy (h ++ [obj]) (calls_ ++ [length h]) = Some (length h).
Proof.
  intros Hnone Hobj.
  assert (Hnew : isSpyMethodCall (h ++ [obj]) (length h) = true).
  { unfold isSpyMethodCall. rewrite list_lookup_middle by done.
    destruct obj; try done; by destruct Hobj. }
  induction calls_ as [|x calls_ IH]; simpl in *.
  - by rewrite Hnew.
  - destruct (isSpyMethodCall h x) eqn:Hx; [done|].
    destruct (isSpyMethodCall (h ++ [obj]) x) eqn:Hx'; [|by apply IH].
    f_equal. unfold isSpyMethodCall in Hx, Hx'.
    destruct (decide (x < length h)%nat) as [Hlt|Hge].
    + rewrite lookup_app_l in Hx' by done. by rewrite Hx' in Hx.
    + destruct (decide (x = length h)) as [->|Hne]; [done|].
      rewrite lookup_ge_None_2 in Hx'; [done|]. rewrite length_app. simpl. lia.
Qed.

(** Once a method has a first spy or fake registration, [Spy] returns it
    and changes nothing, and [Fake] fails. *)
Lemma Spy_Fake_with_spy w d name td meth call :
  doubles w !! d = Some td -> methods td !! name = Some meth ->
  firstSpy (heap w) (calls meth) = Some call ->
  TestDouble_Spy d name w = (Ok call, w) /\
  forall impl_,
    TestDouble_Fake d name impl_ w =
      (Fatal "unreachable fake for a method which has previously registered a spy", w).
Proof.
  intros Hd Hm Hfirst.
  destruct (lookups_found w d name td meth Hd Hm) as (Hf & Hld & Hlm).
  unfold TestDouble_Spy, TestDouble_Fake. unfold_M.
  rewrite Hf. simpl. rewrite Hld. simpl. rewrite Hlm. simpl. by rewrite Hfirst.
Qed.

(** Registering a spy or a fake on a method without one makes it the first
    spy registration of the method. *)
Lemma register_spy w d name td meth (obj : @MethodCall value rtype) :
  doubles w !! d = Some td -> methods td !! name = Some meth ->
  firstSpy (heap w) (calls meth) = None -> is_Some (recordedCallsOf obj) ->
  exists w1 td1 meth1,
    (call ← alloc obj; _ ← addMethodCall (d, name) call; mret call) w
      = (Ok (length (heap w)), w1) /\
    heap w1 = heap w ++ [obj] /\
    doubles w1 !! d = Some td1 /\ methods td1 !! name = Some meth1 /\
    firstSpy (heap w1) (calls meth1) = Some (length (heap w)).
Proof.
  intros Hd Hm Hnone Hobj. unfold_M.
  destruct (addMethodCall_found
              {| w_tick := w_tick w; heap := heap w ++ [obj]; doubles := doubles w |}
              d name td meth (length (heap w)) Hd Hm) as (td' & Hadd & Hd' & Hm').
  simpl in *. rewrite Hadd. simpl.
  eexists _, td', _. split; [reflexivity|]. split; [done|].
  split; [exact Hd'|]. split; [exact Hm'|]. simpl.
  by apply firstSpy_registered.
Qed.

(** [Spy] on a double that has the method: the result is the first spy
    registration of the method in the world it leaves. *)
Lemma Spy_found w d name :
  found w d name = Ok true ->
  exists spy1 w1 td1 meth1,
    TestDouble_Spy d name w = (Ok spy1, w1) /\
    doubles w1 !! d = Some td1 /\ methods td1 !! name = Some meth1 /\
    firstSpy (heap w1) (calls meth1) = Some spy1.
Proof.
  intros Hfound.
  destruct (found_true _ _ _ Hfound) as (td & meth & Hd & Hm).
  destruct (lookups_found w d name td meth Hd Hm) as (_ & Hld & Hlm).
  destruct (firstSpy (heap w) (calls meth)) as [call|] eqn:Hfirst.
  - exists call, w, td, meth. split; [|done].
    by apply (Spy_Fake_with_spy w d name td meth).
  - set (obj := @SpyCall value rtype
                  (newSpyMethodCall (method_String td name) (d, name) [])).
    destruct (register_spy w d name td meth obj Hd Hm Hfirst)
      as (w1 & td1 & meth1 & Hreg & Hheap & Hd1 & Hm1 & Hf1); [by eexists|].
    exists (length (heap w)), w1, td1, meth1. split; [|done].
    unfold TestDouble_Spy. unfold mbind at 1 2 3 4. unfold M_bind at 1 2 3 4.
    unfold get, liftO. rewrite Hfound, Hld. simpl. rewrite Hlm. simpl.
    rewrite Hfirst. exact Hreg.
Qed.

Lemma Spy_Ok_found w d name call w1 :
  TestDouble_Spy d name w = (Ok call, w1) -> found w d name = Ok true.
Proof.
  unfold TestDouble_Spy. unfold_M.
  by destruct (found w d name) as [[]| |].
Qed.

Lemma Fake_Ok w d name impl_ fake w1 :
  TestDouble_Fake d name impl_ w = (Ok fake, w1) ->
  exists td meth fc td1 meth1,
    doubles w !! d = Some td /\ methods td !! name = Some meth /\
    firstSpy (heap w) (calls meth) = None /\
    fake = length (heap w) /\ heap w1 = heap w ++ [FakeCall fc] /\
    recorded (fake_spy fc) = [] /\
    doubles w1 !! d = Some td1 /\ methods td1 !! name = Some meth1 /\
    calls meth1 = calls meth ++ [fake] /\
    firstSpy (heap w1) (calls meth1) = Some fake.
Proof.
  intros HF.
  assert (Hfound : found w d name = Ok true).
  { revert HF. unfold TestDouble_Fake. unfold_M.
    by destruct (found w d name) as [[]| |]. }
  destruct (found_true _ _ _ Hfound) as (td & meth & Hd & Hm).
  destruct (lookups_found w d name td meth Hd Hm) as (_ & Hld & Hlm).
  revert HF. unfold TestDouble_Fake.
  unfold mbind at 1 2 3 4. unfold M_bind at 1 2 3 4. unfold get, liftO.
  rewrite Hfound, Hld. simpl. rewrite Hlm. simpl.
  destruct (firstSpy (heap w) (calls meth)) as [call|] eqn:Hfirst; [done|].
  unfold mbind at 1. unfold M_bind at 1.
  destruct (newFakeMethodCall _ _ _ _) as [fc| |] eqn:Hc; simpl; try done.
  destruct (register_spy w d name td meth (FakeCall fc) Hd Hm Hfirst)
    as (w1' & td1 & meth1 & Hreg & Hheap & Hd1 & Hm1 & Hf1); [by eexists|].
  rewrite Hreg. intros [= <- <-].
  exists td, meth, fc, td1, meth1. repeat (split; [done|]).
  split.
  { apply (made_log td (d, name) meth (MadeFake impl_) (FakeCall fc)). simpl.
    by rewrite Hc. }
  split; [done|]. split; [done|]. split; [|done].
  revert Hreg Hm1. unfold_M.
  destruct (addMethodCall_found
              {| w_tick := w_tick w; heap := heap w ++ [FakeCall fc]; doubles := doubles w |}
              d name td meth (length (heap w)) Hd Hm) as (td' & Hadd & Hd' & Hm').
  simpl in *. rewrite Hadd. simpl. intros [= <-]. simpl in Hd1.
  rewrite Hd' in Hd1. injection Hd1 as <-. rewrite Hm'. by intros [= <-].
Qed.

(** ** Matching and dispatch *)

Lemma firstMatch_spec h calls_ (args_ : list value) call :
  firstMatch h calls_ args_ = Ok (Some call) <->
  exists pre post, calls_ = pre ++ call :: post /\
    Forall (fun p => matches_at h p args_ = Ok false) pre /\
    matches_at h call args_ = Ok true.
Proof.
  induction calls_ as [|x calls_ IH]; simpl.
  - split; [done|]. intros (pre & post & Heq & _). by destruct pre.
  - split.
    + destruct (matches_at h x args_) as [[]| |] eqn:Hx; simpl; try done.
      * intros [= <-]. exists [], calls_. by repeat split.
      * intros Hf. apply IH in Hf as (pre & post & -> & Hpre & Hcall).
        exists (x :: pre), post. split; [done|]. split; [by constructor|done].
    + intros (pre & post & Heq & Hpre & Hcall). destruct pre as [|y pre]; simpl in Heq.
      * injection Heq as -> ->. by rewrite Hcall.
      * injection Heq as -> ->. apply Forall_cons in Hpre as [Hy Hpre].
        rewrite Hy. simpl. apply IH. by exists pre, post.
Qed.

Lemma firstMatch_skip h pre call post (args_ : list value) :
  matches_at h call args_ = Ok false ->
  firstMatch h (pre ++ call :: post) args_ = firstMatch h (pre ++ post) args_.
Proof.
  intros Hcall. induction pre as [|x pre IH]; simpl.
  - by rewrite Hcall.
  - destruct (matches_at h x args_) as [[]| |]; simpl; done.
Qed.

Lemma inSequence_loop_spec h (after_ : list nat) :
  inSequence_loop h after_ = Ok true <->
  Forall (fun call => complete_at h call = Ok true) after_.
Proof.
  induction after_ as [|call rest IH]; simpl.
  - split; [constructor|done].
  - rewrite Forall_cons, <- IH.
    destruct (complete_at h call) as [[]| |]; simpl; intuition congruence.
Qed.

Lemma mock_matches_iff h (mc : @mockedMethodCall value rtype) (args_ : list value) :
  mock_matches h mc args_ = Ok true <->
  stub_matches (mock_stub mc) args_ = Ok true /\ complete mc = false /\
  Forall (fun call => complete_at h call = Ok true) (after mc).
Proof.
  unfold mock_matches, inSequence. rewrite <- inSequence_loop_spec.
  destruct (stub_matches (mock_stub mc) args_) as [[]| |]; simpl;
    destruct (complete mc); simpl; intuition congruence.
Qed.

Lemma complete_mock_no_match h (mc : @mockedMethodCall value rtype) call (args_ : list value) :
  h !! call = Some (MockCall mc) -> complete mc = true ->
  matches_at h call args_ <> Ok true.
Proof.
  intros Hc Hcomplete. unfold matches_at. rewrite Hc. simpl.
  intros Hm. apply mock_matches_iff in Hm as (_ & Hm & _). congruence.
Qed.

(** [spy] touches the call object it is given and no other. *)
Lemma spy_frame call (args_ : list value) w x :
  x <> call -> heap (spy call args_ w).2 !! x = heap w !! x.
Proof.
  intros Hne. unfold spy. unfold_M.
  destruct (heap w !! call) as [[c|mc|c|fc]|] eqn:Hcall; simpl; [| | | |done].
  - destruct (stub_spy w c) as [[res c']| |]; simpl; try done.
    by rewrite list_lookup_insert_ne.
  - destruct (stub_spy w _) as [[res s']| |]; simpl;
      by rewrite !list_lookup_insert_ne.
  - destruct (stub_spy w _) as [[res s']| |]; simpl;
      by rewrite !list_lookup_insert_ne.
  - destruct (fake_call _ _) as [res| |]; simpl;
      by rewrite !list_lookup_insert_ne.
Qed.

(** [spy] on a mock increments its count and keeps its expectation, its
    sequence and its matcher. *)
Lemma spy_mock call (args_ : list value) w (mc : @mockedMethodCall value rtype) :
  heap w !! call = Some (MockCall mc) ->
  exists mc1, heap (spy call args_ w).2 !! call = Some (MockCall mc1) /\
    count mc1 = int_incr (count mc) /\ expect mc1 = expect mc /\
    after mc1 = after mc /\ matcher (mock_stub mc1) = matcher (mock_stub mc).
Proof.
  intros Hcall. pose proof (lookup_lt_Some _ _ _ Hcall) as Hlt.
  unfold spy. unfold_M. rewrite Hcall. simpl.
  destruct (stub_spy w _) as [[res s']| |] eqn:Hs; simpl.
  - apply stub_spy_method_ in Hs as [_ Hmt]. simpl in Hmt.
    eexists. split; [apply list_lookup_insert_eq; by rewrite length_insert|done].
  - eexists. split; [by apply list_lookup_insert_eq|done].
  - eexists. split; [by apply list_lookup_insert_eq|done].
Qed.

(** [method.match]: the call objects that are there stay as they are, and
    a call it returns matches the arguments. *)
Lemma method_match_frame mr (args_ : list value) w x (obj : @MethodCall value rtype) :
  heap w !! x = Some obj -> heap (method_match mr args_ w).2 !! x = Some obj.
Proof.
  intros Hx. unfold method_match. unfold_M.
  destruct (lookupDouble w mr.1) as [td| |]; simpl; try done.
  destruct (lookupMethod w mr) as [meth| |]; simpl; try done.
  destruct (firstMatch _ _ _) as [[possible|]| |]; simpl; try done.
  destruct (defaultCall td mr) as [mc|]; simpl; try done.
  destruct (made td mr meth mc) as [c'| |]; simpl; try done.
  match goal with |- context [matches_at ?a ?b ?c] =>
    destruct (matches_at a b c) as [[]| |] end; simpl;
    try (by apply lookup_app_l_Some).
  match goal with |- context [addMethodCall ?a ?b ?c] =>
    destruct (addMethodCall_effect a b c) as [_ Hh];
    destruct (addMethodCall a b c) as [[[]| |] w2] end; simpl in *;
    rewrite Hh; by apply lookup_app_l_Some.
Qed.

Lemma method_match_Ok mr (args_ : list value) w call w1 :
  method_match mr args_ w = (Ok call, w1) ->
  matches_at (heap w1) call args_ = Ok true.
Proof.
  unfold method_match. unfold_M.
  destruct (lookupDouble w mr.1) as [td| |]; simpl; try done.
  destruct (lookupMethod w mr) as [meth| |]; simpl; try done.
  destruct (firstMatch _ _ _) as [[possible|]| |] eqn:Hfirst; simpl; try done.
  { intros [= <- <-]. by apply firstMatch_spec in Hfirst as (? & ? & _ & _ & ?). }
  destruct (defaultCall td mr) as [mc|]; simpl; try done.
  destruct (made td mr meth mc) as [c'| |]; simpl; try done.
  match goal with |- context [matches_at ?a ?b ?c] =>
    destruct (matches_at a b c) as [[]| |] eqn:Hb end; simpl; try done.
  match goal with |- context [addMethodCall ?a ?b ?c] =>
    destruct (addMethodCall_effect a b c) as [_ Hh];
    destruct (addMethodCall a b c) as [[[]| |] w2] end; simpl in *; try done.
  intros [= <- <-]. by rewrite Hh.
Qed.

Lemma method_match_found mr (args_ : list value) w td meth call :
  lookupDouble w mr.1 = Ok td -> lookupMethod w mr = Ok meth ->
  firstMatch (heap w) (calls meth) args_ = Ok (Some call) ->
  method_match mr args_ w = (Ok call, w).
Proof.
  intros Hd Hm Hf. unfold method_match. unfold_M.
  rewrite Hd. simpl. rewrite Hm. simpl. by rewrite Hf.
Qed.

(** The state after [method.invoke] is the state after [match] and [spy]. *)
Lemma method_invoke_state mr (args_ : list value) w :
  (method_invoke mr args_ w).2 =
    match method_match mr args_ w with
    | (Ok matched, w1) => (spy matched args_ w1).2
    | (_, w1) => w1
    end.
Proof.
  unfold method_invoke. unfold mbind at 1. unfold M_bind at 1.
  destruct (method_match mr args_ w) as [[matched| |] w1]; simpl; try done.
  unfold mbind at 1. unfold M_bind at 1.
  destruct (spy matched args_ w1) as [[[returns_|err]| |] w2]; simpl; try done.
  unfold_M. destruct (lookupMethod w2 mr); simpl; try done.
  by destruct (AssertMethodReturnValues _ _).
Qed.

Lemma TestDouble_Invoke_state d name (args_ : list value) w :
  (TestDouble_Invoke d name args_ w).2 = w \/
  (TestDouble_Invoke d name args_ w).2 = (method_invoke (d, name) args_ w).2.
Proof.
  unfold TestDouble_Invoke. unfold_M.
  destruct (found w d name) as [[]| |]; simpl; auto.
Qed.

(** A mock that is complete is not dispatched to: an invocation of any
    method leaves it as it is. *)
Lemma complete_mock_stays d name (args_ : list value) w call
    (mc : @mockedMethodCall value rtype) :
  heap w !! call = Some (MockCall mc) -> complete mc = true ->
  heap (TestDouble_Invoke d name args_ w).2 !! call = Some (MockCall mc).
Proof.
  intros Hcall Hcomplete.
  destruct (TestDouble_Invoke_state d name args_ w) as [->| ->]; [done|].
  rewrite method_invoke_state.
  pose proof (method_match_frame (d, name) args_ w call _ Hcall) as Hframe.
  destruct (method_match (d, name) args_ w) as [[matched| |] w1] eqn:Hmatch;
    simpl in *; try done.
  apply method_match_Ok in Hmatch.
  rewrite spy_frame; [done|]. intros ->.
  by eapply complete_mock_no_match.
Qed.

Lemma complete_mock_stays_run (invs : list (nat * string * list value)) w call
    (mc : @mockedMethodCall value rtype) :
  heap w !! call = Some (MockCall mc) -> complete mc = true ->
  heap (run (invocations invs) w) !! call = Some (MockCall mc).
Proof.
  intros Hcall Hcomplete. induction invs as [|[[d name] args_] invs IH] using rev_ind.
  - done.
  - unfold invocations. rewrite fmap_app. simpl. rewrite run_snoc. simpl.
    by apply complete_mock_stays.
Qed.

Lemma complete_spec (mc : @mockedMethodCall value rtype) :
  complete mc = true <->
  exists e, expect mc = Some e /\ Complete e (count mc) = Some true.
Proof.
  unfold complete. destruct (expect mc) as [e|].
  - destruct (Complete e (count mc)) as [[]|] eqn:Hc; split; try done.
    + intros _. by exists e.
    + intros (e' & [= <-] & ?). congruence.
    + intros (e' & [= <-] & ?). congruence.
  - split; [done|]. by intros (e & ? & _).
Qed.

Lemma stub_spy_returns w (c1 : @stubbedMethodCall value rtype) rv res rv' :
  returns c1 = Some rv -> Receive rv = (res, rv') ->
  stub_spy w c1 =
    Ok (res, {| method_ := method_ c1; returns := Some rv'; matcher := matcher c1 |}).
Proof. intros Hr Hrv. unfold stub_spy. rewrite Hr. simpl. by rewrite Hrv. Qed.

(** C2: [method.match] returns the first registration, in the order of
    registration, whose [matches(args)] is true, and leaves the world as it
    is; with two stubs [s1] registered before [s2] that both match, and no
    earlier registration that matches, the invocation returns what the
    return value source of [s1] gives. *)
Theorem first_match_wins w d methodName td meth (pre mid post : list nat)
    (s1 s2 : nat) (c1 c2 : @stubbedMethodCall value rtype) (args_ : list value)
    rv1 vals rv1' :
  doubles w !! d = Some td ->
  methods td !! methodName = Some meth ->
  (forall call,
     firstMatch (heap w) (calls meth) args_ = Ok (Some call) <->
     exists pre post, calls meth = pre ++ call :: post /\
       Forall (fun p => matches_at (heap w) p args_ = Ok false) pre /\
       matches_at (heap w) call args_ = Ok true) /\
  (forall call,
     firstMatch (heap w) (calls meth) args_ = Ok (Some call) ->
     method_match (d, methodName) args_ w = (Ok call, w)) /\
  (calls meth = pre ++ s1 :: mid ++ s2 :: post ->
   heap w !! s1 = Some (StubCall c1) -> heap w !! s2 = Some (StubCall c2) ->
   Forall (fun p => matches_at (heap w) p args_ = Ok false) pre ->
   stub_matches c1 args_ = Ok true -> stub_matches c2 args_ = Ok true ->
   returns c1 = Some rv1 -> Receive rv1 = (inl vals, rv1') ->
   AssertMethodReturnValues (m meth) vals = Ok () ->
   (TestDouble_Invoke d methodName args_ w).1 = Ok vals).
Proof.
  intros Hd Hm.
  destruct (lookups_found w d methodName td meth Hd Hm) as (Hf & Hld & Hlm).
  split; [intros call; apply firstMatch_spec|].
  split; [intros call; by apply (method_match_found (d, methodName) args_ w td meth)|].
  intros Hcalls Hs1 Hs2 Hpre Hm1 Hm2 Hr Hrv Hassert.
  assert (Hfirst : firstMatch (heap w) (calls meth) args_ = Ok (Some s1)).
  { apply firstMatch_spec. exists pre, (mid ++ s2 :: post). split; [done|].
    split; [done|]. unfold matches_at. by rewrite Hs1. }
  unfold TestDouble_Invoke. unfold mbind at 1 2. unfold M_bind at 1 2.
  unfold get, liftO. rewrite Hf.
  unfold method_invoke. unfold mbind at 1. unfold M_bind at 1.
  rewrite (method_match_found (d, methodName) args_ w td meth s1 Hld Hlm Hfirst).
  unfold mbind at 1. unfold M_bind at 1.
  unfold spy. unfold mbind at 1. unfold M_bind at 1. unfold get.
  rewrite Hs1. unfold mbind at 1. unfold M_bind at 1. unfold liftO at 1.
  rewrite (stub_spy_returns w c1 rv1 (inl vals) rv1' Hr Hrv).
  unfold_M. unfold lookupMethod, lookupDouble. simpl. rewrite Hd. simpl.
  rewrite Hm. simpl. by rewrite Hassert.
Qed.

(** ** Sequences of return value sources *)

Lemma Receive_sequential values rvChan :
  Receive (sequentialReturnValues values rvChan) =
    match relay (pendingOf values rvChan) with
    | (Some generatedReturns, pending) =>
        (inl generatedReturns, sequentialReturnValues values (Some pending))
    | (None, pending) =>
        (inr "no available values", sequentialReturnValues values (Some pending))
    end.
Proof.
  destruct rvChan as [pending|]; simpl.
  - change ((fix relay (l : list ReturnValues) := _) pending) with (relay pending).
    by destruct (relay pending) as [[?|] ?].
  - change ((fix relay (l : list ReturnValues) := _) values) with (relay values).
    by destruct (relay values) as [[?|] ?].
Qed.

Lemma exhaust_sequential values rvChan :
  exhaust (sequentialReturnValues values rvChan) =
    flat_map contribution (pendingOf values rvChan).
Proof.
  assert (Hs : forall l : list (@ReturnValues value rtype),
            (fix sources (l : list ReturnValues) : list (list value) :=
               match l with
               | [] => []
               | r :: rest =>
                   (if multiValued r then exhaust r
                    else match Receive r with
                         | (inl result, _) => [result]
                         | (inr _, _) => []
                         end) ++ sources rest
               end) l = flat_map contribution l).
  { induction l as [|r rest IH]; [done|]. simpl. by rewrite IH. }
  destruct rvChan as [pending|]; simpl; apply Hs.
Qed.

(** Induction on sources, with the sources of a sequence as sub-terms. *)
Lemma ReturnValues_nested_ind (P : @ReturnValues value rtype -> Prop) :
  (forall vals, P (fixedReturnValues vals)) ->
  (forall zv, P (reflectZeroReturnValues zv)) ->
  (forall q closed, P (returnChannel q closed)) ->
  (forall d, P d -> P (delayedReturnValues d)) ->
  (forall values rvChan,
     Forall P values -> Forall P (pendingOf values rvChan) ->
     P (sequentialReturnValues values rvChan)) ->
  forall rv, P rv.
Proof.
  intros Hfixed Hzero Hchan Hdelayed Hseq.
  fix IH 1. intros [v|zv|q closed|d|values rvChan].
  - apply Hfixed.
  - apply Hzero.
  - apply Hchan.
  - apply Hdelayed, IH.
  - assert (Hall : forall l : list (@ReturnValues value rtype), Forall P l).
    { fix IHl 1. intros [|r l]; [constructor|]. constructor; [apply IH|apply IHl]. }
    apply Hseq; apply Hall.
Qed.

Lemma relay_spec (l : list (@ReturnValues value rtype)) :
  Forall givesExhaust l ->
  exists l', flat_map contribution l' = tail (flat_map contribution l) /\
    relay l = (head (flat_map contribution l), l').
Proof.
  induction 1 as [|r rest Hr _ IH]; simpl.
  - by exists [].
  - unfold contribution at 2 4. destruct (multiValued r) eqn:Hmulti.
    + destruct (Hr Hmulti) as (r' & Hmulti' & Hex' & Hrec).
      destruct (exhaust r) as [|v vs]; simpl in *.
      * destruct Hrec as [e ->]. exact IH.
      * rewrite Hrec. exists (r' :: rest). split; [|done]. simpl.
        unfold contribution at 1. by rewrite Hmulti', Hex'.
    + destruct (Receive r) as [[result|e] r']; simpl.
      * by exists rest.
      * exact IH.
Qed.

Lemma Receive_givesExhaust (rv : @ReturnValues value rtype) : givesExhaust rv.
Proof.
  induction rv as [v|zv|q closed|d _|values rvChan _ Hpending]
    using ReturnValues_nested_ind; unfold givesExhaust; try done.
  - intros _. destruct q as [|v q]; simpl.
    + exists (returnChannel [] closed). split; [done|]. split; [done|].
      destruct closed; by eexists.
    + by exists (returnChannel q closed).
  - intros _. rewrite exhaust_sequential, Receive_sequential.
    destruct (relay_spec _ Hpending) as (l' & Hl' & ->).
    exists (sequentialReturnValues values (Some l')). split; [done|].
    rewrite exhaust_sequential. simpl. split; [done|].
    destruct (flat_map contribution (pendingOf values rvChan)); simpl; [by eexists|done].
Qed.

Lemma receives_S (n : nat) (rv : @ReturnValues value rtype) :
  receives (S n) rv = (Receive rv).1 :: receives n (Receive rv).2.
Proof. simpl. by destruct (Receive rv). Qed.

(** What [n] receives from a sequence are: the tuples its sources give, in
    the order of the sources, then the error. *)
Lemma receives_sequential (n : nat) values rvChan :
  receives n (sequentialReturnValues values rvChan) =
    take n ((inl <$> exhaust (sequentialReturnValues values rvChan))
            ++ replicate n (inr "no available values")).
Proof.
  revert rvChan. induction n as [|n IH]; intros rvChan; [done|].
  rewrite receives_S, Receive_sequential.
  assert (Hall : Forall givesExhaust (pendingOf values rvChan)).
  { apply Forall_forall. intros r _. apply Receive_givesExhaust. }
  destruct (relay_spec _ Hall) as (l' & Hl' & ->).
  rewrite exhaust_sequential.
  destruct (flat_map contribution (pendingOf values rvChan)) as [|v0 vs] eqn:Hflat;
    cbn [head tail fmap list_fmap app fst snd] in *.
  - rewrite IH, exhaust_sequential. cbn [pendingOf]. rewrite Hl'.
    cbn [fmap list_fmap app replicate take]. reflexivity.
  - rewrite IH, exhaust_sequential. cbn [pendingOf]. rewrite Hl'.
    cbn [fmap list_fmap app take]. f_equal.
    rewrite !take_app, !take_replicate. do 2 f_equal. lia.
Qed.



(** ** Building a matcher from no matchers *)

Lemma Matches_All_nil (args_ : list value) : Matches (All []) args_ = Ok true.
Proof. reflexivity. Qed.

(** C6, as the code has it: from an empty list of matchers,
    [NewMatcherForMethod] fails the test only for a method that takes no
    arguments (for which it fails whatever the list); for a method with
    arguments it does not fail and returns [All()] of no matchers, which
    matches every argument tuple. *)
Theorem NewMatcherForMethod_no_matchers (forMethod_ : @reflectMethod rtype) :
  match NewMatcherForMethod forMethod_ [] with
  | Fatal _ => In forMethod_ = []
  | Ok mt =>
      In forMethod_ <> [] /\ mt = All [] /\
      forall args_ : list value, Matches mt args_ = Ok true
  | Panic _ => False
  end.
Proof.
  unfold NewMatcherForMethod, NumIn. case_decide as Hn.
  - by destruct (In forMethod_).
  - split; [|split; [done|apply Matches_All_nil]].
    intros Hnil. by rewrite Hnil in Hn.
Qed.

(** * Further properties of the code *)

(** ** Expectations *)

(** X1: an expectation that is complete at a count is complete at every
    larger count, and no larger count meets it: retiring a complete mock
    never loses a call that could still have met its expectation. *)
Theorem Complete_is_final (e : Expectation) (count count' : Z) :
  Complete e count = Some true -> count <= count' ->
  Complete e count' = Some true /\ (count < count' -> Met e count' = false).
Proof.
  destruct e; simpl; try discriminate; intros Hc Hle;
    injection Hc as Hc; apply bool_decide_eq_true in Hc.
  - split; [f_equal; apply bool_decide_eq_true; lia|].
    intros; apply bool_decide_eq_false; lia.
  - split; [f_equal; apply bool_decide_eq_true; lia|].
    intros; apply andb_false_iff; right; apply bool_decide_eq_false; lia.
Qed.

(** ** Matchers *)

Lemma Matches_and_cons (m0 : @Matcher value) l (args_ : list value) :
  Matches (andMatcher (m0 :: l)) args_ =
    (b ← Matches m0 args_; if b : bool then Matches (andMatcher l) args_ else Ok false).
Proof. reflexivity. Qed.

Lemma Matches_or_cons (m0 : @Matcher value) l (args_ : list value) :
  Matches (orMatcher (m0 :: l)) args_ =
    (b ← Matches m0 args_; if b : bool then Ok true else Matches (orMatcher l) args_).
Proof. reflexivity. Qed.

Lemma Matches_not (m0 : @Matcher value) (args_ : list value) :
  Matches (notMatcher m0) args_ = (b ← Matches m0 args_; Ok (negb b)).
Proof. reflexivity. Qed.

Lemma Matches_args_cons (m0 : @Matcher value) l a (args_ : list value) :
  Matches (argumentsMatcher (m0 :: l)) (a :: args_) =
    (b ← Matches m0 [a];
     if b : bool then Matches (argumentsMatcher l) args_ else Ok false).
Proof. reflexivity. Qed.

(** X2: [All] matches exactly when every matcher does (so [All()] matches
    everything) and [Any] fails exactly when every matcher fails (so [Any()]
    matches nothing); both stop at the first matcher that decides: after a
    matcher that fails, [All] is false, and after one that matches, [Any] is
    true, whatever the later matchers would do, a panic included. *)
Theorem All_Any_short_circuit (ms : list (@Matcher value)) (args_ : list value) :
  (Matches (All ms) args_ = Ok true <->
     Forall (fun m0 => Matches m0 args_ = Ok true) ms) /\
  (Matches (Any ms) args_ = Ok false <->
     Forall (fun m0 => Matches m0 args_ = Ok false) ms) /\
  (forall pre m0 post, ms = pre ++ m0 :: post ->
     Forall (fun m1 => Matches m1 args_ = Ok true) pre ->
     Matches m0 args_ = Ok false -> Matches (All ms) args_ = Ok false) /\
  (forall pre m0 post, ms = pre ++ m0 :: post ->
     Forall (fun m1 => Matches m1 args_ = Ok false) pre ->
     Matches m0 args_ = Ok true -> Matches (Any ms) args_ = Ok true).
Proof.
  unfold All, Any. repeat split.
  - induction ms as [|m0 l IH]; [constructor|].
    rewrite Matches_and_cons. destruct (Matches m0 args_) as [[]| |] eqn:E;
      simpl; try discriminate. intros Hl. constructor; auto.
  - induction 1 as [|m0 l Hm _ IH]; [reflexivity|].
    rewrite Matches_and_cons, Hm. exact IH.
  - induction ms as [|m0 l IH]; [constructor|].
    rewrite Matches_or_cons. destruct (Matches m0 args_) as [[]| |] eqn:E;
      simpl; try discriminate. intros Hl. constructor; auto.
  - induction 1 as [|m0 l Hm _ IH]; [reflexivity|].
    rewrite Matches_or_cons, Hm. exact IH.
  - intros pre m0 post -> Hpre Hm.
    induction Hpre as [|m1 l Hm1 _ IH]; simpl app.
    + rewrite Matches_and_cons, Hm. reflexivity.
    + rewrite Matches_and_cons, Hm1. exact IH.
  - intros pre m0 post -> Hpre Hm.
    induction Hpre as [|m1 l Hm1 _ IH]; simpl app.
    + rewrite Matches_or_cons, Hm. reflexivity.
    + rewrite Matches_or_cons, Hm1. exact IH.
Qed.

(** X3: [Not] exchanges [Any] and [All] (De Morgan), and a double [Not] is
    the matcher itself: the results are the same for all arguments, panics
    included. *)
Theorem Not_De_Morgan (ms : list (@Matcher value)) (m0 : @Matcher value)
    (args_ : list value) :
  Matches (Not (Any ms)) args_ = Matches (All (Not <$> ms)) args_ /\
  Matches (Not (All ms)) args_ = Matches (Any (Not <$> ms)) args_ /\
  Matches (Not (Not m0)) args_ = Matches m0 args_.
Proof.
  unfold Not, Any, All. repeat split.
  - induction ms as [|m1 l IH]; [reflexivity|].
    rewrite fmap_cons, Matches_and_cons, <- IH, !Matches_not, Matches_or_cons.
    destruct (Matches m1 args_) as [[]| |]; reflexivity.
  - induction ms as [|m1 l IH]; [reflexivity|].
    rewrite fmap_cons, Matches_or_cons, <- IH, !Matches_not, Matches_and_cons.
    destruct (Matches m1 args_) as [[]| |]; reflexivity.
  - rewrite !Matches_not. destruct (Matches m0 args_) as [[]| |]; reflexivity.
Qed.

(** X4: [Args] is positional on the common prefix: it matches exactly
    when each matcher matches the argument at its position, matchers beyond
    the arguments are not consulted and arguments beyond the matchers are
    accepted. *)
Theorem Args_positional (ms : list (@Matcher value)) (args_ : list value) :
  (Matches (Args ms) args_ = Ok true <->
     Forall (fun ma => Matches ma.1 [ma.2] = Ok true) (zip ms args_)) /\
  Matches (Args ms) args_ =
    Matches (Args (take (length args_) ms)) (take (length ms) args_).
Proof.
  unfold Args. split.
  - revert args_. induction ms as [|m0 l IH]; intros [|a args_]; simpl zip;
      try (split; [constructor|reflexivity]).
    rewrite Matches_args_cons, Forall_cons; simpl fst; simpl snd.
    destruct (Matches m0 [a]) as [[]| |]; cbn [mbind outcome_bind].
    + rewrite IH. intuition.
    + split; [discriminate|intros [? _]; discriminate].
    + split; [discriminate|intros [? _]; discriminate].
    + split; [discriminate|intros [? _]; discriminate].
  - revert args_. induction ms as [|m0 l IH]; intros [|a args_]; try reflexivity.
    simpl length; simpl take. rewrite !Matches_args_cons, <- IH. reflexivity.
Qed.

Lemma forTypes_Ok_length (ins : list rtype) (l : list (@Matcher value)) :
  forTypes ins l = Ok () -> (length l <= length ins)%nat.
Proof.
  revert ins; induction l as [|m0 l IH]; intros [|in_ ins]; simpl; try lia;
    try discriminate.
  destruct (if isSingleArgMatcher m0 then forType in_ m0 else _); simpl;
    try discriminate. intros Hl. apply IH in Hl. lia.
Qed.

(** X5: [argumentsMatcher.ForMethod]: when it succeeds, the matchers are
    no more than the parameters of the method and each is a
    [SingleArgMatcher]; for a variadic method with a matcher for the
    variadic parameter or beyond, the matchers from that position on are
    collapsed into one [Slice] matcher, and otherwise the list is the one
    given; for a method that is not variadic, more matchers than parameters
    is a fatal failure. *)
Theorem Args_ForMethod_shape (l : list (@Matcher value)) (method : @reflectMethod rtype) :
  match argumentsMatcher_ForMethod l method with
  | Ok l1 =>
      (length l1 <= length (In method))%nat /\
      Forall (fun m0 => isSingleArgMatcher m0 = true) l1 /\
      (if IsVariadic method then
         if decide (length l < length (In method))%nat then l1 = l
         else l1 = take (length (In method) - 1) l
                     ++ [Slice (drop (length (In method) - 1) l)]
       else l1 = l)
  | Fatal _ => True
  | Panic _ => True
  end /\
  (IsVariadic method = false -> (length (In method) < length l)%nat ->
   is_Fatal (argumentsMatcher_ForMethod l method) = true).
Proof.
  unfold argumentsMatcher_ForMethod, NumIn. split.
  - assert (Hsam : forall ins l0, forTypes ins l0 = Ok () ->
              Forall (fun m0 : @Matcher value => isSingleArgMatcher m0 = true) l0).
    { intros ins l0; revert ins; induction l0 as [|m0 l0 IH]; intros ins;
        [constructor|]. destruct ins as [|in_ ins]; simpl; [discriminate|].
      destruct (isSingleArgMatcher m0) eqn:E; simpl; [|discriminate].
      destruct (forType in_ m0); simpl; try discriminate.
      intros Hl; constructor; eauto. }
    destruct (IsVariadic method).
    + destruct (decide (Z.of_nat (length l) > Z.of_nat (length (In method)) - 1)).
      * destruct (decide (Z.of_nat (length (In method)) - 1 < 0)); simpl; [exact I|].
        replace (Z.to_nat (Z.of_nat (length (In method)) - 1))
          with (length (In method) - 1)%nat by lia.
        destruct (forTypes _ _) as [[]| |] eqn:Ht; simpl; try exact I.
        split; [eapply forTypes_Ok_length; eauto|].
        split; [eauto|]. rewrite decide_False by lia. reflexivity.
      * simpl. destruct (forTypes _ _) as [[]| |] eqn:Ht; simpl; try exact I.
        split; [eapply forTypes_Ok_length; eauto|].
        split; [eauto|]. rewrite decide_True by lia. reflexivity.
    + destruct (decide (Z.of_nat (length l) > Z.of_nat (length (In method))));
        simpl; [exact I|].
      destruct (forTypes _ _) as [[]| |] eqn:Ht; simpl; try exact I.
      split; [eapply forTypes_Ok_length; eauto|]. split; eauto.
  - intros -> Hlt. rewrite decide_True by lia. reflexivity.
Qed.

Lemma genericSingleArgumentMatcher_not_Fatal (x : @rawInput value rtype) :
  is_Fatal (genericSingleArgumentMatcher x) = false.
Proof.
  destruct x as [m0|t|v0]; simpl.
  - destruct (isSingleArgMatcher m0); reflexivity.
  - reflexivity.
  - unfold kindIsFunc, rawKind. destruct (TypeOf v0); simpl; [|reflexivity].
    case_decide; reflexivity.
Qed.

Lemma genericSingleArgumentMatchers_spec (xs : list (@rawInput value rtype)) :
  match genericSingleArgumentMatchers xs with
  | Ok l => length l = length xs
  | Fatal _ => False
  | Panic _ => True
  end.
Proof.
  induction xs as [|x xs IH]; simpl; [reflexivity|].
  pose proof (genericSingleArgumentMatcher_not_Fatal x) as Hx.
  destruct (genericSingleArgumentMatcher x); simpl in *; try discriminate; auto.
  destruct (genericSingleArgumentMatchers xs); simpl; auto. 
Qed.

(** X6: [NewMatcherForMethod] with two or more inputs: for a method with
    no parameter it is a fatal failure; otherwise, when the first input is
    not a function, the result is [Args] of the inputs made single argument
    matchers, returned without [ForMethod]: there is no fatal failure,
    however many the inputs and whatever their types. *)
Theorem NewMatcherForMethod_unvalidated (forMethod_ : @reflectMethod rtype)
    (first second : @rawInput value rtype) (rest : list (@rawInput value rtype)) :
  (In forMethod_ = [] ->
   is_Fatal (NewMatcherForMethod forMethod_ (first :: second :: rest)) = true) /\
  (In forMethod_ <> [] -> kindIsFunc first = Ok None ->
   match NewMatcherForMethod forMethod_ (first :: second :: rest) with
   | Ok mt => exists l, mt = Args l /\ length l = S (S (length rest))
   | Fatal _ => False
   | Panic _ => True
   end).
Proof.
  unfold NewMatcherForMethod, NumIn. split.
  - intros ->. reflexivity.
  - intros Hin Hk. rewrite decide_False by (destruct (In forMethod_); simpl; [done|lia]).
    rewrite Hk. cbn [mbind outcome_bind].
    rewrite decide_True by (simpl; lia).
    pose proof (genericSingleArgumentMatchers_spec (first :: second :: rest)) as Hg.
    destruct (genericSingleArgumentMatchers (first :: second :: rest)); simpl in *; eauto.
Qed.

(** ** Assertions and return values *)

Lemma assertAssignableOuts_spec (outs : list (option rtype)) (mOuts : list rtype) :
  length outs = length mOuts ->
  (assertAssignableOuts outs mOuts = Ok () <->
     Forall2 (fun out mType => forall o, out = Some o -> AssignableTo o mType = true)
       outs mOuts) /\
  (forall msg, assertAssignableOuts outs mOuts <> Panic msg).
Proof.
  revert mOuts; induction outs as [|out outs IH]; intros [|mType mOuts] Hlen;
    try discriminate.
  - split; [split; [constructor|reflexivity]|discriminate].
  - injection Hlen as Hlen. destruct (IH _ Hlen) as [IH1 IH2]. simpl.
    destruct out as [o|].
    + destruct (AssignableTo o mType) eqn:E.
      * split; [|exact IH2]. rewrite IH1, Forall2_cons. split; [|tauto].
        intros Hl; split; [|exact Hl]. intros ? [= <-]. exact E.
      * split; [|discriminate]. split; [discriminate|].
        intros Hl. apply Forall2_cons in Hl as [Hl _].
        specialize (Hl o eq_refl). congruence.
    + split; [|exact IH2]. rewrite IH1, Forall2_cons. split; [|tauto].
      intros Hl; split; [discriminate|exact Hl].
Qed.

Lemma AssertMethodReturnValues_Ok_iff (method : @reflectMethod rtype)
    (returnValues : list value) :
  AssertMethodReturnValues method returnValues = Ok () <->
  Forall2 (fun val mType => forall o, TypeOf val = Some o -> AssignableTo o mType = true)
    returnValues (Out method).
Proof.
  unfold AssertMethodReturnValues, AssertMethodReturnTypes, NumOut.
  rewrite length_fmap. case_decide as Hlen.
  - split; [discriminate|].
    intros Hl. apply Forall2_length in Hl. lia.
  - assert (Hl : length (TypeOf <$> returnValues) = length (Out method))
      by (rewrite length_fmap; lia).
    rewrite (proj1 (assertAssignableOuts_spec _ _ Hl)), Forall2_fmap_l. reflexivity.
Qed.

(** X7: [AssertMethodReturnValues] passes exactly when there are as many
    values as the method has results and the type of each value that is not
    nil is assignable to the result at its position; it never panics. *)
Theorem AssertMethodReturnValues_accepts (method : @reflectMethod rtype)
    (returnValues : list value) :
  (AssertMethodReturnValues method returnValues = Ok () <->
     Forall2 (fun val mType => forall o, TypeOf val = Some o -> AssignableTo o mType = true)
       returnValues (Out method)) /\
  (forall msg, AssertMethodReturnValues method returnValues <> Panic msg).
Proof.
  split; [apply AssertMethodReturnValues_Ok_iff|].
  unfold AssertMethodReturnValues, AssertMethodReturnTypes, NumOut.
  rewrite length_fmap. case_decide as Hlen; [discriminate|].
  apply assertAssignableOuts_spec. rewrite length_fmap. lia.
Qed.

Lemma receives_fixed (n : nat) (vals : list value) :
  receives n (fixedReturnValues vals : @ReturnValues value rtype)
    = replicate n (inl vals).
Proof. induction n as [|n IH]; simpl; [reflexivity|]. rewrite IH. reflexivity. Qed.

(** X8: plain values that [NewReturnsForMethod] accepts are as many as the
    results of the method, pass [AssertMethodReturnValues], and are what
    every [Receive] gives: what was checked at setup is what the check at
    each invocation sees. *)
Theorem Values_checked_at_setup (method : @reflectMethod rtype)
    (vals : list value) (rv : @ReturnValues value rtype) (n : nat) :
  NewReturnsForMethod method (ReturnsValues vals) = Ok rv ->
  receives n rv = replicate n (inl vals) /\
  AssertMethodReturnValues method vals = Ok () /\
  length vals = length (Out method).
Proof.
  unfold NewReturnsForMethod, Values; simpl.
  destruct (AssertMethodReturnValues method vals) as [[]| |] eqn:E; simpl;
    try discriminate.
  intros [= <-]. split; [apply receives_fixed|]. split; [reflexivity|].
  apply AssertMethodReturnValues_Ok_iff in E. eapply Forall2_length; eauto.
Qed.

(** X9: where the zero value of a type has a type assignable to it (or
    is nil), [ZeroValues] of a method gives the zero values of its results
    at every [Receive], they pass [AssertMethodReturnValues], and
    [NewReturnsForMethod] accepts the source. *)
Theorem ZeroValues_valid (method : @reflectMethod rtype) (n : nat) :
  (forall t o, TypeOf (Zero t) = Some o -> AssignableTo o t = true) ->
  receives n (ZeroValues method) = replicate n (inl (Zero <$> Out method)) /\
  AssertMethodReturnValues method (Zero <$> Out method) = Ok () /\
  NewReturnsForMethod method (ReturnsSource (ZeroValues method))
    = Ok (ZeroValues method).
Proof.
  intros HZ. split; [|split; [|reflexivity]].
  - unfold ZeroValues. induction n as [|n IH]; simpl; [reflexivity|].
    f_equal. exact IH.
  - apply AssertMethodReturnValues_Ok_iff. apply Forall2_fmap_l.
    apply Forall_Forall2_diag, Forall_forall. intros t _ o. apply HZ.
Qed.

(** X10: a [returnChannel] gives the tuples sent in the order they were
    sent, and then an error at every [Receive]: that of the closed channel
    when it is closed, the timeout when it is not. *)
Theorem returnChannel_fifo (q : list (list value)) (closed : bool) (n : nat) :
  receives n (returnChannel q closed : @ReturnValues value rtype) =
    take n ((inl <$> q) ++
            replicate n (inr (if closed
                              then "requested values from closed return channel"
                              else "timed out waiting for return channel to provide values"))).
Proof.
  revert q; induction n as [|n IH]; intros q; [reflexivity|].
  destruct q as [|x q].
  - rewrite receives_S.
    replace (Receive (returnChannel [] closed : @ReturnValues value rtype))
      with (inr (A := list value)
              (if closed then "requested values from closed return channel"
               else "timed out waiting for return channel to provide values"),
            returnChannel [] closed : @ReturnValues value rtype)
      by (destruct closed; reflexivity).
    cbn [fst snd]. rewrite IH. reflexivity.
  - rewrite receives_S. cbn [Receive fst snd]. rewrite IH.
    cbn [fmap list_fmap app take length]. f_equal.
    rewrite !take_app, !take_replicate. do 2 f_equal. simpl; lia.
Qed.

Lemma Receive_delayed (rv : @ReturnValues value rtype) :
  Receive (delayedReturnValues rv) = ((Receive rv).1, delayedReturnValues (Receive rv).2).
Proof. simpl. destruct (Receive rv); reflexivity. Qed.

Lemma receives_delayed (n : nat) (rv : @ReturnValues value rtype) :
  receives n (delayedReturnValues rv) = receives n rv.
Proof.
  revert rv; induction n as [|n IH]; intros rv; [reflexivity|].
  rewrite !receives_S, Receive_delayed. simpl. rewrite IH. reflexivity.
Qed.

(** X11: [Delayed] gives the results of the source it wraps and validates
    as it does; but a delayed source is not multi-valued, so in a
    [Sequence] it is received from once, whatever it wraps. *)
Theorem Delayed_transparent (rv : @ReturnValues value rtype)
    (method : @reflectMethod rtype) (n : nat) :
  receives n (Delayed rv) = receives n rv /\
  ReturnValues_ForMethod (Delayed rv) method = ReturnValues_ForMethod rv method /\
  multiValued (Delayed rv) = false /\
  receives n (Sequence [Delayed rv]) =
    take n (match (Receive rv).1 with
            | inl result => [inl result]
            | inr _ => []
            end ++ replicate n (inr "no available values")).
Proof.
  unfold Delayed, Sequence.
  split; [apply receives_delayed|]. split; [reflexivity|]. split; [reflexivity|].
  rewrite receives_sequential, exhaust_sequential. unfold pendingOf; simpl.
  unfold contribution; cbn [multiValued]. rewrite Receive_delayed; simpl.
  rewrite app_nil_r. destruct (Receive rv) as [[result|e] rv']; reflexivity.
Qed.


(** ** Registration and dispatch *)

(** X13: for a method name that the interface does not have, [Stub],
    [Mock], [Spy], [Fake] and [Invoke] are fatal failures that leave the
    world as it was. *)
Theorem unknown_method_is_fatal w d td methodName (impl_ : value) (args_ : list value) :
  doubles w !! d = Some td -> methods td !! methodName = None ->
  TestDouble_Stub d methodName w = (Fatal "Cannot Stub non existent method", w) /\
  TestDouble_Mock d methodName w = (Fatal "Cannot Mock non existent method", w) /\
  TestDouble_Spy d methodName w = (Fatal "Cannot Spy on non existent method", w) /\
  TestDouble_Fake d methodName impl_ w = (Fatal "Cannot Fake non existent method", w) /\
  TestDouble_Invoke d methodName args_ w
    = (Fatal "Unexpected call to unknown methodName", w).
Proof.
  intros Hd Hm.
  assert (Hf : found w d methodName = Ok false).
  { unfold found, lookupDouble. rewrite Hd. simpl. rewrite Hm.
    rewrite bool_decide_eq_false_2; [reflexivity|]. intros [? ?]; discriminate. }
  unfold TestDouble_Stub, TestDouble_Mock, TestDouble_Spy, TestDouble_Fake,
    TestDouble_Invoke. unfold_M. rewrite Hf. simpl. repeat split.
Qed.

Lemma assertAssignableIns_spec (mIns fIns : list rtype) :
  length fIns = length mIns ->
  (assertAssignableIns mIns fIns = Ok () <->
   Forall2 (fun mIn fIn => AssignableTo mIn fIn = true) mIns fIns).
Proof.
  revert mIns; induction fIns as [|fIn fIns IH]; intros [|mIn mIns] Hlen;
    try discriminate; simpl.
  - split; [constructor|done].
  - injection Hlen as Hlen. rewrite Forall2_cons, <- (IH _ Hlen).
    destruct (AssignableTo mIn fIn); intuition congruence.
Qed.

Lemma assertAssignableOuts_Some (outs mOuts : list rtype) :
  length outs = length mOuts ->
  (assertAssignableOuts (Some <$> outs) mOuts = Ok () <->
   Forall2 (fun out mOut => AssignableTo out mOut = true) outs mOuts).
Proof.
  revert mOuts; induction outs as [|out outs IH]; intros [|mOut mOuts] Hlen;
    try discriminate; simpl.
  - split; [constructor|done].
  - injection Hlen as Hlen. rewrite Forall2_cons, <- (IH _ Hlen).
    destruct (AssignableTo out mOut); intuition congruence.
Qed.

(** X14: [Fake] registers an implementation only if it is a function
    with the variadic flag of the method, to whose parameters the
    parameters of the method are assignable, position by position, and
    whose results are assignable to those of the method; the call object
    registered is a fake with that implementation and no recorded call. *)
Theorem Fake_signature_checked w d methodName (impl_ : value) fake w1 :
  TestDouble_Fake d methodName impl_ w = (Ok fake, w1) ->
  exists td meth implT,
    doubles w !! d = Some td /\ methods td !! methodName = Some meth /\
    TypeOf impl_ = Some implT /\ Kind implT = reflect.Func /\
    FuncIsVariadic implT = IsVariadic (m meth) /\
    Forall2 (fun mIn fIn => AssignableTo mIn fIn = true)
      (In (m meth)) (FuncIn implT) /\
    Forall2 (fun fOut mOut => AssignableTo fOut mOut = true)
      (FuncOut implT) (Out (m meth)) /\
    heap w1 !! fake = Some (FakeCall {| fake_spy :=
        newSpyMethodCall (method_String td methodName) (d, methodName) [];
      impl := impl_ |}).
Proof.
  unfold TestDouble_Fake. unfold mbind at 1 2. unfold M_bind, get, liftO.
  destruct (found w d methodName) as [[]| |] eqn:Hf; simpl; try done.
  apply found_true in Hf as (td & meth & Hd & Hm).
  destruct (lookups_found w d methodName td meth Hd Hm) as (_ & Hld & Hlm).
  unfold mbind at 1 2. unfold M_bind. rewrite Hld, Hlm. simpl.
  destruct (firstSpy _ _); simpl; try done.
  unfold mbind at 1. unfold M_bind.
  destruct (newFakeMethodCall _ _ _ _) as [fc| |] eqn:Hfc; simpl; try done.
  unfold newFakeMethodCall in Hfc.
  destruct (TypeOf impl_) as [implT|] eqn:Hty; [|done].
  unfold AssertMethodInputs, AssertMethodOutputs, AssertMethodReturnTypes, NumIn,
    NumOut in Hfc.
  destruct (decide (Kind implT ≠ reflect.Func)) as [|Hk]; [done|].
  apply dec_stable in Hk.
  destruct (bool_decide (FuncIsVariadic implT = IsVariadic (m meth))) eqn:Hv;
    simpl in Hfc; [|done]. apply bool_decide_eq_true in Hv.
  destruct (decide (Z.of_nat (length (FuncIn implT)) ≠ Z.of_nat (length (In (m meth)))))
    as [|Hni]; [done|].
  destruct (assertAssignableIns _ _) as [[]| |] eqn:Hins; simpl in Hfc; try done.
  destruct (decide (Z.of_nat (length (Out (m meth))) ≠ Z.of_nat (length (FuncOut implT))))
    as [|Hno]; [done|].
  rewrite length_fmap in Hfc. rewrite decide_False in Hfc by done.
  destruct (assertAssignableOuts _ _) as [[]| |] eqn:Houts; simpl in Hfc; try done.
  injection Hfc as <-.
  apply assertAssignableIns_spec in Hins; [|lia].
  apply assertAssignableOuts_Some in Houts; [|lia].
  unfold_M.
  match goal with |- context [addMethodCall ?a ?b ?c] =>
    destruct (addMethodCall_effect a b c) as [_ Hh];
    destruct (addMethodCall a b c) as [[[]| |] w2] end; simpl in *; try done.
  intros [= <- <-]. exists td, meth, implT. repeat split; try done.
  rewrite Hh. rewrite lookup_app_r by lia. by rewrite Nat.sub_diag.
Qed.

Lemma spy_matches_all h call (args_ : list value) :
  isSpyMethodCall h call = true -> matches_at h call args_ = Ok true.
Proof.
  unfold isSpyMethodCall, matches_at.
  destruct (h !! call) as [[| | |]|]; simpl; congruence.
Qed.

Lemma firstMatch_with_spy h calls_ spy1 (args_ : list value) :
  firstSpy h calls_ = Some spy1 ->
  match firstMatch h calls_ args_ with
  | Ok (Some r) => exists pre post, calls_ = pre ++ spy1 :: post /\ r ∈ pre ++ [spy1]
  | Ok None => False
  | Fatal _ | Panic _ => True
  end.
Proof.
  induction calls_ as [|p rest IH]; simpl; [discriminate|].
  destruct (isSpyMethodCall h p) eqn:Hp.
  - intros [= <-]. rewrite (spy_matches_all h p args_ Hp). simpl.
    exists [], rest. split; [reflexivity|]. simpl. apply list_elem_of_here.
  - intros Hs. specialize (IH Hs).
    destruct (matches_at h p args_) as [[]| |] eqn:Hm; simpl; try exact I.
    + apply firstSpy_Some in Hs as [_ Hin].
      apply list_elem_of_split in Hin as (l1 & l2 & ->).
      exists (p :: l1), l2. split; [reflexivity|]. simpl. apply list_elem_of_here.
    + destruct (firstMatch h rest args_) as [[r|]| |]; try done.
      destruct IH as (pre & post & -> & Hin). exists (p :: pre), post.
      split; [reflexivity|]. simpl. by apply list_elem_of_further.
Qed.

(** X15: once a spy or a fake is among the calls of a method, [match]
    returns that call or one registered before it, never one registered
    after it, finds a match unless a matcher panics or fails, and makes no
    default call: the world is as it was. *)
Theorem spy_shadows_later_calls w d methodName td meth spy1 (args_ : list value) :
  doubles w !! d = Some td -> methods td !! methodName = Some meth ->
  firstSpy (heap w) (calls meth) = Some spy1 ->
  (method_match (d, methodName) args_ w).2 = w /\
  (forall r, (method_match (d, methodName) args_ w).1 = Ok r ->
     exists pre post, calls meth = pre ++ spy1 :: post /\ r ∈ pre ++ [spy1]) /\
  firstMatch (heap w) (calls meth) args_ <> Ok None.
Proof.
  intros Hd Hm Hs.
  destruct (lookups_found w d methodName td meth Hd Hm) as (_ & Hld & Hlm).
  pose proof (firstMatch_with_spy (heap w) (calls meth) spy1 args_ Hs) as Hf.
  unfold method_match. unfold_M. rewrite Hld. simpl. rewrite Hlm. simpl.
  destruct (firstMatch (heap w) (calls meth) args_) as [[r|]| |] eqn:E; simpl;
    try done.
  repeat split; try done. by intros ? [= <-].
Qed.

Lemma Invoke_found w d name (args_ : list value) :
  found w d name = Ok true ->
  TestDouble_Invoke d name args_ w = method_invoke (d, name) args_ w.
Proof. intros Hf. unfold TestDouble_Invoke. unfold_M. rewrite Hf. reflexivity. Qed.

Lemma spy_records call (args_ : list value) w (obj : @MethodCall value rtype) v :
  heap w !! call = Some obj -> recordedCallsOf obj = Some v ->
  w_tick (spy call args_ w).2 = uint64_incr (w_tick w) /\
  exists obj' v', heap (spy call args_ w).2 !! call = Some obj' /\
    recordedCallsOf obj' = Some v' /\
    recorded v' = recorded v ++ [{| tick := uint64_incr (w_tick w); args := args_ |}].
Proof.
  intros Hcall Hv.
  assert (Hlt : (call < length (heap w))%nat) by (eapply lookup_lt_Some; eauto).
  unfold spy. unfold_M. rewrite Hcall.
  destruct obj as [s|mc|sc|fc]; simpl in Hv; try discriminate; injection Hv as <-.
  - destruct (stub_spy _ _) as [[res s']| |]; simpl; (split; [reflexivity|]).
    + rewrite list_insert_insert_eq, list_lookup_insert_eq by done.
      eexists _, _. split; [reflexivity|]. split; reflexivity.
    + rewrite list_lookup_insert_eq by done.
      eexists _, _. split; [reflexivity|]. split; reflexivity.
    + rewrite list_lookup_insert_eq by done.
      eexists _, _. split; [reflexivity|]. split; reflexivity.
  - destruct (fake_call _ _) as [res| |]; simpl; (split; [reflexivity|]);
      rewrite list_lookup_insert_eq by done;
      eexists _, _; (split; [reflexivity|]); split; reflexivity.
Qed.

(** X16: an invocation dispatched to a spy or a fake appends the call,
    with its arguments and the incremented tick, to the log of that call
    object, however the invocation ends: also when the return value source
    gives an error or the implementation of the fake panics. *)
Theorem spied_call_is_recorded w d methodName td meth call
    (obj : @MethodCall value rtype) v (args_ : list value) :
  doubles w !! d = Some td -> methods td !! methodName = Some meth ->
  firstMatch (heap w) (calls meth) args_ = Ok (Some call) ->
  heap w !! call = Some obj -> recordedCallsOf obj = Some v ->
  let w1 := (TestDouble_Invoke d methodName args_ w).2 in
  w_tick w1 = uint64_incr (w_tick w) /\
  exists obj' v', heap w1 !! call = Some obj' /\
    recordedCallsOf obj' = Some v' /\
    recorded v' = recorded v ++ [{| tick := uint64_incr (w_tick w); args := args_ |}].
Proof.
  intros Hd Hm Hfirst Hcall Hv.
  destruct (lookups_found w d methodName td meth Hd Hm) as (Hf & Hld & Hlm).
  rewrite Invoke_found by exact Hf. cbv zeta.
  rewrite method_invoke_state.
  rewrite (method_match_found (d, methodName) args_ w td meth call Hld Hlm Hfirst).
  eapply spy_records; eauto.
Qed.

Lemma methodExtends_refl (n : nat) (meth : @method rtype) : methodExtends n meth meth.
Proof. split; [done|]. exists []. by rewrite app_nil_r. Qed.

Lemma methodExtends_trans (n1 n2 : nat) (m1 m2 m3 : @method rtype) :
  (n1 <= n2)%nat -> methodExtends n1 m1 m2 -> methodExtends n2 m2 m3 ->
  methodExtends n2 m1 m3.
Proof.
  intros Hn [Ha (news1 & Hc1 & Hf1)] [Hb (news2 & Hc2 & Hf2)].
  split; [congruence|]. exists (news1 ++ news2).
  split; [by rewrite Hc2, Hc1, app_assoc|].
  apply Forall_app. split; [|done].
  eapply Forall_impl; [exact Hf1|]. simpl. intros; lia.
Qed.

Lemma methods_extend_refl (n : nat) td name :
  option_Forall2 (methodExtends n) (methods td !! name) (methods td !! name).
Proof.
  destruct (methods td !! name); constructor. apply methodExtends_refl.
Qed.

Lemma registryExtends_same w w' :
  doubles w' = doubles w -> (length (heap w) <= length (heap w'))%nat ->
  registryExtends w w'.
Proof.
  intros Hd Hh. split; [exact Hh|]. split.
  - intros d td Htd. exists td.
    rewrite Hd. split; [exact Htd|]. intros name. apply methods_extend_refl.
  - intros d td' Hnone Hsome. rewrite Hd in Hsome. congruence.
Qed.

Lemma registryExtends_refl w : registryExtends w w.
Proof. by apply registryExtends_same. Qed.

Lemma registryExtends_trans w1 w2 w3 :
  registryExtends w1 w2 -> registryExtends w2 w3 -> registryExtends w1 w3.
Proof.
  intros (Hh1 & H1 & N1) (Hh2 & H2 & N2). split; [lia|]. split.
  - intros d td Htd.
    destruct (H1 d td Htd) as (td2 & Htd2 & Hm2).
    destruct (H2 d td2 Htd2) as (td3 & Htd3 & Hm3).
    exists td3. split; [exact Htd3|]. intros name.
    specialize (Hm2 name). specialize (Hm3 name).
    destruct Hm2 as [m1 m2 Ha|]; inversion Hm3 as [m2' m3 Hb E1 E2|]; subst;
      constructor.
    by apply (methodExtends_trans (length (heap w2)) _ m1 m2 m3).
  - intros d td3 Hnone Hsome name meth3 call Hm3 Hcall.
    destruct (doubles w2 !! d) as [td2|] eqn:Hd2; [|by eapply N2].
    destruct (H2 d td2 Hd2) as (td3' & Htd3 & Hms).
    assert (td3' = td3) as -> by congruence.
    specialize (Hms name). rewrite Hm3 in Hms.
    inversion Hms as [meth2 ? [_ (news & Hc & Hf)] Em2 E|]; subst.
    rewrite Hc in Hcall. apply elem_of_app in Hcall as [Hcall|Hcall].
    + symmetry in Em2.
      pose proof (N1 d td2 Hnone Hd2 name meth2 call Em2 Hcall). lia.
    + rewrite Forall_forall in Hf. by apply Hf.
Qed.

Lemma addMethodCall_extends mr call w :
  (call < length (heap w))%nat ->
  registryExtends w (addMethodCall mr call w).2.
Proof.
  intros Hlt. unfold addMethodCall. destruct mr as [d name]; simpl.
  destruct (doubles w !! d) as [td|] eqn:Hd; [|apply registryExtends_refl].
  destruct (methods td !! name) as [meth|] eqn:Hm; [|apply registryExtends_refl].
  simpl. split; [done|]. split.
  - intros d0 td0 Htd0. simpl.
    destruct (decide (d0 = d)) as [->|Hne].
    + rewrite Hd in Htd0. injection Htd0 as <-.
      eexists. split; [apply list_lookup_insert_eq; by eapply lookup_lt_Some|].
      intros name0. unfold setMethod; cbn [methods].
      destruct (decide (name0 = name)) as [->|Hn].
      * rewrite Hm.
        match goal with |- option_Forall2 _ _ ?x =>
          replace x with (Some {| calls := calls meth ++ [call]; m := m meth |})
            by (symmetry; apply lookup_insert_eq) end.
        constructor. split; [done|]. exists [call]. split; [done|].
        by repeat constructor.
      * match goal with |- option_Forall2 _ _ ?x =>
          replace x with (methods td !! name0)
            by (symmetry; by apply lookup_insert_ne) end.
        apply methods_extend_refl.
    + exists td0. rewrite list_lookup_insert_ne by done. split; [done|].
      intros name0. apply methods_extend_refl.
  - intros d0 td' Hnone Hsome. simpl in Hsome.
    apply lookup_lt_Some in Hsome. rewrite length_insert in Hsome.
    apply lookup_ge_None in Hnone. lia.
Qed.

Lemma register_extends mr (obj : @MethodCall value rtype) w :
  registryExtends w ((call ← alloc obj; _ ← addMethodCall mr call; mret call) w).2.
Proof.
  unfold_M.
  match goal with |- context [addMethodCall ?a ?b ?c] =>
    pose proof (addMethodCall_extends a b c) as Hext;
    destruct (addMethodCall a b c) as [[[]| |] w2] end; simpl in *;
    (eapply registryExtends_trans;
     [|apply Hext; rewrite length_app; simpl; lia]);
    apply registryExtends_same; simpl; rewrite ?length_app; simpl; try done; lia.
Qed.

Lemma method_match_extends mr (args_ : list value) w :
  registryExtends w (method_match mr args_ w).2.
Proof.
  unfold method_match. unfold mbind at 1 2 3 4. unfold M_bind, get, liftO.
  destruct (lookupDouble w mr.1) as [td| |]; simpl; try apply registryExtends_refl.
  destruct (lookupMethod w mr) as [meth| |]; simpl; try apply registryExtends_refl.
  destruct (firstMatch _ _ _) as [[possible|]| |]; simpl; try apply registryExtends_refl.
  destruct (defaultCall td mr) as [mc|]; simpl; try apply registryExtends_refl.
  unfold mbind at 1. unfold M_bind.
  destruct (made td mr meth mc) as [obj| |]; simpl; try apply registryExtends_refl.
  unfold_M.
  match goal with |- context [matches_at ?a ?b ?c] =>
    destruct (matches_at a b c) as [[]| |] end; simpl;
    try (apply registryExtends_same; simpl; rewrite ?length_app; simpl; [done|lia]).
  match goal with |- context [addMethodCall ?a ?b ?c] =>
    pose proof (addMethodCall_extends a b c) as Hext;
    destruct (addMethodCall a b c) as [[[]| |] w2] end; simpl in *;
    (eapply registryExtends_trans;
     [|apply Hext; rewrite length_app; simpl; lia]);
    apply registryExtends_same; simpl; rewrite ?length_app; simpl; try done; lia.
Qed.

Lemma Invoke_extends d name (args_ : list value) w :
  registryExtends w (TestDouble_Invoke d name args_ w).2.
Proof.
  destruct (TestDouble_Invoke_state d name args_ w) as [->| ->];
    [apply registryExtends_refl|].
  rewrite method_invoke_state.
  pose proof (method_match_extends (d, name) args_ w) as Hext.
  destruct (method_match (d, name) args_ w) as [[matched| |] w1]; simpl in *;
    try exact Hext.
  eapply registryExtends_trans; [exact Hext|].
  destruct (spy_effect matched args_ w1) as (Hdd & Hlen & _).
  apply registryExtends_same; [done|lia].
Qed.

(** The methods of a new double have no call. *)
Lemma NewDouble_no_calls i (ms : list (@reflectMethod rtype)) dc dr tr mt rt
    name (meth : @method rtype) :
  methods (NewDouble (value := value) i ms dc dr tr mt rt) !! name = Some meth ->
  calls meth = [].
Proof.
  simpl. intros Hm. apply elem_of_list_to_map_2 in Hm.
  apply list_elem_of_fmap in Hm as (rm & [= _ ->] & _). reflexivity.
Qed.

Lemma run_op_extends (o : @op value rtype) w : registryExtends w (run_op o w).
Proof.
  destruct o; simpl.
  - split; [done|]. split.
    + intros d td Htd. exists td. simpl.
      split; [by apply lookup_app_l_Some|]. intros; apply methods_extend_refl.
    + intros d td' Hnone Hsome name meth call Hm Hcall. simpl in Hsome.
      apply lookup_app_Some in Hsome as [Hsome|[_ Hsome]]; [congruence|].
      apply list_lookup_singleton_Some in Hsome as [_ <-].
      apply NewDouble_no_calls in Hm. rewrite Hm in Hcall.
      by apply elem_of_nil in Hcall.
  - unfold TestDouble_Stub. unfold mbind at 1 2. unfold M_bind, get, liftO.
    destruct (found w d methodName) as [[]| |]; simpl; try apply registryExtends_refl.
    apply register_extends.
  - unfold TestDouble_Mock. unfold mbind at 1 2. unfold M_bind, get, liftO.
    destruct (found w d methodName) as [[]| |]; simpl; try apply registryExtends_refl.
    apply register_extends.
  - unfold TestDouble_Spy. unfold mbind at 1 2 3 4. unfold M_bind, get, liftO.
    destruct (found w d methodName) as [[]| |]; simpl; try apply registryExtends_refl.
    destruct (lookupDouble w d); simpl; try apply registryExtends_refl.
    destruct (lookupMethod w _); simpl; try apply registryExtends_refl.
    destruct (firstSpy _ _); simpl; try apply registryExtends_refl.
    apply register_extends.
  - unfold TestDouble_Fake. unfold mbind at 1 2 3 4. unfold M_bind, get, liftO.
    destruct (found w d methodName) as [[]| |]; simpl; try apply registryExtends_refl.
    destruct (lookupDouble w d) as [td| |]; simpl; try apply registryExtends_refl.
    destruct (lookupMethod w _) as [meth| |]; simpl; try apply registryExtends_refl.
    destruct (firstSpy _ _); simpl; try apply registryExtends_refl.
    unfold mbind at 1. unfold M_bind.
    destruct (newFakeMethodCall _ _ _ _) as [fc| |]; simpl;
      try apply registryExtends_refl.
    apply register_extends.
  - unfold Returning. unfold_M.
    destruct (heap w !! call) as [obj|]; simpl; try apply registryExtends_refl.
    destruct (lookupDouble w _); simpl; try apply registryExtends_refl.
    destruct (lookupMethod w _); simpl; try apply registryExtends_refl.
    destruct (d_returns _ _ _ _); simpl; try apply registryExtends_refl.
    apply registryExtends_same; simpl; [done|]. by rewrite length_insert.
  - unfold Matching. unfold_M.
    destruct (heap w !! call) as [[s|mc|sc|fc]|]; simpl; try apply registryExtends_refl.
    all: destruct (lookupDouble w _); simpl; try apply registryExtends_refl.
    all: destruct (lookupMethod w _); simpl; try apply registryExtends_refl.
    all: destruct (d_matcher _ _ _ _); simpl; try apply registryExtends_refl.
    all: apply registryExtends_same; simpl; [done|]; by rewrite length_insert.
  - unfold After. unfold_M.
    destruct (heap w !! call) as [[s|mc|sc|fc]|]; simpl; try apply registryExtends_refl.
    apply registryExtends_same; simpl; [done|]. by rewrite length_insert.
  - unfold Expect. unfold_M.
    destruct (heap w !! call) as [[s|mc|sc|fc]|]; simpl; try apply registryExtends_refl.
    apply registryExtends_same; simpl; [done|]. by rewrite length_insert.
  - apply Invoke_extends.
Qed.

Lemma run_extends (ops : list (@op value rtype)) w : registryExtends w (run ops w).
Proof.
  induction ops as [|o ops IH] using rev_ind; [apply registryExtends_refl|].
  rewrite run_snoc. eapply registryExtends_trans; [exact IH|].
  apply run_op_extends.
Qed.

(** In a world reached from the initial one, the calls registered for a
    method are addresses of call objects. *)
Lemma run_registered_allocated (ops : list (@op value rtype)) d td name
    (meth : @method rtype) call :
  doubles (run ops initial) !! d = Some td -> methods td !! name = Some meth ->
  call ∈ calls meth -> is_Some (heap (run ops initial) !! call).
Proof.
  intros Hd Hm Hc. destruct (run_extends ops initial) as (_ & _ & Hnew).
  apply lookup_lt_is_Some. by eapply (Hnew d td).
Qed.

(** X17: the registry only grows: through any operations a double and its
    method stay, with the same [reflect.Method], the calls that were
    registered are a prefix of the calls registered afterwards (none is
    removed or reordered) and the calls added are addresses of call
    objects; no method is added to the double and no call object is
    removed. *)
Theorem registrations_append_only (ops : list (@op value rtype)) w d td
    methodName meth :
  doubles w !! d = Some td -> methods td !! methodName = Some meth ->
  exists td' meth' news,
    doubles (run ops w) !! d = Some td' /\
    methods td' !! methodName = Some meth' /\
    m meth' = m meth /\ calls meth' = calls meth ++ news /\
    Forall (fun call => is_Some (heap (run ops w) !! call)) news /\
    (forall name, methods td !! name = None -> methods td' !! name = None) /\
    (length (heap w) <= length (heap (run ops w)))%nat.
Proof.
  intros Hd Hm.
  destruct (run_extends ops w) as (Hlen & Hext & _).
  destruct (Hext d td Hd) as (td' & Hd' & Hms).
  pose proof (Hms methodName) as Hmn. rewrite Hm in Hmn.
  inversion Hmn as [? meth' [H1 (news & H2 & H3)] E1 E2|]; subst.
  exists td', meth', news. repeat split; try done.
  - eapply Forall_impl; [exact H3|]. intros call. apply lookup_lt_is_Some.
  - intros name Hn. specialize (Hms name). rewrite Hn in Hms. by inversion Hms.
Qed.

Lemma tickOrdered_tick_inj (l : list (@recordedCall value)) a b :
  tickOrdered l -> a ∈ l -> b ∈ l -> tick a = tick b -> a = b.
Proof.
  intros Hs Ha Hb Ht.
  apply list_elem_of_lookup in Ha as [i Hi]. apply list_elem_of_lookup in Hb as [j Hj].
  destruct (Nat.lt_total i j) as [Hlt|[->|Hlt]].
  - pose proof (tickOrdered_lookup_lt l i j a b Hs Hi Hj Hlt). lia.
  - congruence.
  - pose proof (tickOrdered_lookup_lt l j i b a Hs Hj Hi Hlt). lia.
Qed.

Lemma logEffect_logsApart w w' :
  logEffect w w' -> ticksInv w -> w_tick w < uint64_modulus - 1 ->
  logsApart w -> logsApart w'.
Proof.
  intros [k Heff] [Hpos Hinv] Hbound Hap. simpl in Heff.
  assert (HL : forall i li a, (logs w ++ replicate k []) !! i = Some li -> a ∈ li ->
                 logs w !! i = Some li /\ tick a <= w_tick w).
  { intros i li a Hi Ha. apply lookup_app_Some in Hi as [Hi|[_ Hi]].
    - split; [done|]. rewrite Forall_lookup in Hinv.
      destruct (Hinv _ _ Hi) as [_ Hall]. rewrite Forall_forall in Hall. by apply Hall.
    - apply lookup_replicate in Hi as [-> _]. by apply elem_of_nil in Ha. }
  destruct Heff as [[Ht Hl]|[Ht (call & l & a0 & Hcall & Hl)]].
  - intros i j li lj a b Hi Hj Ha Hb Hab. rewrite Hl in Hi, Hj.
    destruct (HL _ _ _ Hi Ha) as [Hi' _]. destruct (HL _ _ _ Hj Hb) as [Hj' _].
    by eapply Hap.
  - rewrite uint64_incr_no_wrap in Ht by lia.
    assert (HL' : forall i li a, logs w' !! i = Some li -> a ∈ li ->
                   (i = call /\ tick a = w_tick w + 1) \/
                   (exists li0, logs w !! i = Some li0 /\ a ∈ li0 /\ tick a <= w_tick w)).
    { intros i li a Hi Ha. rewrite Hl in Hi.
      destruct (decide (i = call)) as [->|Hne].
      - rewrite list_lookup_insert_eq in Hi by (by eapply lookup_lt_Some).
        injection Hi as <-. apply elem_of_app in Ha as [Ha|Ha].
        + right. destruct (HL _ _ _ Hcall Ha) as [? ?]. by exists l.
        + left. apply list_elem_of_singleton in Ha as ->. simpl. split; [done|lia].
      - rewrite list_lookup_insert_ne in Hi by done.
        right. destruct (HL _ _ _ Hi Ha) as [? ?]. by exists li. }
    intros i j li lj a b Hi Hj Ha Hb Hab.
    destruct (HL' _ _ _ Hi Ha) as [[-> Hta]|(li0 & Hi0 & Ha0 & Hta)];
      destruct (HL' _ _ _ Hj Hb) as [[-> Htb]|(lj0 & Hj0 & Hb0 & Htb)];
      try done; try lia.
    by eapply Hap.
Qed.

(** X18: in a world reached by fewer than 2^64 operations, a tick
    identifies a recorded call among those of all the call objects of all
    the doubles: two recorded calls with the same tick are in the log of
    the same call object and are the same call; and every tick is positive
    and at most the global tick. *)
Theorem ticks_identify_calls (ops : list (@op value rtype)) w (i j : nat)
    (li lj : list (@recordedCall value)) a b :
  Z.of_nat (length ops) < uint64_modulus ->
  w = run ops initial ->
  logs w !! i = Some li -> logs w !! j = Some lj ->
  a ∈ li -> b ∈ lj -> tick a = tick b ->
  i = j /\ a = b /\ 0 < tick a <= w_tick w.
Proof.
  intros Hlen -> Hi Hj Ha Hb Hab.
  assert (Hinv : ticksInv (run ops initial) /\ logsApart (run ops initial) /\
                 Forall (Forall (fun rc => 0 < tick rc)) (logs (run ops initial))).
  { clear Hi Hj Ha Hb Hab. induction ops as [|o ops IH] using rev_ind.
    - split; [apply ticksInv_initial|]. split; [|constructor].
      intros i0 j0 li0 lj0 a' b' Hi0. unfold logs in Hi0; simpl in Hi0.
      by rewrite lookup_nil in Hi0.
    - rewrite length_app in Hlen; simpl in Hlen.
      destruct IH as (Hinv & Hap & Hposs); [lia|].
      destruct (run_ticksInv ops) as [_ Hle]; [lia|].
      rewrite run_snoc.
      pose proof (run_op_effect o (run ops initial)) as Heff.
      destruct (logEffect_ticksInv _ _ Heff Hinv) as [Hinv' _]; [lia|].
      split; [exact Hinv'|]. split; [eapply logEffect_logsApart; eauto; lia|].
      destruct Heff as [k Heff]; simpl in Heff.
      assert (HL : Forall (Forall (fun rc : @recordedCall value => 0 < tick rc))
                     (logs (run ops initial) ++ replicate k [])).
      { apply Forall_app. split; [done|]. apply Forall_replicate. constructor. }
      destruct Heff as [[Ht Hl]|[Ht (call & l & a0 & Hcall & Hl)]].
      + by rewrite Hl.
      + rewrite Hl. apply Forall_insert; [done|].
        rewrite Forall_lookup in HL. apply Forall_app. split; [by eapply HL|].
        repeat constructor. simpl. rewrite Ht.
        destruct Hinv as [Hpos _]. rewrite uint64_incr_no_wrap by lia. lia. }
  destruct Hinv as (Hinv & Hap & Hposs).
  assert (i = j) as <- by (eapply Hap; eauto).
  assert (li = lj) as <- by congruence.
  destruct Hinv as [_ Hinv]. rewrite Forall_lookup in Hinv.
  destruct (Hinv _ _ Hi) as [Hs Hall].
  split; [done|]. split; [by eapply tickOrdered_tick_inj|].
  rewrite Forall_lookup in Hposs. specialize (Hposs _ _ Hi).
  rewrite Forall_forall in Hposs, Hall. split; [by apply Hposs|by apply Hall].
Qed.

Lemma method_invoke_Ok mr (args_ vals : list value) w w' :
  method_invoke mr args_ w = (Ok vals, w') ->
  exists meth', lookupMethod w' mr = Ok meth' /\
    AssertMethodReturnValues (m meth') vals = Ok ().
Proof.
  unfold method_invoke. unfold mbind at 1. unfold M_bind at 1.
  destruct (method_match mr args_ w) as [[matched| |] w1]; try done.
  unfold mbind at 1. unfold M_bind at 1.
  destruct (spy matched args_ w1) as [[[returns_|err]| |] w2]; try done.
  unfold_M. destruct (lookupMethod w2 mr) as [meth'| |] eqn:Hl; simpl; try done.
  destruct (AssertMethodReturnValues (m meth') returns_) as [[]| |] eqn:Ha; simpl;
    try done.
  intros [= <- <-]. by exists meth'.
Qed.

(** X29: an invocation that returns, returns values that pass
    [AssertMethodReturnValues] for the method invoked: as many as its
    results and each, unless nil, of a type assignable to the result at its
    position, whatever call object and return value source they come
    from. *)
Theorem Invoke_returns_checked_values w d methodName (args_ vals : list value) w' :
  TestDouble_Invoke d methodName args_ w = (Ok vals, w') ->
  exists td meth,
    doubles w !! d = Some td /\ methods td !! methodName = Some meth /\
    AssertMethodReturnValues (m meth) vals = Ok () /\
    length vals = length (Out (m meth)) /\
    Forall2 (fun val mType => forall o, TypeOf val = Some o -> AssignableTo o mType = true)
      vals (Out (m meth)).
Proof.
  intros Hinv.
  pose proof (Invoke_extends d methodName args_ w) as Hext. rewrite Hinv in Hext.
  simpl in Hext.
  unfold TestDouble_Invoke in Hinv. unfold mbind at 1 2 in Hinv.
  unfold M_bind at 1 2, get, liftO in Hinv.
  destruct (found w d methodName) as [[]| |] eqn:Hf; simpl in Hinv; try done.
  apply found_true in Hf as (td & meth & Hd & Hm).
  apply method_invoke_Ok in Hinv as (meth' & Hl & Ha).
  destruct Hext as (_ & Hext & _). destruct (Hext d td Hd) as (td' & Hd' & Hms).
  specialize (Hms methodName). rewrite Hm in Hms.
  inversion Hms as [? meth2 [Hsame _] E1 E2|]; subst.
  assert (meth2 = meth') as ->.
  { unfold lookupMethod, lookupDouble in Hl. simpl in Hl. rewrite Hd' in Hl.
    simpl in Hl. rewrite <- E2 in Hl. congruence. }
  exists td, meth. rewrite <- Hsame. split; [done|]. split; [done|]. split; [done|].
  apply AssertMethodReturnValues_Ok_iff in Ha.
  split; [by eapply Forall2_length|done].
Qed.

(** X30: with the default call a spy, the invocation of a method with no
    registered call makes a spy that records it, and [Spy] for the method
    then returns that spy, with the call recorded, and makes no other. *)
Theorem default_Spy_is_retrieved w d methodName td meth rv (args_ : list value) :
  doubles w !! d = Some td -> methods td !! methodName = Some meth ->
  calls meth = [] -> defaultCall td (d, methodName) = Some (MadeSpy rv) ->
  let w1 := (TestDouble_Invoke d methodName args_ w).2 in
  TestDouble_Spy d methodName w1 = (Ok (length (heap w)), w1) /\
  exists obj v, heap w1 !! length (heap w) = Some obj /\
    recordedCallsOf obj = Some v /\
    recorded v = [{| tick := uint64_incr (w_tick w); args := args_ |}].
Proof.
  intros Hd Hm Hc Hdef.
  destruct (lookups_found w d methodName td _ Hd Hm) as (Hf & Hld & Hlm).
  rewrite Invoke_found by exact Hf. cbv zeta. rewrite method_invoke_state.
  set (obj := SpyCall {| spy_stub := {| method_ := (d, methodName); returns := rv;
                                        matcher := None |};
                         recorded := [];
                         subsets := ["all calls to " +:+ method_String td methodName] |}
              : @MethodCall value rtype).
  set (w0 := {| w_tick := w_tick w; heap := heap w ++ [obj]; doubles := doubles w |}).
  assert (Hr0 : heap w0 !! length (heap w) = Some obj).
  { simpl. rewrite lookup_app_r by lia. by rewrite Nat.sub_diag. }
  destruct (addMethodCall_found w0 d methodName td meth (length (heap w)) Hd Hm)
    as (td1 & Hadd & Htd1 & Hm1).
  assert (Hmatch : method_match (d, methodName) args_ w =
            (Ok (length (heap w)),
             {| w_tick := w_tick w; heap := heap w ++ [obj];
                doubles := <[d := td1]> (doubles w) |})).
  { unfold method_match. unfold_M. rewrite Hld. simpl. rewrite Hlm. simpl.
    rewrite Hc. simpl. rewrite Hdef. simpl.
    fold obj. unfold matches_at. simpl. rewrite Hr0. simpl.
    fold w0. rewrite Hadd. reflexivity. }
  rewrite Hmatch.
  match goal with |- context [spy ?a ?b ?c] => set (w2 := c) end.
  assert (Hr2 : heap w2 !! length (heap w) = Some obj) by exact Hr0.
  destruct (spy_effect (length (heap w)) args_ w2) as (Hdd & Hlen & _).
  destruct (spy_records (length (heap w)) args_ w2 obj _ Hr2 eq_refl)
    as (_ & obj' & v' & H1 & H2 & H3).
  assert (Hd2 : doubles (spy (length (heap w)) args_ w2).2 !! d = Some td1)
    by (by rewrite Hdd).
  rewrite Hc in Hm1. simpl in Hm1.
  split.
  - apply (Spy_Fake_with_spy _ d methodName td1 _ (length (heap w)) Hd2 Hm1).
    simpl. unfold isSpyMethodCall. rewrite H1.
    destruct obj' as [s|mc|sc|fc]; simpl in H2; try done.
  - exists obj', v'. split; [done|]. split; [done|]. exact H3.
Qed.

(** ** Mocks and stubs *)

Lemma int_incr_no_wrap (x : Z) : x < int_max -> int_incr x = x + 1.
Proof. intros Hx. unfold int_incr. rewrite decide_False by lia. reflexivity. Qed.

Lemma bounded_mock_step d name (args_ : list value) w call
    (mc : @mockedMethodCall value rtype) e (ub : Z) :
  heap w !! call = Some (MockCall mc) -> expect mc = Some e ->
  (forall n, Complete e n = Some (bool_decide (n >= ub))) ->
  count mc <= ub -> ub <= int_max ->
  exists mc', heap (TestDouble_Invoke d name args_ w).2 !! call = Some (MockCall mc') /\
    expect mc' = Some e /\ count mc <= count mc' <= ub.
Proof.
  intros Hcall He Hub Hle Hmax.
  destruct (TestDouble_Invoke_state d name args_ w) as [->| ->];
    [exists mc; repeat split; auto; lia|].
  rewrite method_invoke_state.
  pose proof (method_match_frame (d, name) args_ w call _ Hcall) as Hframe.
  destruct (method_match (d, name) args_ w) as [[matched| |] w1] eqn:Hmatch;
    simpl in *; try (exists mc; repeat split; auto; lia).
  apply method_match_Ok in Hmatch.
  destruct (decide (matched = call)) as [->|Hne].
  - unfold matches_at in Hmatch. rewrite Hframe in Hmatch. simpl in Hmatch.
    apply mock_matches_iff in Hmatch as (_ & Hc & _).
    unfold complete in Hc. rewrite He, Hub in Hc.
    apply bool_decide_eq_false in Hc.
    destruct (spy_mock call args_ w1 mc Hframe) as (mc1 & Hmc1 & Hcount & Hexp & _).
    exists mc1. split; [exact Hmc1|]. split; [congruence|].
    rewrite Hcount, int_incr_no_wrap by lia. lia.
  - rewrite spy_frame by done. exists mc. repeat split; auto; lia.
Qed.

(** X19: a mock whose expectation is complete from [ub] on (as
    [Exactly(ub)], [AtMost(ub)] and [Between(lo,ub)] are) and whose count is
    at most [ub] keeps its expectation and a count of at most [ub] through
    any invocations of any methods: dispatch never takes a mock over its
    upper bound. *)
Theorem mock_never_over_called (invs : list (nat * string * list value)) w call
    (mc : @mockedMethodCall value rtype) e (ub : Z) :
  heap w !! call = Some (MockCall mc) -> expect mc = Some e ->
  (forall n, Complete e n = Some (bool_decide (n >= ub))) ->
  count mc <= ub -> ub <= int_max ->
  exists mc', heap (run (invocations invs) w) !! call = Some (MockCall mc') /\
    expect mc' = Some e /\ count mc <= count mc' <= ub.
Proof.
  intros Hcall He Hub Hle Hmax.
  induction invs as [|[[d name] args_] invs IH] using rev_ind.
  - exists mc. repeat split; auto; lia.
  - destruct IH as (mc1 & Hmc1 & He1 & Hc1).
    unfold invocations. rewrite fmap_app. simpl. rewrite run_snoc. simpl.
    destruct (bounded_mock_step d name args_ _ call mc1 e ub Hmc1 He1 Hub) as
      (mc2 & Hmc2 & He2 & Hc2); [lia|lia|].
    exists mc2. repeat split; auto; lia.
Qed.

Lemma invocations_snoc (invs : list (nat * string * list value)) d name
    (args_ : list value) :
  invocations (rtype := rtype) (invs ++ [(d, name, args_)])
    = invocations invs ++ [OpInvoke d name args_].
Proof. unfold invocations. by rewrite fmap_app. Qed.

Lemma open_mock_matches h r (mc : @mockedMethodCall value rtype) (args_ : list value) :
  h !! r = Some (MockCall mc) -> matcher (mock_stub mc) = None -> after mc = [] ->
  noCompletion (expect mc) -> matches_at h r args_ = Ok true.
Proof.
  intros Hr Hmt Ha He. unfold matches_at. rewrite Hr. simpl.
  apply mock_matches_iff. unfold stub_matches, complete. rewrite Hmt, Ha.
  split; [done|]. split; [|constructor].
  destruct (expect mc) as [e|]; [|done]. simpl in He. by rewrite He.
Qed.

Lemma open_mock_step w d name td r rm (mc : @mockedMethodCall value rtype)
    (args_ : list value) :
  doubles w !! d = Some td ->
  methods td !! name = Some {| calls := [r]; m := rm |} ->
  heap w !! r = Some (MockCall mc) -> matcher (mock_stub mc) = None ->
  after mc = [] -> noCompletion (expect mc) ->
  let w1 := (TestDouble_Invoke d name args_ w).2 in
  doubles w1 = doubles w /\ length (heap w1) = length (heap w) /\
  exists mc1, heap w1 !! r = Some (MockCall mc1) /\ matcher (mock_stub mc1) = None /\
    after mc1 = [] /\ expect mc1 = expect mc /\ count mc1 = int_incr (count mc).
Proof.
  intros Hd Hm Hr Hmt Ha He.
  destruct (lookups_found w d name td _ Hd Hm) as (Hf & Hld & Hlm).
  rewrite Invoke_found by exact Hf. cbv zeta. rewrite method_invoke_state.
  assert (Hfirst : firstMatch (heap w) [r] args_ = Ok (Some r)).
  { simpl. by rewrite (open_mock_matches _ _ mc). }
  rewrite (method_match_found (d, name) args_ w td _ r Hld Hlm Hfirst).
  destruct (spy_effect r args_ w) as (Hdd & Hlen & _).
  split; [exact Hdd|]. split; [exact Hlen|].
  destruct (spy_mock r args_ w mc Hr) as (mc1 & H1 & H2 & H3 & H4 & H5).
  exists mc1. repeat split; congruence.
Qed.

Lemma open_mock_run w d name td r rm (mc : @mockedMethodCall value rtype)
    (argss : list (list value)) :
  doubles w !! d = Some td ->
  methods td !! name = Some {| calls := [r]; m := rm |} ->
  heap w !! r = Some (MockCall mc) -> matcher (mock_stub mc) = None ->
  after mc = [] -> noCompletion (expect mc) ->
  count mc + Z.of_nat (length argss) <= int_max ->
  let w1 := run (invocations ((fun a => (d, name, a)) <$> argss)) w in
  doubles w1 = doubles w /\ length (heap w1) = length (heap w) /\
  exists mc1, heap w1 !! r = Some (MockCall mc1) /\ matcher (mock_stub mc1) = None /\
    after mc1 = [] /\ expect mc1 = expect mc /\
    count mc1 = count mc + Z.of_nat (length argss).
Proof.
  intros Hd Hm Hr Hmt Ha He. cbv zeta.
  induction argss as [|a argss IH] using rev_ind; intros Hmax.
  - split; [done|]. split; [done|]. exists mc. simpl. repeat split; try done. lia.
  - rewrite length_app in Hmax. simpl in Hmax.
    destruct IH as (Hdd & Hlen & mc1 & H1 & H2 & H3 & H4 & H5); [lia|].
    rewrite fmap_app. simpl. rewrite invocations_snoc, run_snoc. simpl.
    rewrite <- Hdd in Hd.
    destruct (open_mock_step _ d name td r rm mc1 a Hd Hm H1 H2 H3)
      as (Gd & Gl & mc2 & G1 & G2 & G3 & G4 & G5); [by rewrite H4|].
    split; [congruence|]. split; [congruence|]. exists mc2.
    repeat split; try congruence.
    rewrite G5, H5, int_incr_no_wrap, length_app by lia. simpl. lia.
Qed.

Lemma default_mock_first w d name td meth (args_ : list value) e :
  doubles w !! d = Some td -> methods td !! name = Some meth -> calls meth = [] ->
  defaultCall td (d, name) = Some (MadeMock None None [] e) ->
  noCompletion e ->
  let w1 := (TestDouble_Invoke d name args_ w).2 in
  let r := length (heap w) in
  length (heap w1) = S r /\
  exists td1 mc1, doubles w1 !! d = Some td1 /\
    methods td1 !! name = Some {| calls := [r]; m := m meth |} /\
    heap w1 !! r = Some (MockCall mc1) /\ matcher (mock_stub mc1) = None /\
    after mc1 = [] /\ expect mc1 = e /\ count mc1 = 1.
Proof.
  intros Hd Hm Hc Hdef He.
  destruct (lookups_found w d name td _ Hd Hm) as (Hf & Hld & Hlm).
  rewrite Invoke_found by exact Hf. cbv zeta. rewrite method_invoke_state.
  set (mock := MockCall {| mock_stub := {| method_ := (d, name); returns := None;
                                           matcher := None |};
                           count := 0; after := []; expect := e |}
              : @MethodCall value rtype).
  set (w0 := {| w_tick := w_tick w; heap := heap w ++ [mock]; doubles := doubles w |}).
  assert (Hr0 : heap w0 !! length (heap w) = Some mock).
  { simpl. rewrite lookup_app_r by lia. by rewrite Nat.sub_diag. }
  destruct (addMethodCall_found w0 d name td meth (length (heap w)) Hd Hm)
    as (td1 & Hadd & Htd1 & Hm1).
  assert (Hmatch : method_match (d, name) args_ w =
            (Ok (length (heap w)),
             {| w_tick := w_tick w; heap := heap w ++ [mock];
                doubles := <[d := td1]> (doubles w) |})).
  { unfold method_match. unfold_M. rewrite Hld. simpl. rewrite Hlm. simpl.
    rewrite Hc. simpl. rewrite Hdef. simpl.
    fold mock. rewrite (open_mock_matches _ _ _ args_ Hr0) by done. simpl.
    fold w0. rewrite Hadd. reflexivity. }
  rewrite Hmatch.
  match goal with |- context [spy ?a ?b ?c] => set (w2 := c) end.
  assert (Hr2 : heap w2 !! length (heap w) = Some mock) by exact Hr0.
  destruct (spy_effect (length (heap w)) args_ w2) as (Hdd & Hlen & _).
  destruct (spy_mock _ args_ w2 _ Hr2) as (mc1 & H1 & H2 & H3 & H4 & H5).
  split; [rewrite Hlen; simpl; rewrite length_app; simpl; lia|].
  exists td1, mc1. rewrite Hdd. simpl. rewrite Hc in Hm1.
  repeat split; try done.
Qed.

(** X20: with the default call a mock that expects never to be called, the
    invocations of a method with no registered call make one default mock,
    at the first of them, and all go to it: afterwards the method has that
    one call, its count is the number of invocations, and [verify] reports
    it. *)
Theorem unregistered_calls_counted w d methodName td meth
    (args_ : list value) (argss : list (list value)) :
  doubles w !! d = Some td -> methods td !! methodName = Some meth ->
  calls meth = [] ->
  defaultCall td (d, methodName) = Some (MadeMock None None [] (Some Never)) ->
  1 + Z.of_nat (length argss) <= int_max ->
  let w' := run (invocations ((fun a => (d, methodName, a)) <$> args_ :: argss)) w in
  exists td' mc, doubles w' !! d = Some td' /\
    methods td' !! methodName = Some {| calls := [length (heap w)]; m := m meth |} /\
    heap w' !! length (heap w) = Some (MockCall mc) /\
    count mc = 1 + Z.of_nat (length argss) /\ expect mc = Some Never /\
    met mc = false /\ verify (MockCall mc) = true.
Proof.
  intros Hd Hm Hc Hdef Hmax. cbv zeta.
  rewrite fmap_cons. unfold invocations at 1. rewrite fmap_cons. simpl.
  fold (invocations (rtype := rtype) ((fun a => (d, methodName, a)) <$> argss)).
  destruct (default_mock_first w d methodName td meth args_ (Some Never) Hd Hm Hc Hdef)
    as (_ & td1 & mc1 & H1 & H2 & H3 & H4 & H5 & H6 & H7); [done|].
  destruct (open_mock_run _ d methodName td1 _ _ mc1 argss H1 H2 H3 H4 H5)
    as (Gd & _ & mc2 & G1 & G2 & G3 & G4 & G5); [by rewrite H6|lia|].
  exists td1, mc2. rewrite Gd. split; [done|]. split; [done|]. split; [done|].
  assert (Hcount : count mc2 = 1 + Z.of_nat (length argss)) by lia.
  assert (He : expect mc2 = Some Never) by congruence.
  split; [done|]. split; [done|].
  assert (Hmet : met mc2 = false).
  { unfold met. rewrite He. simpl. apply bool_decide_eq_false. lia. }
  split; [done|]. simpl. by rewrite Hmet.
Qed.

Lemma Mock_registers w d name td meth :
  doubles w !! d = Some td -> methods td !! name = Some meth ->
  exists td1,
    TestDouble_Mock d name w =
      (Ok (length (heap w)),
       {| w_tick := w_tick w;
          heap := heap w ++ [MockCall (newMockedMethodCall (d, name))];
          doubles := <[d := td1]> (doubles w) |}) /\
    <[d := td1]> (doubles w) !! d = Some td1 /\
    methods td1 !! name
      = Some {| calls := calls meth ++ [length (heap w)]; m := m meth |}.
Proof.
  intros Hd Hm. destruct (lookups_found w d name td _ Hd Hm) as (Hf & _ & _).
  set (w0 := {| w_tick := w_tick w;
                heap := heap w ++ [MockCall (newMockedMethodCall (d, name))];
                doubles := doubles w |}).
  destruct (addMethodCall_found w0 d name td meth (length (heap w)) Hd Hm)
    as (td1 & Hadd & Htd1 & Hm1).
  exists td1. split; [|done].
  unfold TestDouble_Mock. unfold_M. rewrite Hf. simpl. fold w0. by rewrite Hadd.
Qed.

(** X21: a mock registered by [Mock] and given no expectation is never
    complete and always met: registered first for its method, it takes
    every invocation, its count is their number, and [verify] does not
    report it. *)
Theorem Mock_without_Expect_is_unbounded w d methodName td meth
    (argss : list (list value)) :
  doubles w !! d = Some td -> methods td !! methodName = Some meth ->
  calls meth = [] -> Z.of_nat (length argss) <= int_max ->
  let w0 := (TestDouble_Mock d methodName w).2 in
  let w' := run (invocations ((fun a => (d, methodName, a)) <$> argss)) w0 in
  (TestDouble_Mock d methodName w).1 = Ok (length (heap w)) /\
  exists mc, heap w' !! length (heap w) = Some (MockCall mc) /\
    count mc = Z.of_nat (length argss) /\ expect mc = None /\
    complete mc = false /\ met mc = true /\ verify (MockCall mc) = false.
Proof.
  intros Hd Hm Hc Hmax. cbv zeta.
  destruct (Mock_registers w d methodName td meth Hd Hm) as (td1 & -> & Htd1 & Hm1).
  simpl. split; [done|]. rewrite Hc in Hm1. simpl in Hm1.
  match goal with |- context [run _ ?x] => set (w0 := x) end.
  assert (Hr : heap w0 !! length (heap w)
               = Some (MockCall (newMockedMethodCall (d, methodName)))).
  { simpl. rewrite lookup_app_r by lia. by rewrite Nat.sub_diag. }
  destruct (open_mock_run w0 d methodName td1 _ _ _ argss Htd1 Hm1 Hr)
    as (_ & _ & mc & G1 & G2 & G3 & G4 & G5); [done|done|done|simpl; lia|].
  simpl in G4, G5. exists mc. split; [done|]. split; [lia|]. split; [done|].
  unfold complete, met. simpl. unfold met. by rewrite G4.
Qed.

Lemma Invoke_stub w d name td meth s1 (c1 c1' : @stubbedMethodCall value rtype)
    (args_ vals : list value) :
  doubles w !! d = Some td -> methods td !! name = Some meth ->
  firstMatch (heap w) (calls meth) args_ = Ok (Some s1) ->
  heap w !! s1 = Some (StubCall c1) ->
  stub_spy w c1 = Ok (inl vals, c1') ->
  AssertMethodReturnValues (m meth) vals = Ok () ->
  TestDouble_Invoke d name args_ w =
    (Ok vals, {| w_tick := w_tick w; heap := <[s1 := StubCall c1']> (heap w);
                 doubles := doubles w |}).
Proof.
  intros Hd Hm Hfirst Hs1 Hspy Hassert.
  destruct (lookups_found w d name td meth Hd Hm) as (Hf & Hld & Hlm).
  rewrite Invoke_found by done.
  unfold method_invoke. unfold mbind at 1. unfold M_bind at 1.
  rewrite (method_match_found (d, name) args_ w td meth s1 Hld Hlm Hfirst).
  unfold mbind at 1. unfold M_bind at 1.
  unfold spy. unfold mbind at 1. unfold M_bind at 1. unfold get.
  rewrite Hs1. unfold mbind at 1. unfold M_bind at 1. unfold liftO at 1.
  rewrite Hspy.
  unfold_M. unfold lookupMethod, lookupDouble. simpl. rewrite Hd. simpl.
  rewrite Hm. simpl. by rewrite Hassert.
Qed.

Lemma complete_at_alloc h (obj : @MethodCall value rtype) call :
  (forall mc, obj <> MockCall mc) ->
  complete_at (h ++ [obj]) call = complete_at h call.
Proof.
  intros Hobj. unfold complete_at.
  destruct (decide (call < length h)%nat) as [Hlt|Hge].
  - by rewrite lookup_app_l.
  - rewrite (lookup_ge_None_2 h) by lia.
    destruct ((h ++ [obj]) !! call) as [o|] eqn:E; [|done].
    apply lookup_app_Some in E as [E|[_ E]]; [apply lookup_lt_Some in E; lia|].
    apply list_lookup_singleton_Some in E as [_ <-].
    destruct obj; try done. by destruct (Hobj c).
Qed.

Lemma matches_at_alloc h (obj : @MethodCall value rtype) call (args_ : list value) :
  (forall mc, obj <> MockCall mc) -> (call < length h)%nat ->
  matches_at (h ++ [obj]) call args_ = matches_at h call args_.
Proof.
  intros Hobj Hlt. unfold matches_at. rewrite lookup_app_l by done.
  destruct (h !! call) as [[s|mc|sc|fc]|]; try done.
  simpl. unfold mock_matches, inSequence.
  assert (Hseq : forall l, inSequence_loop (h ++ [obj]) l = inSequence_loop h l).
  { induction l as [|x l IH]; simpl; [done|]. by rewrite complete_at_alloc, IH. }
  by rewrite Hseq.
Qed.

Lemma Stub_registers w d name td meth :
  doubles w !! d = Some td -> methods td !! name = Some meth ->
  TestDouble_Stub d name w =
    (Ok (length (heap w)),
     {| w_tick := w_tick w;
        heap := heap w ++ [StubCall (newStubbedMethodCall (d, name))];
        doubles := <[d := setMethod td name
                            {| calls := calls meth ++ [length (heap w)];
                               m := m meth |}]> (doubles w) |}).
Proof.
  intros Hd Hm. destruct (lookups_found w d name td _ Hd Hm) as (Hf & _ & _).
  unfold TestDouble_Stub. unfold_M. rewrite Hf. simpl.
  unfold addMethodCall. simpl. by rewrite Hd, Hm.
Qed.

(** X22: a stub registered by [Stub] and set up no further matches any
    arguments and returns the default return values of its double: when no
    call registered before it matches, the invocation returns what the
    default source gives, and the stub keeps that source for the next
    invocation. *)
Theorem fresh_Stub_returns_defaults w d methodName td meth (args_ vals : list value)
    (rv' : @ReturnValues value rtype) :
  doubles w !! d = Some td -> methods td !! methodName = Some meth ->
  Forall (fun p => matches_at (heap w) p args_ = Ok false) (calls meth) ->
  Receive (defaultReturnValues td (m meth)) = (inl vals, rv') ->
  AssertMethodReturnValues (m meth) vals = Ok () ->
  let w1 := ((stub ← TestDouble_Stub d methodName;
              TestDouble_Invoke d methodName args_) w) in
  w1.1 = Ok vals /\
  exists s, heap w1.2 !! length (heap w) = Some (StubCall s) /\
    returns s = Some rv' /\ matcher s = None.
Proof.
  intros Hd Hm Hpre Hrv Hassert. cbv zeta.
  set (stub := newStubbedMethodCall (value := value) (rtype := rtype) (d, methodName)).
  set (meth1 := {| calls := calls meth ++ [length (heap w)]; m := m meth |}).
  set (td1 := setMethod td methodName meth1).
  set (w0 := {| w_tick := w_tick w; heap := heap w ++ [StubCall stub];
                doubles := <[d := td1]> (doubles w) |}).
  assert (Hd0 : doubles w0 !! d = Some td1).
  { simpl. apply list_lookup_insert_eq. by eapply lookup_lt_Some. }
  assert (Hm0 : methods td1 !! methodName = Some meth1) by apply lookup_insert_eq.
  assert (Hs0 : heap w0 !! length (heap w) = Some (StubCall stub)).
  { simpl. rewrite lookup_app_r by lia. by rewrite Nat.sub_diag. }
  assert (Hfirst : firstMatch (heap w0) (calls meth1) args_
                   = Ok (Some (length (heap w)))).
  { apply firstMatch_spec. exists (calls meth), []. split; [done|]. split.
    - eapply Forall_impl; [exact Hpre|]. intros p Hp. simpl.
      rewrite matches_at_alloc; [done|done|].
      unfold matches_at in Hp. destruct (heap w !! p) eqn:E; [|done].
      by eapply lookup_lt_Some.
    - unfold matches_at. by rewrite Hs0. }
  assert (Hspy : stub_spy w0 stub
                 = Ok (inl vals, {| method_ := (d, methodName); returns := Some rv';
                                    matcher := None |})).
  { unfold stub_spy, lookupMethod, lookupDouble.
    cbn [returns stub newStubbedMethodCall method_ fst snd].
    rewrite Hd0. cbn [mbind outcome_bind]. rewrite Hm0. cbn [mbind outcome_bind].
    unfold td1, meth1. cbn [m defaultReturnValues setMethod]. rewrite Hrv. reflexivity. }
  assert (Hrun : (stub ← TestDouble_Stub d methodName;
                  TestDouble_Invoke d methodName args_) w
                 = TestDouble_Invoke d methodName args_ w0).
  { unfold mbind at 1. unfold M_bind at 1.
    by rewrite (Stub_registers w d methodName td meth Hd Hm). }
  rewrite Hrun.
  rewrite (Invoke_stub w0 d methodName td1 meth1 _ stub _ args_ vals
             Hd0 Hm0 Hfirst Hs0 Hspy Hassert).
  cbn [fst snd]. split; [done|].
  exists {| method_ := (d, methodName); returns := Some rv'; matcher := None |}.
  split; [|split; reflexivity]. unfold w0. cbn [heap].
  apply list_lookup_insert_eq. rewrite length_app. simpl. lia.
Qed.

Lemma After_mock call (after_ : list nat) w (mc : @mockedMethodCall value rtype) :
  heap w !! call = Some (MockCall mc) ->
  After call after_ w =
    (Ok (), {| w_tick := w_tick w;
               heap := <[call := MockCall {| mock_stub := mock_stub mc; count := count mc;
                                             after := after mc ++ after_;
                                             expect := expect mc |}]> (heap w);
               doubles := doubles w |}).
Proof. intros Hc. unfold After. unfold_M. by rewrite Hc. Qed.

Lemma ExpectInOrder_down_spec (calls_ : list nat) (i : nat) : forall w,
  (i < length calls_ \/ i = 0)%nat ->
  Forall (fun call => exists mc, heap w !! call = Some (MockCall mc)) calls_ ->
  exists w', ExpectInOrder_down calls_ i w = (Ok (), w') /\
    doubles w' = doubles w /\ w_tick w' = w_tick w /\
    length (heap w') = length (heap w) /\
    (forall x obj, x ∉ calls_ -> heap w !! x = Some obj -> heap w' !! x = Some obj) /\
    (forall call mc, heap w !! call = Some (MockCall mc) ->
       exists mc', heap w' !! call = Some (MockCall mc') /\
         mock_stub mc' = mock_stub mc /\ count mc' = count mc /\
         expect mc' = expect mc /\ forall x, x ∈ after mc -> x ∈ after mc') /\
    (forall j call prev, (j < i)%nat ->
       calls_ !! S j = Some call -> calls_ !! j = Some prev ->
       exists mc', heap w' !! call = Some (MockCall mc') /\ prev ∈ after mc').
Proof.
  induction i as [|i IH]; intros w Hi Hall.
  - exists w. split; [done|]. repeat split; try done.
    + intros call mc Hc. exists mc. by repeat split.
    + intros; lia.
  - assert (Hlt : (S i < length calls_)%nat) by lia.
    destruct (lookup_lt_is_Some_2 calls_ (S i) Hlt) as [call Hcall].
    destruct (lookup_lt_is_Some_2 calls_ i ltac:(lia)) as [prev Hprev].
    simpl. rewrite Hcall, Hprev.
    rewrite Forall_lookup in Hall. destruct (Hall _ _ Hcall) as [mc Hmc].
    unfold mbind at 1. unfold M_bind at 1. rewrite (After_mock _ _ _ mc Hmc).
    set (mc1 := {| mock_stub := mock_stub mc; count := count mc;
                   after := after mc ++ [prev]; expect := expect mc |}).
    set (w1 := {| w_tick := w_tick w; heap := <[call := MockCall mc1]> (heap w);
                  doubles := doubles w |}).
    assert (Hstep : forall call0 mc0, heap w !! call0 = Some (MockCall mc0) ->
              exists mc', heap w1 !! call0 = Some (MockCall mc') /\
                mock_stub mc' = mock_stub mc0 /\ count mc' = count mc0 /\
                expect mc' = expect mc0 /\ forall x, x ∈ after mc0 -> x ∈ after mc').
    { intros call0 mc0 H0. simpl. destruct (decide (call0 = call)) as [->|Hne].
      - assert (mc0 = mc) as -> by congruence. exists mc1.
        split; [apply list_lookup_insert_eq; by eapply lookup_lt_Some|].
        repeat split. intros x Hx. simpl. apply elem_of_app. by left.
      - exists mc0. rewrite list_lookup_insert_ne by done. by repeat split. }
    destruct (IH w1) as (w' & Hrun & Hd & Ht & Hl & Hfr & Hgrow & Hseq); [lia| |].
    { apply Forall_lookup. intros k x Hx. destruct (Hall _ _ Hx) as [mcx Hmcx].
      destruct (Hstep _ _ Hmcx) as (mc' & ? & _). by exists mc'. }
    exists w'. split; [exact Hrun|]. split; [done|]. split; [done|].
    split; [rewrite Hl; simpl; by rewrite length_insert|].
    split; [|split].
    + intros x obj Hx Hobj. apply Hfr; [done|]. simpl.
      rewrite list_lookup_insert_ne; [done|]. intros ->. apply Hx.
      by eapply list_elem_of_lookup_2.
    + intros call0 mc0 H0. destruct (Hstep _ _ H0) as (mc' & H1 & E1 & E2 & E3 & E4).
      destruct (Hgrow _ _ H1) as (mc'' & H2 & F1 & F2 & F3 & F4).
      exists mc''. split; [done|]. repeat split; try congruence. auto.
    + intros j call0 prev0 Hj Hc0 Hp0. destruct (decide (j = i)) as [->|Hne].
      * assert (call0 = call) as -> by congruence.
        assert (prev0 = prev) as -> by congruence.
        assert (H1 : heap w1 !! call = Some (MockCall mc1)).
        { simpl. apply list_lookup_insert_eq. by eapply lookup_lt_Some. }
        destruct (Hgrow _ _ H1) as (mc'' & H2 & _ & _ & _ & F4).
        exists mc''. split; [done|]. apply F4. simpl. apply elem_of_app. right.
        by apply list_elem_of_singleton.
      * apply (Hseq j); [lia|done|done].
Qed.

(** X23: [ExpectInOrder] on mocks succeeds and chains them: each call but
    the first has its predecessor in the list among the calls it comes
    after, so that it matches no arguments before its predecessor is
    complete; the doubles and the call objects not in the list stay as they
    are. *)
Theorem ExpectInOrder_chains (calls_ : list nat) w :
  Forall (fun call => exists mc, heap w !! call = Some (MockCall mc)) calls_ ->
  exists w', ExpectInOrder calls_ w = (Ok (), w') /\
    doubles w' = doubles w /\
    (forall x obj, x ∉ calls_ -> heap w !! x = Some obj -> heap w' !! x = Some obj) /\
    forall j call prev,
      calls_ !! S j = Some call -> calls_ !! j = Some prev ->
      exists mc', heap w' !! call = Some (MockCall mc') /\ prev ∈ after mc' /\
        forall args_ : list value,
          matches_at (heap w') call args_ = Ok true ->
          complete_at (heap w') prev = Ok true.
Proof.
  intros Hall. unfold ExpectInOrder.
  destruct (ExpectInOrder_down_spec calls_ (length calls_ - 1) w) as
    (w' & Hrun & Hd & _ & _ & Hfr & _ & Hseq); [lia|done|].
  exists w'. split; [done|]. split; [done|]. split; [done|].
  intros j call prev Hc Hp.
  pose proof (lookup_lt_Some _ _ _ Hc) as Hlt.
  destruct (Hseq j call prev ltac:(lia) Hc Hp) as (mc' & Hmc' & Hin).
  exists mc'. split; [done|]. split; [done|].
  intros args_ Hm. unfold matches_at in Hm. rewrite Hmc' in Hm. simpl in Hm.
  apply mock_matches_iff in Hm as (_ & _ & Hafter).
  rewrite Forall_forall in Hafter. by apply Hafter.
Qed.

Lemma verifyCalls_spec h (calls_ : list nat) :
  Forall (fun call => is_Some (h !! call)) calls_ ->
  exists errs, verifyCalls h calls_ = Ok errs /\
    forall call, call ∈ errs <->
      call ∈ calls_ /\ exists mc, h !! call = Some (MockCall mc) /\ met mc = false.
Proof.
  induction 1 as [|x l [obj Hx] _ (errs & IH & Hin)]; simpl.
  - exists []. split; [done|]. intros call. split; [by intros ?%elem_of_nil|].
    by intros [?%elem_of_nil _].
  - rewrite Hx, IH. simpl. eexists. split; [reflexivity|]. intros call.
    assert (Hskip : verify obj = false ->
              call ∈ errs <->
              call ∈ x :: l /\ exists mc, h !! call = Some (MockCall mc) /\ met mc = false).
    { intros Hno. rewrite Hin, elem_of_cons. split; [intros [? ?]; auto|].
      intros [[->|Hl] (mc & Hmc & Hmet)]; [|by eauto].
      rewrite Hx in Hmc. injection Hmc as ->. simpl in Hno. by rewrite Hmet in Hno. }
    destruct (verify obj) eqn:Hv; [|by apply Hskip].
    destruct obj as [s|mc|sc|fc]; simpl in Hv; try done.
    apply negb_true_iff in Hv. rewrite !elem_of_cons, Hin. split.
    + intros [->|[Hl Hmc]]; [|by auto]. split; [by left|by exists mc].
    + intros [[->|Hl] Hmc]; [by left|by right].
Qed.

(** X24: in a world reached from the initial one, [TestDouble.Verify]
    returns, without a panic, and reports exactly the registered mocks
    whose expectation is not met: a stub, a spy or a fake is never
    reported. *)
Theorem Verify_reports_unmet_mocks (ops : list (@op value rtype)) w d td :
  w = run ops initial ->
  doubles w !! d = Some td ->
  exists errs, TestDouble_Verify w d = Ok errs /\
    forall call, call ∈ errs <->
      exists name meth mc,
        methods td !! name = Some meth /\ call ∈ calls meth /\
        heap w !! call = Some (MockCall mc) /\ met mc = false.
Proof.
  intros -> Hd.
  assert (Hreg : forall name meth call,
            methods td !! name = Some meth -> call ∈ calls meth ->
            is_Some (heap (run ops initial) !! call))
    by (intros name meth call; by apply (run_registered_allocated ops d td)).
  unfold TestDouble_Verify, lookupDouble. rewrite Hd. simpl.
  set (all := flat_map (fun nm : string * @method rtype => calls nm.2)
                (map_to_list (methods td))).
  assert (Hall : forall call, call ∈ all <->
            exists name meth, methods td !! name = Some meth /\ call ∈ calls meth).
  { intros call. unfold all. rewrite list_elem_of_In, in_flat_map. split.
    - intros ([name meth] & Hnm & Hc). exists name, meth.
      apply list_elem_of_In, elem_of_map_to_list in Hnm.
      split; [done|]. by apply list_elem_of_In.
    - intros (name & meth & Hm & Hc). exists (name, meth).
      split; [by apply list_elem_of_In, elem_of_map_to_list|by apply list_elem_of_In]. }
  destruct (verifyCalls_spec (heap (run ops initial)) all) as (errs & Hv & Hin).
  { apply Forall_forall. intros call Hc. apply Hall in Hc as (name & meth & Hm & Hc).
    by eapply Hreg. }
  exists errs. split; [done|]. intros call. rewrite Hin, Hall. split.
  - intros [(name & meth & Hm & Hc) (mc & Hh & Hmet)]. by exists name, meth, mc.
  - intros (name & meth & mc & Hm & Hc & Hh & Hmet).
    split; [by exists name, meth|by exists mc].
Qed.

(** ** Views *)

Lemma spy_Slice_recorded td v (from to : Z) :
  0 <= from -> from <= to ->
  exists v', spy_Slice td v from to = Ok v' /\
    recorded v' = take (Z.to_nat (to - from)) (drop (Z.to_nat from) (recorded v)).
Proof.
  intros Hf Ht. unfold spy_Slice. rewrite decide_False by lia.
  case_decide as H1; simpl.
  - eexists. split; [reflexivity|]. rewrite recorded_newSubset.
    rewrite drop_ge by lia. by rewrite take_nil.
  - case_decide as H2; simpl.
    + rewrite go_slice_Ok by lia. simpl. eexists. split; [reflexivity|].
      rewrite recorded_newSubset.
      rewrite !take_ge; [done|rewrite length_drop; lia|rewrite length_drop; lia].
    + rewrite go_slice_Ok by lia. simpl. eexists. split; [reflexivity|done].
Qed.

(** X25: a [Slice] of a [Slice] is a [Slice]: for valid bounds, with the
    inner bounds within the length asked of the outer one,
    [v.Slice(a,b).Slice(c,d)] has the recorded calls of
    [v.Slice(a+c,a+d)]. *)
Theorem Slice_of_Slice td v (a b c0 d0 : Z) :
  0 <= a <= b -> 0 <= c0 <= d0 -> d0 <= b - a ->
  exists v1 v2 v3,
    spy_Slice td v a b = Ok v1 /\ spy_Slice td v1 c0 d0 = Ok v2 /\
    spy_Slice td v (a + c0) (a + d0) = Ok v3 /\
    recorded v2 = recorded v3.
Proof.
  intros Hab Hcd Hd.
  destruct (spy_Slice_recorded td v a b) as (v1 & Hv1 & Hr1); [lia|lia|].
  destruct (spy_Slice_recorded td v1 c0 d0) as (v2 & Hv2 & Hr2); [lia|lia|].
  destruct (spy_Slice_recorded td v (a + c0) (a + d0)) as (v3 & Hv3 & Hr3); [lia|lia|].
  exists v1, v2, v3. repeat split; try done.
  rewrite Hr2, Hr1, Hr3.
  replace (Z.to_nat (b - a)) with (Z.to_nat c0 + Z.to_nat (b - a - c0))%nat by lia.
  rewrite <- take_drop_commute, drop_drop, take_take.
  replace (Z.to_nat (a + c0)) with (Z.to_nat a + Z.to_nat c0)%nat by lia.
  f_equal. lia.
Qed.

Lemma matchingCalls_filter (mt : @Matcher value) (l sub : list (@recordedCall value)) :
  matchingCalls mt l = Ok sub ->
  sub = List.filter (fun rc => match Matches mt (args rc) with
                               | Ok true => true
                               | _ => false
                               end) l /\
  Forall (fun rc => is_Ok (Matches mt (args rc)) = true) l.
Proof.
  revert sub. induction l as [|call l IH]; intros sub; simpl.
  - intros [= <-]. split; [done|constructor].
  - destruct (Matches mt (args call)) as [b| |] eqn:E; simpl; try done.
    destruct (matchingCalls mt l) as [sub'| |]; simpl; try done.
    intros [= <-]. destruct (IH sub' eq_refl) as [-> Hall].
    split; [by destruct b|]. constructor; [by rewrite E|done].
Qed.

(** X26: [Matching] on a view gives the recorded calls of the view that
    the matcher made for the method from the given matchers matches, in
    their order, and no more calls than the view has. *)
Theorem Matching_filters td v (matchers : list (@rawInput value rtype)) v1 :
  spy_Matching td v matchers = Ok v1 ->
  exists meth mt,
    methods td !! (method_ (spy_stub v)).2 = Some meth /\
    d_matcher td (m meth) None matchers = Ok mt /\
    recorded v1 = List.filter (fun rc => match Matches mt (args rc) with
                                         | Ok true => true
                                         | _ => false
                                         end) (recorded v) /\
    (forall rc, rc ∈ recorded v1 <->
                rc ∈ recorded v /\ Matches mt (args rc) = Ok true) /\
    NumCalls v1 <= NumCalls v.
Proof.
  unfold spy_Matching.
  destruct (methods td !! _) as [meth|] eqn:Hm; [|done].
  destruct (d_matcher _ _ _ _) as [mt| |] eqn:Hmt; simpl; try done.
  destruct (matchingCalls mt (recorded v)) as [sub| |] eqn:Hsub; simpl; try done.
  intros [= <-]. exists meth, mt. rewrite recorded_newSubset.
  destruct (matchingCalls_filter mt _ _ Hsub) as [Hf Hall].
  assert (Hin : forall rc, rc ∈ sub <->
                  rc ∈ recorded v /\ Matches mt (args rc) = Ok true).
  { intros rc. rewrite Hf, !list_elem_of_In, filter_In.
    destruct (Matches mt (args rc)) as [[]| |]; intuition congruence. }
  split; [done|]. split; [done|]. split; [done|]. split; [done|].
  unfold NumCalls. simpl. apply matchingCalls_sublist, sublist_length in Hsub. lia.
Qed.

Lemma maxTick_take_ordered (l : list (@recordedCall value)) (k : nat) x :
  tickOrdered l -> l !! k = Some x -> maxTick (take (S k) l) = Some (tick x).
Proof.
  intros Hs Hk. rewrite (take_S_r _ _ _ Hk).
  apply maxTick_snoc_ordered. rewrite <- (take_S_r _ _ _ Hk).
  eapply tickOrdered_sublist; [apply sublist_take|done].
Qed.

(** X27: [Slice] and [After] agree: in a world reached by fewer than 2^64
    operations, for a view [v] and [k] from 0 to its number of calls, the
    calls of [v] after those of [v.Slice(0,k)] are those of
    [v.Slice(k,NumCalls)], and the two parts make up [v]. *)
Theorem After_Slice_partition (ops : list (@op value rtype)) w td v (k : Z) :
  Z.of_nat (length ops) < uint64_modulus ->
  w = run ops initial ->
  viewOf w v -> 0 <= k <= NumCalls v ->
  exists u v1 v2,
    spy_Slice td v 0 k = Ok u /\ spy_After td v u = Ok v1 /\
    spy_Slice td v k (NumCalls v) = Ok v2 /\
    recorded v1 = recorded v2 /\ recorded u ++ recorded v1 = recorded v.
Proof.
  intros Hlen -> Hv Hk. unfold NumCalls in *.
  assert (Hs : tickOrdered (recorded v)).
  { eapply viewOf_tickOrdered; [|exact Hv]. by apply run_ticksInv. }
  destruct (spy_Slice_recorded td v 0 k) as (u & Hu & Hru); [lia|lia|].
  destruct (spy_Slice_recorded td v k (Z.of_nat (length (recorded v))))
    as (v2 & Hv2 & Hr2); [lia|lia|].
  rewrite drop_0, Z.sub_0_r in Hru.
  rewrite take_ge in Hr2 by (rewrite length_drop; lia).
  assert (Hsu : tickOrdered (recorded u)).
  { rewrite Hru. eapply tickOrdered_sublist; [apply sublist_take|done]. }
  destruct (spy_After_ordered td v u Hs Hsu) as (v1 & Hv1 & Hr1).
  exists u, v1, v2. split; [done|]. split; [done|]. split; [done|].
  assert (Hv12 : recorded v1 = drop (Z.to_nat k) (recorded v)).
  { rewrite Hr1, Hru. destruct (Z.to_nat k) as [|k'] eqn:Ek.
    - by rewrite take_0, drop_0.
    - destruct (lookup_lt_is_Some_2 (recorded v) k' ltac:(lia)) as [x Hx].
      rewrite (maxTick_take_ordered _ _ x Hs Hx).
      apply filter_drop_partition.
      + intros i rc Hi Hlt. destruct (decide (i = k')) as [->|Hne].
        * assert (rc = x) as -> by congruence. lia.
        * pose proof (tickOrdered_lookup_lt _ i k' rc x Hs Hi Hx ltac:(lia)). lia.
      + intros i rc Hi Hle.
        pose proof (tickOrdered_lookup_lt _ k' i x rc Hs Hx Hi ltac:(lia)). lia. }
  split; [congruence|]. rewrite Hv12, Hru. apply take_drop.
Qed.

Lemma balanced_nil : balanced [].
Proof. intros rest i depth rewinds sb. by exists i, depth, sb. Qed.

Lemma balanced_app (l1 l2 : list string) :
  balanced l1 -> balanced l2 -> balanced (l1 ++ l2).
Proof.
  intros H1 H2 rest i depth rewinds sb. rewrite <- app_assoc.
  destruct (H1 (l2 ++ rest) i depth rewinds sb) as (i1 & d1 & sb1 & ->).
  apply H2.
Qed.

Lemma balanced_text (s : string) : s <> ">>" -> s <> "<<" -> balanced [s].
Proof.
  intros Hs1 Hs2 rest i depth rewinds sb. simpl.
  rewrite !decide_False by done. by eexists _, _, _.
Qed.

Lemma balanced_nested (l : list string) :
  balanced l -> balanced (">>" :: l ++ ["<<"]).
Proof.
  intros Hl rest i depth rewinds sb. simpl. rewrite <- app_assoc.
  destruct (Hl (["<<"] ++ rest) (S i) depth (depth :: rewinds) sb)
    as (i1 & d1 & sb1 & ->).
  simpl. by eexists _, _, _.
Qed.

Lemma balanced_Ok (l : list string) :
  balanced l -> exists s, String_loop l 0 0 [] EmptyString = Ok s.
Proof.
  intros Hl. destruct (Hl [] 0%nat 0 [] EmptyString) as (i & d0 & sb & Heq).
  rewrite app_nil_r in Heq. rewrite Heq. by eexists.
Qed.

Lemma balanced_all_calls (s : string) : balanced ["all calls to " +:+ s].
Proof. by apply balanced_text. Qed.

Lemma balanced_newSubset td v calls_ desc :
  desc <> [] -> balanced desc -> balanced (subsets v) ->
  balanced (subsets (newSubset td v calls_ desc)).
Proof.
  intros Hne Hd Hv. unfold newSubset, newSpyMethodCall. simpl.
  destruct (desc ++ subsets v) eqn:E.
  - by destruct desc.
  - rewrite <- E. by apply balanced_app.
Qed.

Lemma descsKept_same w w' :
  subsetsOf <$> heap w' = subsetsOf <$> heap w -> descsKept w w'.
Proof. intros Heq. exists []. by rewrite app_nil_r. Qed.

Lemma descsKept_refl w : descsKept w w.
Proof. by apply descsKept_same. Qed.

Lemma descsKept_trans w1 w2 w3 : descsKept w1 w2 -> descsKept w2 w3 -> descsKept w1 w3.
Proof.
  intros (n1 & H1 & F1) (n2 & H2 & F2). exists (n1 ++ n2).
  rewrite H2, H1, app_assoc. split; [done|]. by apply Forall_app.
Qed.

Lemma fmap_insert_same {A B} (f : A -> B) (l : list A) (i : nat) (x y : A) :
  l !! i = Some x -> f y = f x -> f <$> <[i := y]> l = f <$> l.
Proof.
  intros Hi Hf. rewrite list_fmap_insert. apply list_insert_id.
  rewrite list_lookup_fmap, Hi. simpl. congruence.
Qed.

Lemma spy_descs call (args_ : list value) w :
  subsetsOf <$> heap (spy call args_ w).2 = subsetsOf <$> heap w.
Proof.
  unfold spy. unfold_M.
  destruct (heap w !! call) as [[s|mc|sc|fc]|] eqn:Hcall; simpl; [| | | |done].
  - destruct (stub_spy w s) as [[res s']| |]; simpl; try done.
    by apply (fmap_insert_same _ _ _ (StubCall s)).
  - destruct (stub_spy w _) as [[res s']| |]; simpl;
      rewrite ?list_insert_insert_eq; by apply (fmap_insert_same _ _ _ (MockCall mc)).
  - destruct (stub_spy w _) as [[res s']| |]; simpl;
      rewrite ?list_insert_insert_eq; by apply (fmap_insert_same _ _ _ (SpyCall sc)).
  - destruct (fake_call _ _) as [res| |]; simpl;
      by apply (fmap_insert_same _ _ _ (FakeCall fc)).
Qed.

Lemma made_descs td mr meth mc (obj : @MethodCall value rtype) :
  made td mr meth mc = Ok obj ->
  subsetsOf obj = [] \/ exists s, subsetsOf obj = ["all calls to " +:+ s].
Proof.
  destruct mc as [rv mt|rv mt after_ expect_|rv|impl_]; simpl; intros Hc;
    try (injection Hc as <-); auto.
  - right. by eexists.
  - unfold newFakeMethodCall in Hc. destruct (TypeOf impl_); simpl in Hc; [|done].
    destruct (AssertMethodInputs _ _); simpl in Hc; try done.
    destruct (AssertMethodOutputs _ _); simpl in Hc; try done.
    injection Hc as <-. right. by eexists.
Qed.

Lemma descsKept_alloc w w' (obj : @MethodCall value rtype) :
  heap w' = heap w ++ [obj] ->
  (subsetsOf obj = [] \/ exists s, subsetsOf obj = ["all calls to " +:+ s]) ->
  descsKept w w'.
Proof.
  intros Hh Hobj. exists [subsetsOf obj]. rewrite Hh, fmap_app. split; [done|].
  by constructor.
Qed.

Lemma register_descs mr (obj : @MethodCall value rtype) w :
  (subsetsOf obj = [] \/ exists s, subsetsOf obj = ["all calls to " +:+ s]) ->
  descsKept w ((call ← alloc obj; _ ← addMethodCall mr call; mret call) w).2.
Proof.
  intros Hobj. unfold_M.
  match goal with |- context [addMethodCall ?a ?b ?c] =>
    destruct (addMethodCall_effect a b c) as [_ Hh];
    destruct (addMethodCall a b c) as [[[]| |] w2] end; simpl in *;
    by apply (descsKept_alloc _ _ obj).
Qed.

Lemma method_match_descs mr (args_ : list value) w :
  descsKept w (method_match mr args_ w).2.
Proof.
  unfold method_match. unfold mbind at 1 2 3 4. unfold M_bind, get, liftO.
  destruct (lookupDouble w mr.1) as [td| |]; simpl; try apply descsKept_refl.
  destruct (lookupMethod w mr) as [meth| |]; simpl; try apply descsKept_refl.
  destruct (firstMatch _ _ _) as [[possible|]| |]; simpl; try apply descsKept_refl.
  destruct (defaultCall td mr) as [mc|]; simpl; try apply descsKept_refl.
  unfold mbind at 1. unfold M_bind.
  destruct (made td mr meth mc) as [obj| |] eqn:Hmade; simpl; try apply descsKept_refl.
  apply made_descs in Hmade. unfold_M.
  match goal with |- context [matches_at ?a ?b ?c] =>
    destruct (matches_at a b c) as [[]| |] end; simpl;
    try (by apply (descsKept_alloc _ _ obj)).
  match goal with |- context [addMethodCall ?a ?b ?c] =>
    destruct (addMethodCall_effect a b c) as [_ Hh];
    destruct (addMethodCall a b c) as [[[]| |] w2] end; simpl in *;
    by apply (descsKept_alloc _ _ obj).
Qed.

Lemma Invoke_descs d name (args_ : list value) w :
  descsKept w (TestDouble_Invoke d name args_ w).2.
Proof.
  destruct (TestDouble_Invoke_state d name args_ w) as [->| ->];
    [apply descsKept_refl|].
  rewrite method_invoke_state.
  pose proof (method_match_descs (d, name) args_ w) as Hext.
  destruct (method_match (d, name) args_ w) as [[matched| |] w1]; simpl in *;
    try exact Hext.
  eapply descsKept_trans; [exact Hext|]. apply descsKept_same, spy_descs.
Qed.

Lemma subsetsOf_withStub (obj : @MethodCall value rtype) s :
  subsetsOf (withStub obj s) = subsetsOf obj.
Proof. by destruct obj. Qed.

Lemma run_op_descs (o : @op value rtype) w : descsKept w (run_op o w).
Proof.
  destruct o; simpl.
  - by apply descsKept_same.
  - unfold TestDouble_Stub. unfold mbind at 1 2. unfold M_bind, get, liftO.
    destruct (found w d methodName) as [[]| |]; simpl; try apply descsKept_refl.
    apply register_descs. by left.
  - unfold TestDouble_Mock. unfold mbind at 1 2. unfold M_bind, get, liftO.
    destruct (found w d methodName) as [[]| |]; simpl; try apply descsKept_refl.
    apply register_descs. by left.
  - unfold TestDouble_Spy. unfold mbind at 1 2 3 4. unfold M_bind, get, liftO.
    destruct (found w d methodName) as [[]| |]; simpl; try apply descsKept_refl.
    destruct (lookupDouble w d); simpl; try apply descsKept_refl.
    destruct (lookupMethod w _); simpl; try apply descsKept_refl.
    destruct (firstSpy _ _); simpl; try apply descsKept_refl.
    apply register_descs. right. by eexists.
  - unfold TestDouble_Fake. unfold mbind at 1 2 3 4. unfold M_bind, get, liftO.
    destruct (found w d methodName) as [[]| |]; simpl; try apply descsKept_refl.
    destruct (lookupDouble w d) as [td| |]; simpl; try apply descsKept_refl.
    destruct (lookupMethod w _) as [meth| |]; simpl; try apply descsKept_refl.
    destruct (firstSpy _ _); simpl; try apply descsKept_refl.
    unfold mbind at 1. unfold M_bind.
    match goal with |- context [newFakeMethodCall ?a ?b ?c0 ?i] =>
      pose proof (made_descs td b c0 (MadeFake i)) as Hmade;
      destruct (newFakeMethodCall a b c0 i) as [fc| |] eqn:Hc end; simpl;
      try apply descsKept_refl.
    apply register_descs. apply Hmade. simpl. by rewrite Hc.
  - unfold Returning. unfold_M.
    destruct (heap w !! call) as [obj|] eqn:Hcall; simpl; try apply descsKept_refl.
    destruct (lookupDouble w _); simpl; try apply descsKept_refl.
    destruct (lookupMethod w _); simpl; try apply descsKept_refl.
    destruct (d_returns _ _ _ _); simpl; try apply descsKept_refl.
    apply descsKept_same. simpl.
    apply (fmap_insert_same _ _ _ obj); [done|]. apply subsetsOf_withStub.
  - unfold Matching. unfold_M.
    destruct (heap w !! call) as [[s|mc|sc|fc]|] eqn:Hcall; simpl;
      try apply descsKept_refl.
    all: destruct (lookupDouble w _); simpl; try apply descsKept_refl.
    all: destruct (lookupMethod w _); simpl; try apply descsKept_refl.
    all: destruct (d_matcher _ _ _ _); simpl; try apply descsKept_refl.
    all: apply descsKept_same; simpl.
    + by apply (fmap_insert_same _ _ _ (StubCall s)).
    + by apply (fmap_insert_same _ _ _ (MockCall mc)).
  - unfold After. unfold_M.
    destruct (heap w !! call) as [[s|mc|sc|fc]|] eqn:Hcall; simpl;
      try apply descsKept_refl.
    apply descsKept_same; simpl. by apply (fmap_insert_same _ _ _ (MockCall mc)).
  - unfold Expect. unfold_M.
    destruct (heap w !! call) as [[s|mc|sc|fc]|] eqn:Hcall; simpl;
      try apply descsKept_refl.
    apply descsKept_same; simpl. by apply (fmap_insert_same _ _ _ (MockCall mc)).
  - apply Invoke_descs.
Qed.

Lemma run_descs_balanced (ops : list (@op value rtype)) :
  Forall balanced (subsetsOf <$> heap (run ops initial)).
Proof.
  induction ops as [|o ops IH] using rev_ind; [constructor|].
  rewrite run_snoc. destruct (run_op_descs o (run ops initial)) as (news & -> & Hn).
  apply Forall_app. split; [done|].
  eapply Forall_impl; [exact Hn|]. intros l [->|[s ->]];
    [apply balanced_nil|apply balanced_all_calls].
Qed.

Lemma viewOf_balanced w v :
  Forall balanced (subsetsOf <$> heap w) -> viewOf w v -> balanced (subsets v).
Proof.
  intros Hinv. induction 1 as [call obj v Hc Hv|td v ms v' _ IH Hm|td v from to v' _ IH Hs
                  |td v u v' _ IHv _ IHu Ha].
  - assert (Hobj : subsetsOf obj = subsets v) by (unfold subsetsOf; by rewrite Hv).
    rewrite Forall_lookup in Hinv. apply (Hinv call).
    by rewrite list_lookup_fmap, Hc, <- Hobj.
  - unfold spy_Matching in Hm. destruct (methods td !! _); [|done].
    destruct (d_matcher _ _ _ _) as [mt| |]; simpl in Hm; try done.
    destruct (matchingCalls mt (recorded v)) as [sub| |]; simpl in Hm; try done.
    injection Hm as <-. apply balanced_newSubset; [done| |done].
    by apply balanced_text.
  - unfold spy_Slice in Hs. case_decide; [done|].
    destruct (if decide (from > _) then _ else _) as [[sub desc]| |]; simpl in Hs;
      try done.
    injection Hs as <-. apply balanced_newSubset; [done| |done].
    by apply balanced_text.
  - unfold spy_After in Ha.
    destruct (if decide (_ > 0) then _ else _) as [sub| |]; simpl in Ha; try done.
    injection Ha as <-. apply balanced_newSubset; [done| |done].
    apply (balanced_app ["calls after"]); [by apply balanced_text|].
    rewrite (app_assoc _ ["<<"] ["within"]).
    apply (balanced_app (">>" :: subsets u ++ ["<<"]) ["within"]);
      [by apply balanced_nested|by apply balanced_text].
Qed.

(** X28: [String] of a view never panics: in the descriptions of every
    registered spy or fake and of every view derived by [Matching], [Slice]
    and [After], each ["<<"] follows a [">>"] that saved a depth, so that
    [rewinds[0]] is never read from an empty slice. *)
Theorem String_never_panics (ops : list (@op value rtype)) w v :
  w = run ops initial -> viewOf w v -> exists s, spy_String v = Ok s.
Proof.
  intros -> Hv. apply balanced_Ok.
  eapply viewOf_balanced; [apply run_descs_balanced|exact Hv].
Qed.

(** * Call objects across operations *)

(** ** The types of the call objects and the first spy of a method *)

Lemma kindsKept_same w w' :
  kindOf <$> heap w' = kindOf <$> heap w -> kindsKept w w'.
Proof. intros Heq. unfold kindsKept. by rewrite Heq. Qed.

Lemma kindsKept_refl w : kindsKept w w.
Proof. by apply kindsKept_same. Qed.

Lemma kindsKept_trans w1 w2 w3 : kindsKept w1 w2 -> kindsKept w2 w3 -> kindsKept w1 w3.
Proof. unfold kindsKept. intros H1 H2. by etrans. Qed.

Lemma kindsKept_alloc w w' (obj : @MethodCall value rtype) :
  heap w' = heap w ++ [obj] -> kindsKept w w'.
Proof. intros Hh. unfold kindsKept. rewrite Hh, fmap_app. by apply prefix_app_r. Qed.

Lemma spy_kinds call (args_ : list value) w :
  kindOf <$> heap (spy call args_ w).2 = kindOf <$> heap w.
Proof.
  unfold spy. unfold_M.
  destruct (heap w !! call) as [[s|mc|sc|fc]|] eqn:Hcall; simpl; [| | | |done].
  - destruct (stub_spy w s) as [[res s']| |]; simpl; try done.
    by apply (fmap_insert_same _ _ _ (StubCall s)).
  - destruct (stub_spy w _) as [[res s']| |]; simpl;
      rewrite ?list_insert_insert_eq; by apply (fmap_insert_same _ _ _ (MockCall mc)).
  - destruct (stub_spy w _) as [[res s']| |]; simpl;
      rewrite ?list_insert_insert_eq; by apply (fmap_insert_same _ _ _ (SpyCall sc)).
  - destruct (fake_call _ _) as [res| |]; simpl;
      by apply (fmap_insert_same _ _ _ (FakeCall fc)).
Qed.

Lemma register_kinds mr (obj : @MethodCall value rtype) w :
  kindsKept w ((call ← alloc obj; _ ← addMethodCall mr call; mret call) w).2.
Proof.
  unfold_M.
  match goal with |- context [addMethodCall ?a ?b ?c] =>
    destruct (addMethodCall_effect a b c) as [_ Hh];
    destruct (addMethodCall a b c) as [[[]| |] w2] end; simpl in *;
    by apply (kindsKept_alloc _ _ obj).
Qed.

Lemma method_match_kinds mr (args_ : list value) w :
  kindsKept w (method_match mr args_ w).2.
Proof.
  unfold method_match. unfold mbind at 1 2 3 4. unfold M_bind, get, liftO.
  destruct (lookupDouble w mr.1) as [td| |]; simpl; try apply kindsKept_refl.
  destruct (lookupMethod w mr) as [meth| |]; simpl; try apply kindsKept_refl.
  destruct (firstMatch _ _ _) as [[possible|]| |]; simpl; try apply kindsKept_refl.
  destruct (defaultCall td mr) as [mc|]; simpl; try apply kindsKept_refl.
  unfold mbind at 1. unfold M_bind.
  destruct (made td mr meth mc) as [obj| |] eqn:Hmade; simpl; try apply kindsKept_refl.
  unfold_M.
  match goal with |- context [matches_at ?a ?b ?c] =>
    destruct (matches_at a b c) as [[]| |] end; simpl;
    try (by apply (kindsKept_alloc _ _ obj)).
  match goal with |- context [addMethodCall ?a ?b ?c] =>
    destruct (addMethodCall_effect a b c) as [_ Hh];
    destruct (addMethodCall a b c) as [[[]| |] w2] end; simpl in *;
    by apply (kindsKept_alloc _ _ obj).
Qed.

Lemma Invoke_kinds d name (args_ : list value) w :
  kindsKept w (TestDouble_Invoke d name args_ w).2.
Proof.
  destruct (TestDouble_Invoke_state d name args_ w) as [->| ->];
    [apply kindsKept_refl|].
  rewrite method_invoke_state.
  pose proof (method_match_kinds (d, name) args_ w) as Hext.
  destruct (method_match (d, name) args_ w) as [[matched| |] w1]; simpl in *;
    try exact Hext.
  eapply kindsKept_trans; [exact Hext|]. apply kindsKept_same, spy_kinds.
Qed.

Lemma kindOf_withStub (obj : @MethodCall value rtype) s :
  kindOf (withStub obj s) = kindOf obj.
Proof. by destruct obj. Qed.

Lemma run_op_kinds (o : @op value rtype) w : kindsKept w (run_op o w).
Proof.
  destruct o; simpl.
  - by apply kindsKept_same.
  - unfold TestDouble_Stub. unfold mbind at 1 2. unfold M_bind, get, liftO.
    destruct (found w d methodName) as [[]| |]; simpl; try apply kindsKept_refl.
    apply register_kinds.
  - unfold TestDouble_Mock. unfold mbind at 1 2. unfold M_bind, get, liftO.
    destruct (found w d methodName) as [[]| |]; simpl; try apply kindsKept_refl.
    apply register_kinds.
  - unfold TestDouble_Spy. unfold mbind at 1 2 3 4. unfold M_bind, get, liftO.
    destruct (found w d methodName) as [[]| |]; simpl; try apply kindsKept_refl.
    destruct (lookupDouble w d); simpl; try apply kindsKept_refl.
    destruct (lookupMethod w _); simpl; try apply kindsKept_refl.
    destruct (firstSpy _ _); simpl; try apply kindsKept_refl.
    apply register_kinds.
  - unfold TestDouble_Fake. unfold mbind at 1 2 3 4. unfold M_bind, get, liftO.
    destruct (found w d methodName) as [[]| |]; simpl; try apply kindsKept_refl.
    destruct (lookupDouble w d) as [td| |]; simpl; try apply kindsKept_refl.
    destruct (lookupMethod w _) as [meth| |]; simpl; try apply kindsKept_refl.
    destruct (firstSpy _ _); simpl; try apply kindsKept_refl.
    unfold mbind at 1. unfold M_bind.
    destruct (newFakeMethodCall _ _ _ _) as [fc| |]; simpl; try apply kindsKept_refl.
    apply register_kinds.
  - unfold Returning. unfold_M.
    destruct (heap w !! call) as [obj|] eqn:Hcall; simpl; try apply kindsKept_refl.
    destruct (lookupDouble w _); simpl; try apply kindsKept_refl.
    destruct (lookupMethod w _); simpl; try apply kindsKept_refl.
    destruct (d_returns _ _ _ _); simpl; try apply kindsKept_refl.
    apply kindsKept_same. simpl.
    apply (fmap_insert_same _ _ _ obj); [done|]. apply kindOf_withStub.
  - unfold Matching. unfold_M.
    destruct (heap w !! call) as [[s|mc|sc|fc]|] eqn:Hcall; simpl;
      try apply kindsKept_refl.
    all: destruct (lookupDouble w _); simpl; try apply kindsKept_refl.
    all: destruct (lookupMethod w _); simpl; try apply kindsKept_refl.
    all: destruct (d_matcher _ _ _ _); simpl; try apply kindsKept_refl.
    all: apply kindsKept_same; simpl.
    + by apply (fmap_insert_same _ _ _ (StubCall s)).
    + by apply (fmap_insert_same _ _ _ (MockCall mc)).
  - unfold After. unfold_M.
    destruct (heap w !! call) as [[s|mc|sc|fc]|] eqn:Hcall; simpl;
      try apply kindsKept_refl.
    apply kindsKept_same; simpl. by apply (fmap_insert_same _ _ _ (MockCall mc)).
  - unfold Expect. unfold_M.
    destruct (heap w !! call) as [[s|mc|sc|fc]|] eqn:Hcall; simpl;
      try apply kindsKept_refl.
    apply kindsKept_same; simpl. by apply (fmap_insert_same _ _ _ (MockCall mc)).
  - apply Invoke_kinds.
Qed.

Lemma run_kinds (ops : list (@op value rtype)) w : kindsKept w (run ops w).
Proof.
  induction ops as [|o ops IH] using rev_ind; [apply kindsKept_refl|].
  rewrite run_snoc. eapply kindsKept_trans; [exact IH|]. apply run_op_kinds.
Qed.

Lemma kindsKept_lookup w w' call (obj : @MethodCall value rtype) :
  kindsKept w w' -> heap w !! call = Some obj ->
  exists obj', heap w' !! call = Some obj' /\ kindOf obj' = kindOf obj.
Proof.
  intros [k Hk] Hobj.
  assert (Hl : (kindOf <$> heap w') !! call = Some (kindOf obj)).
  { rewrite Hk. apply lookup_app_l_Some. by rewrite list_lookup_fmap, Hobj. }
  rewrite list_lookup_fmap in Hl.
  destruct (heap w' !! call) as [obj'|]; simpl in Hl; [|done].
  exists obj'. split; [done|]. congruence.
Qed.

Lemma kindOf_isSpy h h' call (obj obj' : @MethodCall value rtype) :
  h !! call = Some obj -> h' !! call = Some obj' -> kindOf obj' = kindOf obj ->
  isSpyMethodCall h' call = isSpyMethodCall h call.
Proof.
  intros Ho Ho' Hk. unfold isSpyMethodCall. rewrite Ho, Ho'.
  by destruct obj, obj'.
Qed.

(** The first spy registration of a method stays the first while the calls
    of the method are appended to and the call objects keep their types. *)
Lemma firstSpy_kept w w' (calls_ news : list nat) spy1 :
  kindsKept w w' -> Forall (fun call => (call < length (heap w))%nat) calls_ ->
  firstSpy (heap w) calls_ = Some spy1 ->
  firstSpy (heap w') (calls_ ++ news) = Some spy1.
Proof.
  intros Hk Hall. induction Hall as [|x calls_ Hx _ IH]; simpl; [done|].
  apply lookup_lt_is_Some in Hx as [obj Hobj].
  destruct (kindsKept_lookup w w' x obj Hk Hobj) as (obj' & Hobj' & Hkind).
  rewrite (kindOf_isSpy (heap w) (heap w') x obj obj' Hobj Hobj' Hkind).
  by destruct (isSpyMethodCall (heap w) x).
Qed.

Lemma run_allocated (ops : list (@op value rtype)) w :
  registrationsAllocated w -> registrationsAllocated (run ops w).
Proof.
  intros Hw d td' name meth' call Hd' Hm' Hc.
  destruct (run_extends ops w) as (Hlen & Hext & Hnew).
  destruct (doubles w !! d) as [td|] eqn:Hd.
  - destruct (Hext d td Hd) as (td'' & Hd'' & Hms).
    rewrite Hd' in Hd''. injection Hd'' as <-.
    specialize (Hms name). rewrite Hm' in Hms.
    inversion Hms as [meth ? [_ (news & Hcalls & Hnews)] E1 E2|]; subst.
    rewrite Hcalls in Hc. apply elem_of_app in Hc as [Hc|Hc].
    + pose proof (Hw d td name meth call Hd (eq_sym E1) Hc). lia.
    + rewrite Forall_forall in Hnews. by apply Hnews.
  - by apply (Hnew d td' Hd Hd' name meth').
Qed.

Lemma initial_allocated : registrationsAllocated (@initial value rtype).
Proof. intros d td name meth call Hd. done. Qed.

(** Once a method has a first spy registration, it has the same one after
    any operations. *)
Lemma firstSpy_run (ops : list (@op value rtype)) w d name td meth spy1 :
  registrationsAllocated w ->
  doubles w !! d = Some td -> methods td !! name = Some meth ->
  firstSpy (heap w) (calls meth) = Some spy1 ->
  exists td' meth',
    doubles (run ops w) !! d = Some td' /\ methods td' !! name = Some meth' /\
    firstSpy (heap (run ops w)) (calls meth') = Some spy1.
Proof.
  intros Hw Hd Hm Hfirst.
  destruct (run_extends ops w) as (_ & Hext & _).
  destruct (Hext d td Hd) as (td' & Hd' & Hms).
  specialize (Hms name). rewrite Hm in Hms.
  inversion Hms as [? meth' [_ (news & Hcalls & _)] E1 E2|]; subst.
  exists td', meth'. split; [done|]. split; [done|].
  rewrite Hcalls. apply (firstSpy_kept w); [apply run_kinds| |done].
  apply Forall_forall. intros call Hc. by apply (Hw d td name meth).
Qed.

(** A recorded-call log is only appended to. *)
Lemma logEffect_prefix w w' call l :
  logEffect w w' -> logs w !! call = Some l ->
  exists l', logs w' !! call = Some l' /\ l `prefix_of` l'.
Proof.
  intros (k & [[_ Hl]|(_ & call' & l0 & a & Hc' & Hl)]) Hcall; simpl in *.
  - exists l. split; [|done]. rewrite Hl. by apply lookup_app_l_Some.
  - rewrite Hl. destruct (decide (call = call')) as [->|Hne].
    + rewrite (lookup_app_l_Some _ _ _ _ Hcall) in Hc'. injection Hc' as <-.
      exists (l ++ [{| tick := w_tick w'; args := a |}]). split; [|by apply prefix_app_r].
      apply list_lookup_insert_eq. rewrite length_app.
      apply lookup_lt_Some in Hcall. lia.
    + exists l. split; [|done]. rewrite list_lookup_insert_ne by done.
      by apply lookup_app_l_Some.
Qed.

Lemma run_logs_prefix (ops : list (@op value rtype)) w call l :
  logs w !! call = Some l ->
  exists l', logs (run ops w) !! call = Some l' /\ l `prefix_of` l'.
Proof.
  intros Hl. induction ops as [|o ops IH] using rev_ind.
  - by exists l.
  - destruct IH as (l1 & Hl1 & Hp1). rewrite run_snoc.
    destruct (logEffect_prefix _ _ call l1 (run_op_effect o (run ops w)) Hl1)
      as (l2 & Hl2 & Hp2).
    exists l2. split; [done|]. by etrans.
Qed.

(** The spy or fake at an address is there after any operations, with the
    log it had as a prefix of its log. *)
Lemma spy_object_run (ops : list (@op value rtype)) w call
    (obj : @MethodCall value rtype) :
  heap w !! call = Some obj ->
  exists obj', heap (run ops w) !! call = Some obj' /\ kindOf obj' = kindOf obj /\
    logOf obj `prefix_of` logOf obj'.
Proof.
  intros Hobj.
  destruct (kindsKept_lookup w (run ops w) call obj (run_kinds ops w) Hobj)
    as (obj' & Hobj' & Hkind).
  exists obj'. split; [done|]. split; [done|].
  destruct (run_logs_prefix ops w call (logOf obj)) as (l' & Hl' & Hp).
  { unfold logs. by rewrite list_lookup_fmap, Hobj. }
  unfold logs in Hl'. rewrite list_lookup_fmap, Hobj' in Hl'. simpl in Hl'.
  by injection Hl' as <-.
Qed.

Lemma isSpy_recorded h call :
  isSpyMethodCall h call = true ->
  exists obj v, h !! call = Some obj /\ recordedCallsOf obj = Some v.
Proof.
  unfold isSpyMethodCall. destruct (h !! call) as [[s|mc|sc|fc]|]; try done.
  - intros _. by eexists _, _.
  - intros _. by eexists _, _.
Qed.

Lemma kindOf_recorded (obj obj' : @MethodCall value rtype) v :
  kindOf obj' = kindOf obj -> recordedCallsOf obj = Some v ->
  exists v', recordedCallsOf obj' = Some v' /\ logOf obj' = recorded v'.
Proof.
  destruct obj, obj'; simpl; try done; intros _ _; by eexists.
Qed.

(** C8: on a double that has the method, [Spy(methodName)] returns a spy
    registration, and a second [Spy(methodName)] returns the same call
    object (the same address, hence the same recorded-call log) and leaves
    the world as it is: no second registration is appended.  When the
    calls registered so far are addresses of call objects, as they are in
    every world reached from the initial one, the same holds of a
    [Spy(methodName)] after any further operations (registrations, setup
    and invocations): it returns the same address and changes nothing, and
    the object there still records calls, the log it had being a prefix of
    the log it has. *)
Theorem Spy_twice_same w d methodName :
  found w d methodName = Ok true ->
  exists spy1 w1,
    TestDouble_Spy d methodName w = (Ok spy1, w1) /\
    TestDouble_Spy d methodName w1 = (Ok spy1, w1) /\
    isSpyMethodCall (heap w1) spy1 = true /\
    (forall meth1, lookupMethod w1 (d, methodName) = Ok meth1 ->
       firstSpy (heap w1) (calls meth1) = Some spy1) /\
    (registrationsAllocated w ->
     forall ops : list (@op value rtype),
       TestDouble_Spy d methodName (run ops w1) = (Ok spy1, run ops w1) /\
       exists obj1 v1 obj2 v2,
         heap w1 !! spy1 = Some obj1 /\ recordedCallsOf obj1 = Some v1 /\
         heap (run ops w1) !! spy1 = Some obj2 /\ recordedCallsOf obj2 = Some v2 /\
         recorded v1 `prefix_of` recorded v2).
Proof.
  intros Hfound.
  destruct (Spy_found w d methodName Hfound)
    as (spy1 & w1 & td1 & meth1 & Hspy & Hd1 & Hm1 & Hf1).
  exists spy1, w1. split; [done|].
  split; [by apply (Spy_Fake_with_spy w1 d methodName td1 meth1)|].
  pose proof (firstSpy_Some _ _ _ Hf1) as [Hisspy _].
  split; [done|].
  split.
  { intros meth1' Hl.
    destruct (lookups_found w1 d methodName td1 meth1 Hd1 Hm1) as (_ & _ & Hlm).
    rewrite Hlm in Hl. by injection Hl as <-. }
  intros Hw ops.
  assert (Hw1 : registrationsAllocated w1).
  { replace w1 with (run [OpSpy d methodName] w) by (simpl; by rewrite Hspy).
    by apply run_allocated. }
  destruct (firstSpy_run ops w1 d methodName td1 meth1 spy1 Hw1 Hd1 Hm1 Hf1)
    as (td2 & meth2 & Hd2 & Hm2 & Hf2).
  split; [by apply (Spy_Fake_with_spy _ d methodName td2 meth2)|].
  destruct (isSpy_recorded _ _ Hisspy) as (obj1 & v1 & Hobj1 & Hv1).
  destruct (spy_object_run ops w1 spy1 obj1 Hobj1) as (obj2 & Hobj2 & Hkind & Hp).
  destruct (kindOf_recorded obj1 obj2 v1 Hkind Hv1) as (v2 & Hv2 & Hlog2).
  exists obj1, v1, obj2, v2. repeat (split; [done|]).
  rewrite <- Hlog2. unfold logOf in Hp at 1. by rewrite Hv1 in Hp.
Qed.

Lemma Fake_Ok_impl w d name (impl_ : value) fake w1 :
  TestDouble_Fake d name impl_ w = (Ok fake, w1) ->
  exists fc, heap w1 !! fake = Some (FakeCall fc) /\ impl fc = impl_.
Proof.
  unfold TestDouble_Fake. unfold mbind at 1 2 3 4. unfold M_bind at 1 2 3 4.
  unfold get, liftO.
  destruct (found w d name) as [[]| |]; simpl; try done.
  destruct (lookupDouble w d) as [td| |]; simpl; try done.
  destruct (lookupMethod w _) as [meth| |]; simpl; try done.
  destruct (firstSpy _ _); simpl; try done.
  unfold mbind at 1. unfold M_bind at 1.
  destruct (newFakeMethodCall _ _ _ _) as [fc| |] eqn:Hc; simpl; try done.
  unfold_M.
  match goal with |- context [addMethodCall ?a ?b ?c] =>
    destruct (addMethodCall_effect a b c) as [_ Hh];
    destruct (addMethodCall a b c) as [[[]| |] w2] end; simpl in *; try done.
  intros [= <- <-]. exists fc. rewrite Hh. split; [by apply list_lookup_middle|].
  unfold newFakeMethodCall in Hc. destruct (TypeOf impl_); simpl in Hc; [|done].
  destruct (AssertMethodInputs _ _); simpl in Hc; try done.
  destruct (AssertMethodOutputs _ _); simpl in Hc; try done.
  by injection Hc as <-.
Qed.

(** C10: when [Fake(methodName, impl)] has registered a fake, a call of
    [Spy(methodName)] does not fail and registers nothing: it returns the
    fake registration itself, the same call object with its recorded-call
    log, and leaves the world as it is.  The other way round, once
    [Spy(methodName)] has returned a registration, [Fake(methodName, impl)]
    is a fatal failure.  When the calls registered before the fake are
    addresses of call objects, as they are in every world reached from the
    initial one, this holds after any further operations: [Spy(methodName)]
    returns the address of the fake and changes nothing, the object there
    is the fake with its function, the log it had being a prefix of the
    log it has, and [Fake(methodName, impl')] is fatal. *)
Theorem Spy_returns_registered_Fake w d methodName impl_ fake w1 :
  TestDouble_Fake d methodName impl_ w = (Ok fake, w1) ->
  (exists fc, heap w1 !! fake = Some (FakeCall fc) /\
             recordedCallsOf (FakeCall fc) = Some (fake_spy fc)) /\
  TestDouble_Spy d methodName w1 = (Ok fake, w1) /\
  (forall w' spy1 w2 impl',
     TestDouble_Spy d methodName w' = (Ok spy1, w2) ->
     exists msg, TestDouble_Fake d methodName impl' w2 = (Fatal msg, w2)) /\
  (registrationsAllocated w ->
   forall ops : list (@op value rtype),
     TestDouble_Spy d methodName (run ops w1) = (Ok fake, run ops w1) /\
     (exists fc1 fc2,
        heap w1 !! fake = Some (FakeCall fc1) /\
        heap (run ops w1) !! fake = Some (FakeCall fc2) /\
        impl fc2 = impl_ /\
        recorded (fake_spy fc1) `prefix_of` recorded (fake_spy fc2)) /\
     forall impl',
       TestDouble_Fake d methodName impl' (run ops w1) =
         (Fatal "unreachable fake for a method which has previously registered a spy",
          run ops w1)).
Proof.
  intros HF.
  destruct (Fake_Ok _ _ _ _ _ _ HF)
    as (td & meth & fc & td1 & meth1 & Hd & Hm & Hnone & -> & Hheap & _ & Hd1 & Hm1 & _ & Hf1).
  split.
  { exists fc. split; [|done]. rewrite Hheap. by apply list_lookup_middle. }
  split; [by apply (Spy_Fake_with_spy w1 d methodName td1 meth1)|].
  split.
  { intros w' spy1 w2 impl' Hspy.
    destruct (Spy_found w' d methodName (Spy_Ok_found _ _ _ _ _ Hspy))
      as (spy2 & w2' & td2 & meth2 & Hspy' & Hd2 & Hm2 & Hf2).
    rewrite Hspy in Hspy'. injection Hspy' as <- <-.
    eexists. by apply (Spy_Fake_with_spy w2 d methodName td2 meth2 spy1). }
  intros Hw ops.
  assert (Hw1 : registrationsAllocated w1).
  { replace w1 with (run [OpFake d methodName impl_] w) by (simpl; by rewrite HF).
    by apply run_allocated. }
  destruct (firstSpy_run ops w1 d methodName td1 meth1 _ Hw1 Hd1 Hm1 Hf1)
    as (td2 & meth2 & Hd2 & Hm2 & Hf2).
  destruct (Spy_Fake_with_spy _ d methodName td2 meth2 _ Hd2 Hm2 Hf2) as [Hspy Hfake].
  split; [done|]. split; [|done].
  destruct (Fake_Ok_impl _ _ _ _ _ _ HF) as (fc1 & Hfc1 & Himpl).
  destruct (spy_object_run ops w1 _ _ Hfc1) as (obj2 & Hobj2 & Hkind & Hp).
  destruct obj2 as [| | |fc2]; try done. simpl in Hkind.
  exists fc1, fc2. split; [done|]. split; [done|]. split; [congruence|done].
Qed.

(** ** Mocks in sequence *)

Lemma afterGrows_prefix w w' :
  (afterOf <$> heap w) `prefix_of` (afterOf <$> heap w') -> afterGrows w w'.
Proof.
  intros [k Hk] call l Hl. exists l. split; [|done].
  rewrite Hk. by apply lookup_app_l_Some.
Qed.

Lemma afterGrows_same w w' :
  afterOf <$> heap w' = afterOf <$> heap w -> afterGrows w w'.
Proof. intros Heq. apply afterGrows_prefix. by rewrite Heq. Qed.

Lemma afterGrows_refl w : afterGrows w w.
Proof. by apply afterGrows_same. Qed.

Lemma afterGrows_trans w1 w2 w3 : afterGrows w1 w2 -> afterGrows w2 w3 -> afterGrows w1 w3.
Proof.
  intros H1 H2 call l Hl. destruct (H1 call l Hl) as (l1 & Hl1 & Hp1).
  destruct (H2 call l1 Hl1) as (l2 & Hl2 & Hp2). exists l2. split; [done|]. by etrans.
Qed.

Lemma afterGrows_alloc w w' (obj : @MethodCall value rtype) :
  heap w' = heap w ++ [obj] -> afterGrows w w'.
Proof.
  intros Hh. apply afterGrows_prefix. rewrite Hh, fmap_app. by apply prefix_app_r.
Qed.

Lemma spy_after call (args_ : list value) w :
  afterOf <$> heap (spy call args_ w).2 = afterOf <$> heap w.
Proof.
  unfold spy. unfold_M.
  destruct (heap w !! call) as [[s|mc|sc|fc]|] eqn:Hcall; simpl; [| | | |done].
  - destruct (stub_spy w s) as [[res s']| |]; simpl; try done.
    by apply (fmap_insert_same _ _ _ (StubCall s)).
  - destruct (stub_spy w _) as [[res s']| |]; simpl;
      rewrite ?list_insert_insert_eq; by apply (fmap_insert_same _ _ _ (MockCall mc)).
  - destruct (stub_spy w _) as [[res s']| |]; simpl;
      rewrite ?list_insert_insert_eq; by apply (fmap_insert_same _ _ _ (SpyCall sc)).
  - destruct (fake_call _ _) as [res| |]; simpl;
      by apply (fmap_insert_same _ _ _ (FakeCall fc)).
Qed.

Lemma register_after mr (obj : @MethodCall value rtype) w :
  afterGrows w ((call ← alloc obj; _ ← addMethodCall mr call; mret call) w).2.
Proof.
  unfold_M.
  match goal with |- context [addMethodCall ?a ?b ?c] =>
    destruct (addMethodCall_effect a b c) as [_ Hh];
    destruct (addMethodCall a b c) as [[[]| |] w2] end; simpl in *;
    by apply (afterGrows_alloc _ _ obj).
Qed.

Lemma method_match_after mr (args_ : list value) w :
  afterGrows w (method_match mr args_ w).2.
Proof.
  unfold method_match. unfold mbind at 1 2 3 4. unfold M_bind, get, liftO.
  destruct (lookupDouble w mr.1) as [td| |]; simpl; try apply afterGrows_refl.
  destruct (lookupMethod w mr) as [meth| |]; simpl; try apply afterGrows_refl.
  destruct (firstMatch _ _ _) as [[possible|]| |]; simpl; try apply afterGrows_refl.
  destruct (defaultCall td mr) as [mc|]; simpl; try apply afterGrows_refl.
  unfold mbind at 1. unfold M_bind.
  destruct (made td mr meth mc) as [obj| |] eqn:Hmade; simpl; try apply afterGrows_refl.
  unfold_M.
  match goal with |- context [matches_at ?a ?b ?c] =>
    destruct (matches_at a b c) as [[]| |] end; simpl;
    try (by apply (afterGrows_alloc _ _ obj)).
  match goal with |- context [addMethodCall ?a ?b ?c] =>
    destruct (addMethodCall_effect a b c) as [_ Hh];
    destruct (addMethodCall a b c) as [[[]| |] w2] end; simpl in *;
    by apply (afterGrows_alloc _ _ obj).
Qed.

Lemma Invoke_after d name (args_ : list value) w :
  afterGrows w (TestDouble_Invoke d name args_ w).2.
Proof.
  destruct (TestDouble_Invoke_state d name args_ w) as [->| ->];
    [apply afterGrows_refl|].
  rewrite method_invoke_state.
  pose proof (method_match_after (d, name) args_ w) as Hext.
  destruct (method_match (d, name) args_ w) as [[matched| |] w1]; simpl in *;
    try exact Hext.
  eapply afterGrows_trans; [exact Hext|]. apply afterGrows_same, spy_after.
Qed.

Lemma afterOf_withStub (obj : @MethodCall value rtype) s :
  afterOf (withStub obj s) = afterOf obj.
Proof. by destruct obj. Qed.

Lemma run_op_after (o : @op value rtype) w : afterGrows w (run_op o w).
Proof.
  destruct o; simpl.
  - by apply afterGrows_same.
  - unfold TestDouble_Stub. unfold mbind at 1 2. unfold M_bind, get, liftO.
    destruct (found w d methodName) as [[]| |]; simpl; try apply afterGrows_refl.
    apply register_after.
  - unfold TestDouble_Mock. unfold mbind at 1 2. unfold M_bind, get, liftO.
    destruct (found w d methodName) as [[]| |]; simpl; try apply afterGrows_refl.
    apply register_after.
  - unfold TestDouble_Spy. unfold mbind at 1 2 3 4. unfold M_bind, get, liftO.
    destruct (found w d methodName) as [[]| |]; simpl; try apply afterGrows_refl.
    destruct (lookupDouble w d); simpl; try apply afterGrows_refl.
    destruct (lookupMethod w _); simpl; try apply afterGrows_refl.
    destruct (firstSpy _ _); simpl; try apply afterGrows_refl.
    apply register_after.
  - unfold TestDouble_Fake. unfold mbind at 1 2 3 4. unfold M_bind, get, liftO.
    destruct (found w d methodName) as [[]| |]; simpl; try apply afterGrows_refl.
    destruct (lookupDouble w d) as [td| |]; simpl; try apply afterGrows_refl.
    destruct (lookupMethod w _) as [meth| |]; simpl; try apply afterGrows_refl.
    destruct (firstSpy _ _); simpl; try apply afterGrows_refl.
    unfold mbind at 1. unfold M_bind.
    destruct (newFakeMethodCall _ _ _ _) as [fc| |]; simpl; try apply afterGrows_refl.
    apply register_after.
  - unfold Returning. unfold_M.
    destruct (heap w !! call) as [obj|] eqn:Hcall; simpl; try apply afterGrows_refl.
    destruct (lookupDouble w _); simpl; try apply afterGrows_refl.
    destruct (lookupMethod w _); simpl; try apply afterGrows_refl.
    destruct (d_returns _ _ _ _); simpl; try apply afterGrows_refl.
    apply afterGrows_same. simpl.
    apply (fmap_insert_same _ _ _ obj); [done|]. apply afterOf_withStub.
  - unfold Matching. unfold_M.
    destruct (heap w !! call) as [[s|mc|sc|fc]|] eqn:Hcall; simpl;
      try apply afterGrows_refl.
    all: destruct (lookupDouble w _); simpl; try apply afterGrows_refl.
    all: destruct (lookupMethod w _); simpl; try apply afterGrows_refl.
    all: destruct (d_matcher _ _ _ _); simpl; try apply afterGrows_refl.
    all: apply afterGrows_same; simpl.
    + by apply (fmap_insert_same _ _ _ (StubCall s)).
    + by apply (fmap_insert_same _ _ _ (MockCall mc)).
  - unfold After. unfold_M.
    destruct (heap w !! call) as [[s|mc|sc|fc]|] eqn:Hcall; simpl;
      try apply afterGrows_refl.
    intros x l Hl. simpl. rewrite list_lookup_fmap in Hl.
    destruct (decide (x = call)) as [->|Hne].
    + rewrite Hcall in Hl. simpl in Hl. injection Hl as <-.
      exists (after mc ++ after_). split; [|by apply prefix_app_r].
      rewrite list_lookup_fmap, list_lookup_insert_eq; [done|].
      by eapply lookup_lt_Some.
    + exists l. split; [|done].
      by rewrite list_lookup_fmap, list_lookup_insert_ne.
  - unfold Expect. unfold_M.
    destruct (heap w !! call) as [[s|mc|sc|fc]|] eqn:Hcall; simpl;
      try apply afterGrows_refl.
    apply afterGrows_same; simpl. by apply (fmap_insert_same _ _ _ (MockCall mc)).
  - apply Invoke_after.
Qed.

Lemma run_after (ops : list (@op value rtype)) w : afterGrows w (run ops w).
Proof.
  induction ops as [|o ops IH] using rev_ind; [apply afterGrows_refl|].
  rewrite run_snoc. eapply afterGrows_trans; [exact IH|]. apply run_op_after.
Qed.

(** A mock is a mock after any operations, with at least the [after] list
    it had. *)
Lemma mock_after_run (ops : list (@op value rtype)) w call
    (mc : @mockedMethodCall value rtype) :
  heap w !! call = Some (MockCall mc) ->
  exists mc', heap (run ops w) !! call = Some (MockCall mc') /\
    after mc `prefix_of` after mc'.
Proof.
  intros Hmc.
  destruct (kindsKept_lookup w (run ops w) call _ (run_kinds ops w) Hmc)
    as (obj' & Hobj' & Hkind).
  destruct obj' as [|mc'| |]; try done. exists mc'. split; [done|].
  destruct (run_after ops w call (after mc)) as (l' & Hl' & Hp).
  { by rewrite list_lookup_fmap, Hmc. }
  rewrite list_lookup_fmap, Hobj' in Hl'. simpl in Hl'. by injection Hl' as <-.
Qed.

Lemma complete_at_spec h call :
  complete_at h call = Ok true <->
  exists oc e, h !! call = Some (MockCall oc) /\ expect oc = Some e /\
    Complete e (count oc) = Some true.
Proof.
  unfold complete_at. destruct (h !! call) as [[s|oc|sc|fc]|]; simpl.
  2: { split.
       - intros [= Hc]. apply complete_spec in Hc as (e & He & Hc). by exists oc, e.
       - intros (oc' & e & [= <-] & He & Hc). f_equal. apply complete_spec. by exists e. }
  all: split; [done|]; by intros (? & ? & ? & _).
Qed.

Lemma complete_false (mc : @mockedMethodCall value rtype) :
  complete mc = false <->
  forall e, expect mc = Some e -> Complete e (count mc) <> Some true.
Proof.
  split.
  - intros Hc e He Htrue.
    assert (complete mc = true) by (apply complete_spec; by exists e). congruence.
  - intros Hno. destruct (complete mc) eqn:Hc; [|done].
    apply complete_spec in Hc as (e & He & Hc). by destruct (Hno e He).
Qed.

Lemma stub_matches_spec (s : @stubbedMethodCall value rtype) (args_ : list value) :
  stub_matches s args_ = Ok true <->
  forall mt, matcher s = Some mt -> Matches mt args_ = Ok true.
Proof.
  unfold stub_matches. destruct (matcher s) as [mt|].
  - split; [by intros ? ? [= <-]|]. intros Hmt. by apply Hmt.
  - split; [done|]. done.
Qed.

(** [matches] of a mock, in terms of its matcher, its expectation and
    count, and the expectations and counts of the mocks it is after. *)
Lemma mock_matches_explicit h (mc : @mockedMethodCall value rtype) (args_ : list value) :
  mock_matches h mc args_ = Ok true <->
  (forall mt, matcher (mock_stub mc) = Some mt -> Matches mt args_ = Ok true) /\
  (forall e, expect mc = Some e -> Complete e (count mc) <> Some true) /\
  Forall (fun call => exists oc e,
            h !! call = Some (MockCall oc) /\ expect oc = Some e /\
            Complete e (count oc) = Some true) (after mc).
Proof.
  rewrite mock_matches_iff, stub_matches_spec, complete_false.
  assert (Hall : Forall (fun call => complete_at h call = Ok true) (after mc) <->
                 Forall (fun call => exists oc e,
                   h !! call = Some (MockCall oc) /\ expect oc = Some e /\
                   Complete e (count oc) = Some true) (after mc)).
  { rewrite !Forall_forall. split; intros Hf x Hx; apply complete_at_spec; by apply Hf. }
  by rewrite Hall.
Qed.

Lemma After_mock_Ok w mock other (mc : @mockedMethodCall value rtype) :
  heap w !! mock = Some (MockCall mc) ->
  After mock [other] w =
    (Ok (), {| w_tick := w_tick w;
               heap := <[mock := MockCall {| mock_stub := mock_stub mc; count := count mc;
                                             after := after mc ++ [other];
                                             expect := expect mc |}]> (heap w);
               doubles := doubles w |}).
Proof. intros Hmock. unfold After. unfold_M. by rewrite Hmock. Qed.

(** Whether a call is a complete mock depends on its expectation and
    count only. *)
Lemma complete_at_insert h mock (mc mc' : @mockedMethodCall value rtype) call :
  h !! mock = Some (MockCall mc) -> expect mc' = expect mc -> count mc' = count mc ->
  complete_at (<[mock := MockCall mc']> h) call = complete_at h call.
Proof.
  intros Hmock He Hc. unfold complete_at.
  destruct (decide (call = mock)) as [->|Hne].
  - rewrite list_lookup_insert_eq by (by eapply lookup_lt_Some). rewrite Hmock.
    unfold complete. by rewrite He, Hc.
  - by rewrite list_lookup_insert_ne.
Qed.

(** C1: a mock registration matches exactly when its argument matcher, if
    it has one, accepts the arguments, its expectation is not complete at
    its count (an expectation that is no [Completion], or no expectation,
    is never complete) and every call in its [after] list is a mock whose
    expectation is complete at that mock's count.  [After(other)] appends
    [other] to the list and leaves the rest of the mock: right after it the
    mock matches exactly when it matched before and [other] is a mock with
    a complete expectation, and from then on, through any operations, it
    matches no arguments unless [other] is one.  A mock that expects
    [Exactly(1)], once an invocation is dispatched to it, has count 1, does
    not match the same arguments again, so that the scan of the
    registrations goes on to the ones after it, and is not matched by any
    later invocation. *)
Theorem mock_matches_sequenced w d methodName td meth (pre post : list nat)
    (mock other : nat) (mc : @mockedMethodCall value rtype) (args_ : list value) :
  doubles w !! d = Some td ->
  methods td !! methodName = Some meth ->
  calls meth = pre ++ mock :: post ->
  heap w !! mock = Some (MockCall mc) ->
  (matches_at (heap w) mock args_ = Ok true <->
     (forall mt, matcher (mock_stub mc) = Some mt -> Matches mt args_ = Ok true) /\
     (forall e, expect mc = Some e -> Complete e (count mc) <> Some true) /\
     Forall (fun call => exists oc e,
               heap w !! call = Some (MockCall oc) /\ expect oc = Some e /\
               Complete e (count oc) = Some true) (after mc)) /\
  (complete mc = true <->
     exists e, expect mc = Some e /\ Complete e (count mc) = Some true) /\
  (noCompletion (expect mc) -> complete mc = false) /\
  (exists w' mc',
     After mock [other] w = (Ok (), w') /\
     heap w' !! mock = Some (MockCall mc') /\
     mock_stub mc' = mock_stub mc /\ count mc' = count mc /\
     expect mc' = expect mc /\ after mc' = after mc ++ [other] /\
     (matches_at (heap w') mock args_ = Ok true <->
        matches_at (heap w) mock args_ = Ok true /\
        exists oc e, heap w' !! other = Some (MockCall oc) /\ expect oc = Some e /\
          Complete e (count oc) = Some true) /\
     forall (ops : list (@op value rtype)) args',
       matches_at (heap (run ops w')) mock args' = Ok true ->
       exists oc e, heap (run ops w') !! other = Some (MockCall oc) /\
         expect oc = Some e /\ Complete e (count oc) = Some true) /\
  (expect mc = Some (Exactly 1) -> count mc = 0 ->
   Forall (fun p => matches_at (heap w) p args_ = Ok false) pre ->
   matches_at (heap w) mock args_ = Ok true ->
   exists mc1,
     let w1 := (TestDouble_Invoke d methodName args_ w).2 in
     heap w1 !! mock = Some (MockCall mc1) /\ count mc1 = 1 /\
     lookupMethod w1 (d, methodName) = Ok meth /\
     matches_at (heap w1) mock args_ = Ok false /\
     firstMatch (heap w1) (calls meth) args_
       = firstMatch (heap w1) (pre ++ post) args_ /\
     forall invs,
       heap (run (invocations invs) w1) !! mock = Some (MockCall mc1) /\
       forall args', matches_at (heap (run (invocations invs) w1)) mock args' <> Ok true).
Proof.
  intros Hd Hm Hcalls Hmock.
  assert (Hmatch : matches_at (heap w) mock args_ = mock_matches (heap w) mc args_).
  { unfold matches_at. by rewrite Hmock. }
  split; [rewrite Hmatch; apply mock_matches_explicit|].
  split; [apply complete_spec|].
  split.
  { intros Hno. apply complete_false. intros e He. unfold noCompletion in Hno.
    rewrite He in Hno. by rewrite Hno. }
  split.
  { pose proof (lookup_lt_Some _ _ _ Hmock) as Hlt.
    eexists _, _. split; [by apply After_mock_Ok|]. simpl.
    split; [by apply list_lookup_insert_eq|].
    do 4 (split; [done|]).
    set (mc' := {| mock_stub := mock_stub mc; count := count mc;
                   after := after mc ++ [other]; expect := expect mc |}).
    set (h' := <[mock := MockCall mc']> (heap w)).
    assert (Hc : forall call, complete_at h' call = complete_at (heap w) call).
    { intros call. by apply (complete_at_insert (heap w) mock mc mc'). }
    split.
    - unfold matches_at at 1. unfold h' at 1.
      rewrite list_lookup_insert_eq by done. simpl.
      rewrite Hmatch, !mock_matches_iff. simpl.
      rewrite Forall_app, Forall_singleton. rewrite <- complete_at_spec.
      assert (Hall : Forall (fun call => complete_at h' call = Ok true) (after mc) <->
                     Forall (fun call => complete_at (heap w) call = Ok true) (after mc)).
      { rewrite !Forall_forall. split; intros Hf x Hx; [rewrite <- Hc|rewrite Hc];
          by apply Hf. }
      rewrite Hall.
      assert (Hcm : complete mc' = complete mc) by done. rewrite Hcm. tauto.
    - intros ops args' Hmatches.
      destruct (mock_after_run ops
                  {| w_tick := w_tick w; heap := h'; doubles := doubles w |} mock mc')
        as (mc2 & Hmc2 & [k Hk]).
      { simpl. by apply list_lookup_insert_eq. }
      unfold matches_at in Hmatches. rewrite Hmc2 in Hmatches. simpl in Hmatches.
      apply mock_matches_explicit in Hmatches as (_ & _ & Hall).
      rewrite Forall_forall in Hall. apply Hall. rewrite Hk. simpl.
      apply elem_of_app. left. apply elem_of_app. right. by apply list_elem_of_singleton. }
  intros Hexpect Hcount Hpre Hm1.
  destruct (lookups_found w d methodName td meth Hd Hm) as (Hf & Hld & Hlm).
  assert (Hfirst : firstMatch (heap w) (calls meth) args_ = Ok (Some mock)).
  { apply firstMatch_spec. exists pre, post. by rewrite Hcalls. }
  assert (Hstate : (TestDouble_Invoke d methodName args_ w).2 = (spy mock args_ w).2).
  { unfold TestDouble_Invoke. unfold mbind at 1 2. unfold M_bind at 1 2.
    unfold get, liftO. rewrite Hf. rewrite method_invoke_state.
    by rewrite (method_match_found (d, methodName) args_ w td meth mock). }
  destruct (spy_mock mock args_ w mc Hmock) as (mc1 & Hmc1 & Hc1 & He1 & Ha1 & Hmt1).
  destruct (spy_effect mock args_ w) as (Hdoubles & _ & _).
  exists mc1. simpl. rewrite Hstate.
  assert (Hcomplete1 : complete mc1 = true).
  { apply complete_spec. exists (Exactly 1). split; [congruence|].
    rewrite Hc1, Hcount. reflexivity. }
  assert (Hno : matches_at (heap (spy mock args_ w).2) mock args_ = Ok false).
  { unfold matches_at. rewrite Hmc1. simpl. unfold mock_matches.
    rewrite Hmatch in Hm1. apply mock_matches_iff in Hm1 as (Hs & _ & _).
    unfold stub_matches in *. rewrite Hmt1, Hs. simpl. by rewrite Hcomplete1. }
  split; [done|]. split; [by rewrite Hc1, Hcount|].
  split.
  { unfold lookupMethod, lookupDouble. simpl. rewrite Hdoubles, Hd. simpl.
    by rewrite Hm. }
  split; [done|]. split; [rewrite Hcalls; by apply firstMatch_skip|].
  intros invs.
  pose proof (complete_mock_stays_run invs _ mock mc1 Hmc1 Hcomplete1) as Hstay.
  split; [done|]. intros args'. by eapply complete_mock_no_match.
Qed.

End Properties.

(** * The properties on the instance *)

(** ** The scenarios of the package's tests *)

Example skips_complete_mock :
  ((x ← TestDouble_Invoke 0%nat "call" [VStr "first"];
    y ← TestDouble_Invoke 0%nat "call" [VStr "second"];
    mret (x, y)) mockThenStub).1 = Ok ([VInt 1], [VInt 99]).
Proof. reflexivity. Qed.

Example stub_matching_second :
  ((x ← TestDouble_Invoke 0%nat "call" [VStr "first"];
    y ← TestDouble_Invoke 0%nat "call" [VStr "second"];
    mret (x, y)) twoStubs).1 = Ok ([VInt 99], [VInt 1]).
Proof. reflexivity. Qed.

Example spied_calls_recorded :
  recordedCallsOf <$> heap (run spiedCalls initial) !! 0%nat = Some (Some theSpy).
Proof. reflexivity. Qed.

(** ** Sequences *)



(** ** Matchers from no matchers *)

(** C6, as the claim has it, fails: for [call(in string) int] an empty
    list of matchers gives [All()] and no failure, and [Stub("call")
    .Matching()] goes through. *)
Lemma empty_matchers_do_not_fail :
  NewMatcherForMethod api_call [] = Ok (All []) /\
  is_Fatal (NewMatcherForMethod api_call []) = false /\
  ((stub ← TestDouble_Stub 0%nat "call"; Matching stub []) apiWorld).1 = Ok () /\
  matches_at
    (heap ((stub ← TestDouble_Stub 0%nat "call"; Matching stub []) apiWorld).2)
    0%nat [VStr "anything"] = Ok true.
Proof. repeat split; reflexivity. Qed.

(** ** Views *)

Lemma Slice_range_witness :
  5 >= NumCalls theSpy /\
  (exists v, spy_Slice apiDouble theSpy 5 8 = Ok v /\ recorded v = []) /\
  (exists v, spy_Slice apiDouble theSpy 0 5 = Ok v /\ recorded v = recorded theSpy) /\
  is_Fatal (spy_Slice apiDouble theSpy 2 1) = true.
Proof.
  pose proof (Slice_range apiDouble theSpy 5 8) as H58.
  pose proof (Slice_range apiDouble theSpy 0 5) as H05.
  assert (Hge : 5 >= NumCalls theSpy) by (vm_compute; discriminate).
  split; [exact Hge|]. split; [|split; [|reflexivity]].
  - destruct (spy_Slice apiDouble theSpy 5 8) as [v| |] eqn:E; try discriminate E.
    destruct H58 as (_ & _ & _ & Hempty). exists v. split; [reflexivity|].
    exact (Hempty Hge).
  - destruct (spy_Slice apiDouble theSpy 0 5) as [v| |] eqn:E; try discriminate E.
    destruct H05 as (_ & Hrec & _). exists v. split; [reflexivity|].
    rewrite Hrec. reflexivity.
Defined.

Lemma spiedCalls_few : Z.of_nat (length spiedCalls) < uint64_modulus.
Proof. reflexivity. Defined.

Lemma theSpy_view : viewOf (run spiedCalls initial) theSpy.
Proof. eapply (view_registered _ 0%nat); reflexivity. Defined.

Lemma theSecond_view : viewOf (run spiedCalls initial) theSecond.
Proof.
  eapply (view_Matching _ apiDouble theSpy [RawValue (VStr "second")]);
    [exact theSpy_view|reflexivity].
Defined.

Lemma views_tick_ordered_witness :
  Z.of_nat (length spiedCalls) < uint64_modulus /\
  viewOf (run spiedCalls initial) theSecond /\
  tickOrdered (recorded theSecond) /\
  exists call obj parent,
    heap (run spiedCalls initial) !! call = Some obj /\
    recordedCallsOf obj = Some parent /\
    tickOrdered (recorded parent) /\
    recorded theSecond `sublist_of` recorded parent.
Proof.
  split; [exact spiedCalls_few|]. split; [exact theSecond_view|].
  destruct (views_tick_ordered spiedCalls (run spiedCalls initial) theSecond
              spiedCalls_few eq_refl theSecond_view) as (Hordered & Hparent & _).
  split; [exact Hordered|exact Hparent].
Defined.

Lemma After_exceeds_max_witness :
  Z.of_nat (length spiedCalls) < uint64_modulus /\
  viewOf (run spiedCalls initial) theSpy /\
  viewOf (run spiedCalls initial) theSecond /\
  exists v', spy_After apiDouble theSpy theSecond = Ok v' /\
    recorded v' = [exCall 3 "third"].
Proof.
  split; [exact spiedCalls_few|]. split; [exact theSpy_view|].
  split; [exact theSecond_view|].
  destruct (After_exceeds_max spiedCalls (run spiedCalls initial) apiDouble
              theSpy theSecond spiedCalls_few eq_refl theSpy_view theSecond_view)
    as (v' & Hafter & Hmax & _).
  exists v'. split; [exact Hafter|].
  rewrite (Hmax 2 eq_refl). reflexivity.
Defined.

(** ** Spies and fakes *)

Lemma apiWorld_allocated : registrationsAllocated apiWorld.
Proof. exact (run_allocated [newApiDouble] initial initial_allocated). Defined.

Lemma Spy_twice_same_witness :
  found apiWorld 0%nat "call" = Ok true /\
  registrationsAllocated apiWorld /\
  TestDouble_Spy 0%nat "call" apiWorld
    = (Ok 0%nat, (TestDouble_Spy 0%nat "call" apiWorld).2) /\
  TestDouble_Spy 0%nat "call" (run spyUses (TestDouble_Spy 0%nat "call" apiWorld).2)
    = (Ok 0%nat, run spyUses (TestDouble_Spy 0%nat "call" apiWorld).2) /\
  logs (run spyUses (TestDouble_Spy 0%nat "call" apiWorld).2) !! 0%nat
    = Some [exCall 1 "first"; exCall 2 "second"; exCall 3 "third"] /\
  calls (callOf (run spyUses (TestDouble_Spy 0%nat "call" apiWorld).2))
    = [0%nat; 1%nat].
Proof.
  split; [reflexivity|]. split; [exact apiWorld_allocated|].
  assert (H1 : TestDouble_Spy 0%nat "call" apiWorld
               = (Ok 0%nat, (TestDouble_Spy 0%nat "call" apiWorld).2)) by reflexivity.
  split; [exact H1|].
  destruct (Spy_twice_same apiWorld 0%nat "call" eq_refl)
    as (spy1 & w1 & Hfirst & _ & _ & _ & Hlater).
  rewrite H1 in Hfirst. injection Hfirst as <- <-.
  destruct (Hlater apiWorld_allocated spyUses) as [Hspy _].
  split; [exact Hspy|]. split; reflexivity.
Defined.

Lemma Spy_returns_registered_Fake_witness :
  registrationsAllocated apiWorld /\
  TestDouble_Fake 0%nat "call" VStrLen apiWorld = (Ok 0%nat, fakeWorld) /\
  TestDouble_Spy 0%nat "call" fakeWorld = (Ok 0%nat, fakeWorld) /\
  TestDouble_Spy 0%nat "call" (run fakeUses fakeWorld)
    = (Ok 0%nat, run fakeUses fakeWorld) /\
  TestDouble_Fake 0%nat "call" VStrLen (run fakeUses fakeWorld)
    = (Fatal "unreachable fake for a method which has previously registered a spy",
       run fakeUses fakeWorld) /\
  logs (run fakeUses fakeWorld) !! 0%nat = Some [exCall 1 "abc"] /\
  calls (callOf (run fakeUses fakeWorld)) = [0%nat; 1%nat].
Proof.
  split; [exact apiWorld_allocated|].
  assert (HF : TestDouble_Fake 0%nat "call" VStrLen apiWorld = (Ok 0%nat, fakeWorld))
    by reflexivity.
  split; [exact HF|].
  destruct (Spy_returns_registered_Fake apiWorld 0%nat "call" VStrLen 0%nat
              fakeWorld HF)
    as (_ & Hspy & _ & Hlater).
  split; [exact Hspy|].
  destruct (Hlater apiWorld_allocated fakeUses) as (Hspy2 & _ & Hfake2).
  split; [exact Hspy2|]. split; [exact (Hfake2 VStrLen)|]. split; reflexivity.
Defined.

(** ** Mocks and stubs *)

Lemma mock_matches_sequenced_witness :
  doubles mockThenStub !! 0%nat = Some (doubleOf mockThenStub) /\
  methods (doubleOf mockThenStub) !! "call" = Some (callOf mockThenStub) /\
  calls (callOf mockThenStub) = [] ++ 0%nat :: [1%nat] /\
  heap mockThenStub !! 0%nat = Some (MockCall theMock) /\
  (exists mc1,
    heap (TestDouble_Invoke 0%nat "call" [VStr "first"] mockThenStub).2 !! 0%nat
      = Some (MockCall mc1) /\
    count mc1 = 1 /\
    matches_at (heap (TestDouble_Invoke 0%nat "call" [VStr "first"] mockThenStub).2)
      0%nat [VStr "first"] = Ok false) /\
  doubles mocksUnordered !! 0%nat = Some (doubleOf mocksUnordered) /\
  methods (doubleOf mocksUnordered) !! "call" = Some (callOf mocksUnordered) /\
  calls (callOf mocksUnordered) = [0%nat] ++ 1%nat :: [] /\
  heap mocksUnordered !! 1%nat = Some (MockCall theSecondMock) /\
  matches_at (heap mocksUnordered) 1%nat [VStr "go"] = Ok true /\
  After 1%nat [0%nat] mocksUnordered = (Ok (), mocksInOrder) /\
  heap mocksInOrder !! 1%nat = Some (MockCall theSequencedMock) /\
  matches_at (heap mocksInOrder) 1%nat [VStr "go"] <> Ok true /\
  (TestDouble_Invoke 0%nat "call" [VStr "go"] mocksInOrder).1 = Ok [VInt 1] /\
  matches_at (heap (run [OpInvoke 0%nat "call" [VStr "go"]] mocksInOrder))
    1%nat [VStr "go"] = Ok true /\
  matches_at (heap (run [OpInvoke 0%nat "call" [VStr "go"]] mocksInOrder))
    1%nat [VStr "stop"] <> Ok true.
Proof.
  assert (Hd : doubles mockThenStub !! 0%nat = Some (doubleOf mockThenStub))
    by reflexivity.
  assert (Hm : methods (doubleOf mockThenStub) !! "call" = Some (callOf mockThenStub))
    by reflexivity.
  assert (Hc : calls (callOf mockThenStub) = [] ++ 0%nat :: [1%nat]) by reflexivity.
  assert (Hh : heap mockThenStub !! 0%nat = Some (MockCall theMock)) by reflexivity.
  split; [exact Hd|]. split; [exact Hm|]. split; [exact Hc|]. split; [exact Hh|].
  split.
  { destruct (mock_matches_sequenced mockThenStub 0%nat "call" _ _ [] [1%nat]
                0%nat 1%nat theMock [VStr "first"] Hd Hm Hc Hh)
      as (Hiff & _ & _ & _ & Honce).
    destruct (Honce eq_refl eq_refl (Forall_nil_2 _) eq_refl)
      as (mc1 & Hmc1 & Hcount & _ & Hno & _).
    exists mc1. split; [exact Hmc1|]. split; [exact Hcount|exact Hno]. }
  assert (Hd2 : doubles mocksUnordered !! 0%nat = Some (doubleOf mocksUnordered))
    by reflexivity.
  assert (Hm2 : methods (doubleOf mocksUnordered) !! "call" = Some (callOf mocksUnordered))
    by reflexivity.
  assert (Hc2 : calls (callOf mocksUnordered) = [0%nat] ++ 1%nat :: []) by reflexivity.
  assert (Hh2 : heap mocksUnordered !! 1%nat = Some (MockCall theSecondMock))
    by reflexivity.
  split; [exact Hd2|]. split; [exact Hm2|]. split; [exact Hc2|]. split; [exact Hh2|].
  destruct (mock_matches_sequenced mocksUnordered 0%nat "call" _ _ [0%nat] []
              1%nat 0%nat theSecondMock [VStr "go"] Hd2 Hm2 Hc2 Hh2)
    as (Hiff & _ & _ & (w' & mc' & Hafter & Hmc' & _ & _ & _ & Hafter' & Hiff' & Huntil) & _).
  split.
  { apply Hiff. split; [by intros mt [= <-]|]. split; [done|]. constructor. }
  assert (Hafter0 : After 1%nat [0%nat] mocksUnordered = (Ok (), mocksInOrder))
    by reflexivity.
  split; [exact Hafter0|].
  rewrite Hafter0 in Hafter. injection Hafter as <-.
  split; [reflexivity|].
  split.
  { intros Hyes. apply Hiff' in Hyes as (_ & oc & e & Hoc & He & Hcomplete).
    assert (Hfirst : heap mocksInOrder !! 0%nat = Some (MockCall theMock)) by reflexivity.
    rewrite Hfirst in Hoc. injection Hoc as <-. injection He as <-.
    discriminate Hcomplete. }
  split; [reflexivity|].
  assert (Hd3 : doubles (run [OpInvoke 0%nat "call" [VStr "go"]] mocksInOrder) !! 0%nat
                = Some (doubleOf mocksInOrder)) by reflexivity.
  assert (Hm3 : methods (doubleOf mocksInOrder) !! "call" = Some (callOf mocksInOrder))
    by reflexivity.
  assert (Hc3 : calls (callOf mocksInOrder) = [0%nat] ++ 1%nat :: []) by reflexivity.
  assert (Hh3 : heap (run [OpInvoke 0%nat "call" [VStr "go"]] mocksInOrder) !! 1%nat
                = Some (MockCall theSequencedMock)) by reflexivity.
  split.
  - destruct (mock_matches_sequenced _ 0%nat "call" _ _ [0%nat] []
                1%nat 0%nat theSequencedMock [VStr "go"] Hd3 Hm3 Hc3 Hh3)
      as (Hiff3 & _).
    apply Hiff3. split; [by intros mt [= <-]|]. split; [done|].
    constructor; [|constructor]. eexists _, Once. split; [reflexivity|].
    split; reflexivity.
  - destruct (mock_matches_sequenced _ 0%nat "call" _ _ [0%nat] []
                1%nat 0%nat theSequencedMock [VStr "stop"] Hd3 Hm3 Hc3 Hh3)
      as (Hiff3 & _).
    intros Hyes. apply Hiff3 in Hyes as (Hmt & _).
    specialize (Hmt _ eq_refl). discriminate Hmt.
Defined.

Lemma first_match_wins_witness :
  doubles twoStubs !! 0%nat = Some (doubleOf twoStubs) /\
  methods (doubleOf twoStubs) !! "call" = Some (callOf twoStubs) /\
  calls (callOf twoStubs) = [] ++ 0%nat :: [] ++ 1%nat :: [] /\
  stub_matches (stubAt twoStubs 0%nat) [VStr "second"] = Ok true /\
  stub_matches (stubAt twoStubs 1%nat) [VStr "second"] = Ok true /\
  (TestDouble_Invoke 0%nat "call" [VStr "second"] twoStubs).1 = Ok [VInt 1].
Proof.
  assert (Hd : doubles twoStubs !! 0%nat = Some (doubleOf twoStubs)) by reflexivity.
  assert (Hm : methods (doubleOf twoStubs) !! "call" = Some (callOf twoStubs))
    by reflexivity.
  repeat (split; [reflexivity|]).
  destruct (first_match_wins twoStubs 0%nat "call" _ _ [] [] []
              0%nat 1%nat (stubAt twoStubs 0%nat) (stubAt twoStubs 1%nat)
              [VStr "second"] (fixedReturnValues [VInt 1]) [VInt 1]
              (fixedReturnValues [VInt 1]) Hd Hm)
    as (_ & _ & Hinvoke).
  exact (Hinvoke eq_refl eq_refl eq_refl (Forall_nil_2 _) eq_refl eq_refl
           eq_refl eq_refl eq_refl).
Defined.

(** ** The further properties *)

Lemma Complete_is_final_witness :
  Complete Once 1 = Some true /\ Complete Once 5 = Some true /\ Met Once 5 = false.
Proof.
  destruct (Complete_is_final Once 1 5 eq_refl ltac:(lia)) as [H1 H2].
  split; [reflexivity|]. split; [exact H1|]. apply H2. lia.
Defined.

Lemma All_Any_short_circuit_witness :
  Matches (Func VNil) [VStr "b"]
    = Panic "reflect: call of reflect.Value.Type on zero Value" /\
  Matches (All [Eql (RawValue (VStr "a")); Func VNil]) [VStr "b"] = Ok false /\
  Matches (Any [Eql (RawValue (VStr "b")); Func VNil]) [VStr "b"] = Ok true.
Proof.
  split; [reflexivity|].
  destruct (All_Any_short_circuit [Eql (RawValue (VStr "a")); Func VNil] [VStr "b"])
    as (_ & _ & Hall & _).
  destruct (All_Any_short_circuit [Eql (RawValue (VStr "b")); Func VNil] [VStr "b"])
    as (_ & _ & _ & Hany).
  split.
  - exact (Hall [] _ [Func VNil] eq_refl (Forall_nil_2 _) eq_refl).
  - exact (Hany [] _ [Func VNil] eq_refl (Forall_nil_2 _) eq_refl).
Defined.

Lemma Args_ForMethod_shape_witness :
  IsVariadic api_call = false /\
  is_Fatal (argumentsMatcher_ForMethod
              [Eql (RawValue (VStr "x")); Eql (RawValue (VInt 0))] api_call) = true /\
  argumentsMatcher_ForMethod [Eql (RawValue (VStr "x"))] api_call
    = Ok [Eql (RawValue (VStr "x"))].
Proof.
  split; [reflexivity|]. split; [|reflexivity].
  apply (proj2 (Args_ForMethod_shape
                  [Eql (RawValue (VStr "x")); Eql (RawValue (VInt 0))] api_call));
    [reflexivity|simpl; lia].
Defined.

Lemma NewMatcherForMethod_unvalidated_witness :
  is_Fatal (NewMatcherForMethod api_call [RawValue (VStr "x"); RawValue (VInt 0)])
    = false /\
  is_Fatal (forMethod api_call (Args [Eql (RawValue (VStr "x")); Eql (RawValue (VInt 0))]))
    = true /\
  is_Fatal (NewMatcherForMethod api_other [RawValue (VStr "x"); RawValue (VInt 0)])
    = true.
Proof.
  destruct (NewMatcherForMethod_unvalidated api_call
              (RawValue (VStr "x")) (RawValue (VInt 0)) []) as [_ Hargs].
  destruct (NewMatcherForMethod_unvalidated api_other
              (RawValue (VStr "x")) (RawValue (VInt 0)) []) as [Hnone _].
  split; [|split; [reflexivity|exact (Hnone eq_refl)]].
  assert (Hin : In api_call <> []) by discriminate.
  specialize (Hargs Hin eq_refl).
  destruct (NewMatcherForMethod api_call _); [reflexivity|destruct Hargs|reflexivity].
Defined.

Lemma Values_checked_at_setup_witness :
  NewReturnsForMethod api_call (ReturnsValues [VInt 7]) = Ok (Values [VInt 7]) /\
  receives 3 (Values [VInt 7]) = [inl [VInt 7]; inl [VInt 7]; inl [VInt 7]] /\
  is_Fatal (NewReturnsForMethod api_call (ReturnsValues [VInt 7; VInt 8])) = true.
Proof.
  assert (H : NewReturnsForMethod api_call (ReturnsValues [VInt 7]) = Ok (Values [VInt 7]))
    by reflexivity.
  split; [exact H|]. split; [|reflexivity].
  exact (proj1 (Values_checked_at_setup api_call [VInt 7] _ 3 H)).
Defined.

Lemma exReflection_Zero_assignable (t o : exType) :
  TypeOf (Zero t) = Some o -> AssignableTo o t = true.
Proof. destruct t; simpl; intros [= <-]; reflexivity. Defined.

Lemma ZeroValues_valid_witness :
  receives 2 (ZeroValues api_call) = [inl [VInt 0]; inl [VInt 0]] /\
  AssertMethodReturnValues api_call [VInt 0] = Ok ().
Proof.
  destruct (ZeroValues_valid api_call 2 exReflection_Zero_assignable) as (H1 & H2 & _).
  split; [exact H1|exact H2].
Defined.

Lemma unknown_method_is_fatal_witness :
  doubles apiWorld !! 0%nat = Some apiDouble /\
  methods apiDouble !! "missing" = None /\
  TestDouble_Stub 0%nat "missing" apiWorld
    = (Fatal "Cannot Stub non existent method", apiWorld) /\
  TestDouble_Invoke 0%nat "missing" [VStr "x"] apiWorld
    = (Fatal "Unexpected call to unknown methodName", apiWorld).
Proof.
  assert (Hd : doubles apiWorld !! 0%nat = Some apiDouble) by reflexivity.
  assert (Hm : methods apiDouble !! "missing" = None) by reflexivity.
  destruct (unknown_method_is_fatal apiWorld 0%nat apiDouble "missing" VStrLen
              [VStr "x"] Hd Hm) as (Hstub & _ & _ & _ & Hinvoke).
  split; [exact Hd|]. split; [exact Hm|]. split; [exact Hstub|exact Hinvoke].
Defined.

Lemma Fake_signature_checked_witness :
  TestDouble_Fake 0%nat "call" VStrLen apiWorld = (Ok 0%nat, fakeWorld) /\
  exists td meth implT,
    doubles apiWorld !! 0%nat = Some td /\ methods td !! "call" = Some meth /\
    TypeOf VStrLen = Some implT /\
    Forall2 (fun mIn fIn => AssignableTo mIn fIn = true) (In (m meth)) (FuncIn implT) /\
    Forall2 (fun fOut mOut => AssignableTo fOut mOut = true) (FuncOut implT) (Out (m meth)).
Proof.
  assert (HF : TestDouble_Fake 0%nat "call" VStrLen apiWorld = (Ok 0%nat, fakeWorld))
    by reflexivity.
  split; [exact HF|].
  destruct (Fake_signature_checked apiWorld 0%nat "call" VStrLen 0%nat fakeWorld HF)
    as (td & meth & implT & H1 & H2 & H3 & _ & _ & H6 & H7 & _).
  exists td, meth, implT. repeat split; assumption.
Defined.

Lemma spy_shadows_later_calls_witness :
  doubles spyThenStub !! 0%nat = Some (doubleOf spyThenStub) /\
  methods (doubleOf spyThenStub) !! "call" = Some (callOf spyThenStub) /\
  calls (callOf spyThenStub) = [0%nat; 1%nat] /\
  firstSpy (heap spyThenStub) (calls (callOf spyThenStub)) = Some 0%nat /\
  method_match (0%nat, "call") [VStr "x"] spyThenStub = (Ok 0%nat, spyThenStub).
Proof.
  assert (Hd : doubles spyThenStub !! 0%nat = Some (doubleOf spyThenStub))
    by reflexivity.
  assert (Hm : methods (doubleOf spyThenStub) !! "call" = Some (callOf spyThenStub))
    by reflexivity.
  assert (Hs : firstSpy (heap spyThenStub) (calls (callOf spyThenStub)) = Some 0%nat)
    by reflexivity.
  destruct (spy_shadows_later_calls spyThenStub 0%nat "call" _ _ 0%nat [VStr "x"]
              Hd Hm Hs) as (Hw & _ & _).
  split; [exact Hd|]. split; [exact Hm|]. split; [reflexivity|]. split; [exact Hs|].
  rewrite (surjective_pairing (method_match _ _ _)), Hw. reflexivity.
Defined.

Lemma spied_call_is_recorded_witness :
  (TestDouble_Invoke 0%nat "call" [VInt 3] fakeWorld).1
    = Panic "reflect: Call with wrong arguments" /\
  exists obj' v',
    heap (TestDouble_Invoke 0%nat "call" [VInt 3] fakeWorld).2 !! 0%nat = Some obj' /\
    recordedCallsOf obj' = Some v' /\
    recorded v' = [{| tick := 1; args := [VInt 3] |}].
Proof.
  split; [reflexivity|].
  assert (Hd : doubles fakeWorld !! 0%nat = Some (doubleOf fakeWorld)) by reflexivity.
  assert (Hm : methods (doubleOf fakeWorld) !! "call" = Some (callOf fakeWorld))
    by reflexivity.
  assert (Hf : firstMatch (heap fakeWorld) (calls (callOf fakeWorld)) [VInt 3]
               = Ok (Some 0%nat)) by reflexivity.
  assert (Ho : heap fakeWorld !! 0%nat = Some (objAt fakeWorld 0%nat)) by reflexivity.
  assert (Hv : recordedCallsOf (objAt fakeWorld 0%nat)
               = Some (newSpyMethodCall "DoubleFor(api).call" (0%nat, "call") []))
    by reflexivity.
  destruct (spied_call_is_recorded fakeWorld 0%nat "call" _ _ 0%nat _ _ [VInt 3]
              Hd Hm Hf Ho Hv) as (_ & obj' & v' & H1 & H2 & H3).
  exists obj', v'. split; [exact H1|]. split; [exact H2|exact H3].
Defined.

Lemma registrations_append_only_witness :
  doubles apiWorld !! 0%nat = Some apiDouble /\
  methods apiDouble !! "call" = Some (newMethod api_call) /\
  exists td' meth' news,
    doubles mockThenStub !! 0%nat = Some td' /\
    methods td' !! "call" = Some meth' /\
    calls meth' = calls (newMethod api_call) ++ news /\
    Forall (fun call => is_Some (heap mockThenStub !! call)) news.
Proof.
  assert (Hd : doubles apiWorld !! 0%nat = Some apiDouble) by reflexivity.
  assert (Hm : methods apiDouble !! "call" = Some (newMethod api_call)) by reflexivity.
  split; [exact Hd|]. split; [exact Hm|].
  destruct (registrations_append_only
              [OpMock 0%nat "call"; OpReturning 0%nat (ReturnsValues [VInt 1]);
               OpExpect 0%nat Once;
               OpStub 0%nat "call"; OpReturning 1%nat (ReturnsValues [VInt 99])]
              apiWorld 0%nat apiDouble "call" _ Hd Hm)
    as (td' & meth' & news & H1 & H2 & _ & H4 & H5 & _).
  exists td', meth', news. split; [exact H1|]. split; [exact H2|].
  split; [exact H4|exact H5].
Defined.

Lemma ticks_identify_calls_witness :
  Z.of_nat (length spiedCalls) < uint64_modulus /\
  logs (run spiedCalls initial) !! 0%nat = Some (recorded theSpy) /\
  exCall 2 "second" ∈ recorded theSpy /\
  0 < tick (exCall 2 "second") <= w_tick (run spiedCalls initial).
Proof.
  assert (Hl : logs (run spiedCalls initial) !! 0%nat = Some (recorded theSpy))
    by reflexivity.
  assert (Hin : exCall 2 "second" ∈ recorded theSpy)
    by (apply list_elem_of_further, list_elem_of_here).
  split; [exact spiedCalls_few|]. split; [exact Hl|]. split; [exact Hin|].
  exact (proj2 (proj2 (ticks_identify_calls spiedCalls _ 0%nat 0%nat _ _ _ _
                         spiedCalls_few eq_refl Hl Hl Hin Hin eq_refl))).
Defined.

Lemma mock_never_over_called_witness :
  heap mockThenStub !! 0%nat = Some (MockCall theMock) /\
  expect theMock = Some Once /\
  exists mc',
    heap (run (invocations [(0%nat, "call", [VStr "a"]); (0%nat, "call", [VStr "b"]);
                            (0%nat, "call", [VStr "c"])]) mockThenStub) !! 0%nat
      = Some (MockCall mc') /\
    count mc' <= 1.
Proof.
  assert (Hh : heap mockThenStub !! 0%nat = Some (MockCall theMock)) by reflexivity.
  assert (Hub : forall n, Complete Once n = Some (bool_decide (n >= 1)))
    by (intros n; reflexivity).
  assert (H0 : count theMock <= 1) by (simpl; lia).
  assert (Hmax : 1 <= int_max) by (unfold int_max; lia).
  split; [exact Hh|]. split; [reflexivity|].
  destruct (mock_never_over_called
              [(0%nat, "call", [VStr "a"]); (0%nat, "call", [VStr "b"]);
               (0%nat, "call", [VStr "c"])]
              mockThenStub 0%nat theMock Once 1 Hh eq_refl Hub H0 Hmax)
    as (mc' & H1 & _ & _ & H2).
  exists mc'. split; [exact H1|exact H2].
Defined.

Lemma unregistered_calls_counted_witness :
  calls (newMethod api_call) = [] /\
  defaultCall apiDouble (0%nat, "call") = Some (MadeMock None None [] (Some Never)) /\
  exists td' mc,
    doubles (run (invocations [(0%nat, "call", [VStr "a"]); (0%nat, "call", [VStr "b"])])
               apiWorld) !! 0%nat = Some td' /\
    methods td' !! "call" = Some {| calls := [0%nat]; m := api_call |} /\
    heap (run (invocations [(0%nat, "call", [VStr "a"]); (0%nat, "call", [VStr "b"])])
            apiWorld) !! 0%nat = Some (MockCall mc) /\
    count mc = 2 /\ verify (MockCall mc) = true.
Proof.
  assert (Hd : doubles apiWorld !! 0%nat = Some apiDouble) by reflexivity.
  assert (Hm : methods apiDouble !! "call" = Some (newMethod api_call)) by reflexivity.
  assert (Hmax : 1 + Z.of_nat (length [[VStr "b"]]) <= int_max)
    by (unfold int_max; simpl; lia).
  split; [reflexivity|]. split; [reflexivity|].
  destruct (unregistered_calls_counted apiWorld 0%nat "call" apiDouble _
              [VStr "a"] [[VStr "b"]] Hd Hm eq_refl eq_refl Hmax)
    as (td' & mc & H1 & H2 & H3 & H4 & _ & _ & H7).
  exists td', mc. split; [exact H1|]. split; [exact H2|]. split; [exact H3|].
  split; [exact H4|exact H7].
Defined.

Lemma Mock_without_Expect_is_unbounded_witness :
  exists mc,
    heap (run (invocations [(0%nat, "call", [VStr "a"]); (0%nat, "call", [VStr "b"])])
            (TestDouble_Mock 0%nat "call" apiWorld).2) !! 0%nat = Some (MockCall mc) /\
    count mc = 2 /\ complete mc = false /\ verify (MockCall mc) = false.
Proof.
  assert (Hd : doubles apiWorld !! 0%nat = Some apiDouble) by reflexivity.
  assert (Hm : methods apiDouble !! "call" = Some (newMethod api_call)) by reflexivity.
  assert (Hmax : Z.of_nat (length [[VStr "a"]; [VStr "b"]]) <= int_max)
    by (unfold int_max; simpl; lia).
  destruct (Mock_without_Expect_is_unbounded apiWorld 0%nat "call" apiDouble _
              [[VStr "a"]; [VStr "b"]] Hd Hm eq_refl Hmax)
    as (_ & mc & H1 & H2 & _ & H4 & _ & H6).
  exists mc. split; [exact H1|]. split; [exact H2|]. split; [exact H4|exact H6].
Defined.

Lemma fresh_Stub_returns_defaults_witness :
  doubles apiWorld !! 0%nat = Some apiDouble /\
  Receive (defaultReturnValues apiDouble api_call)
    = (inl [VInt 0], reflectZeroReturnValues [TInt]) /\
  ((stub ← TestDouble_Stub 0%nat "call";
    TestDouble_Invoke 0%nat "call" [VStr "anything"]) apiWorld).1 = Ok [VInt 0].
Proof.
  assert (Hd : doubles apiWorld !! 0%nat = Some apiDouble) by reflexivity.
  assert (Hm : methods apiDouble !! "call" = Some (newMethod api_call)) by reflexivity.
  assert (Hr : Receive (defaultReturnValues apiDouble (m (newMethod api_call)))
               = (inl [VInt 0], reflectZeroReturnValues [TInt])) by reflexivity.
  split; [exact Hd|]. split; [exact Hr|].
  exact (proj1 (fresh_Stub_returns_defaults apiWorld 0%nat "call" apiDouble _
                  [VStr "anything"] [VInt 0] _ Hd Hm (Forall_nil_2 _) Hr eq_refl)).
Defined.

Lemma twoMocks_are_mocks :
  Forall (fun call => exists mc, heap twoMocks !! call = Some (MockCall mc))
    [0%nat; 1%nat].
Proof. repeat constructor; eexists; reflexivity. Defined.

Lemma ExpectInOrder_chains_witness :
  exists w' mc',
    ExpectInOrder [0%nat; 1%nat] twoMocks = (Ok (), w') /\
    heap w' !! 1%nat = Some (MockCall mc') /\ 0%nat ∈ after mc' /\
    (matches_at (heap w') 1%nat [VStr "x"] = Ok true ->
     complete_at (heap w') 0%nat = Ok true).
Proof.
  destruct (ExpectInOrder_chains [0%nat; 1%nat] twoMocks twoMocks_are_mocks)
    as (w' & Hrun & _ & _ & Hseq).
  destruct (Hseq 0%nat 1%nat 0%nat eq_refl eq_refl) as (mc' & H1 & H2 & H3).
  exists w', mc'. split; [exact Hrun|]. split; [exact H1|]. split; [exact H2|].
  exact (H3 [VStr "x"]).
Defined.

Lemma Verify_reports_unmet_mocks_witness :
  doubles mockThenStub !! 0%nat = Some (doubleOf mockThenStub) /\
  exists errs, TestDouble_Verify mockThenStub 0%nat = Ok errs /\ 0%nat ∈ errs /\
    1%nat ∉ errs.
Proof.
  assert (Hd : doubles mockThenStub !! 0%nat = Some (doubleOf mockThenStub))
    by reflexivity.
  split; [exact Hd|].
  destruct (Verify_reports_unmet_mocks
              [newApiDouble;
               OpMock 0%nat "call"; OpReturning 0%nat (ReturnsValues [VInt 1]);
               OpExpect 0%nat Once;
               OpStub 0%nat "call"; OpReturning 1%nat (ReturnsValues [VInt 99])]
              mockThenStub 0%nat _ eq_refl Hd)
    as (errs & Hv & Hin).
  exists errs. split; [exact Hv|]. split.
  - apply Hin. exists "call", (callOf mockThenStub), theMock.
    split; [reflexivity|]. split; [apply list_elem_of_here|]. split; reflexivity.
  - intros H1. apply Hin in H1 as (name & meth & mc & _ & _ & Hh & _). discriminate Hh.
Defined.

Lemma Slice_of_Slice_witness :
  exists v1 v2,
    spy_Slice apiDouble theSpy 0 3 = Ok v1 /\ spy_Slice apiDouble v1 1 2 = Ok v2 /\
    recorded v2 = [exCall 2 "second"].
Proof.
  destruct (Slice_of_Slice apiDouble theSpy 0 3 1 2 ltac:(lia) ltac:(lia) ltac:(lia))
    as (v1 & v2 & v3 & H1 & H2 & H3 & H4).
  exists v1, v2. split; [exact H1|]. split; [exact H2|].
  rewrite H4. injection H3 as <-. reflexivity.
Defined.

Lemma Matching_filters_witness :
  spy_Matching apiDouble theSpy [RawValue (VStr "second")] = Ok theSecond /\
  recorded theSecond = [exCall 2 "second"] /\
  (forall rc, rc ∈ recorded theSecond -> rc ∈ recorded theSpy) /\
  NumCalls theSecond <= NumCalls theSpy.
Proof.
  assert (H : spy_Matching apiDouble theSpy [RawValue (VStr "second")] = Ok theSecond)
    by reflexivity.
  split; [exact H|]. split; [reflexivity|].
  destruct (Matching_filters apiDouble theSpy _ _ H) as (meth & mt & _ & _ & _ & Hin & Hle).
  split; [|exact Hle]. intros rc Hrc. by apply Hin in Hrc as [? _].
Defined.

Lemma After_Slice_partition_witness :
  exists u v1,
    spy_Slice apiDouble theSpy 0 1 = Ok u /\ spy_After apiDouble theSpy u = Ok v1 /\
    recorded v1 = [exCall 2 "second"; exCall 3 "third"] /\
    recorded u ++ recorded v1 = recorded theSpy.
Proof.
  assert (Hk : 0 <= 1 <= NumCalls theSpy) by (vm_compute; split; discriminate).
  destruct (After_Slice_partition spiedCalls _ apiDouble theSpy 1
              spiedCalls_few eq_refl theSpy_view Hk)
    as (u & v1 & v2 & H1 & H2 & H3 & H4 & H5).
  exists u, v1. split; [exact H1|]. split; [exact H2|]. split; [|exact H5].
  rewrite H4. injection H3 as <-. reflexivity.
Defined.

Lemma String_never_panics_witness :
  exists v' s,
    spy_After apiDouble theSpy theSecond = Ok v' /\
    subsets v' = ["calls after"; ">>"; "calls matching matcher within";
                  "all calls to DoubleFor(api).call"; "<<"; "within";
                  "all calls to DoubleFor(api).call"] /\
    spy_String v' = Ok s.
Proof.
  assert (Hinv : ticksInv (run spiedCalls initial))
    by exact (proj1 (run_ticksInv spiedCalls spiedCalls_few)).
  destruct (spy_After_ordered apiDouble theSpy theSecond
              (viewOf_tickOrdered _ _ Hinv theSpy_view)
              (viewOf_tickOrdered _ _ Hinv theSecond_view)) as (v' & Hv' & _).
  destruct (String_never_panics spiedCalls _ v' eq_refl
              (view_After _ apiDouble theSpy theSecond v' theSpy_view theSecond_view Hv'))
    as (s & Hs).
  exists v', s. split; [exact Hv'|]. split; [|exact Hs].
  unfold spy_After in Hv'.
  destruct (if decide (_ > 0) then _ else _) as [sub| |]; simpl in Hv'; try discriminate.
  injection Hv' as <-. reflexivity.
Defined.

Lemma Invoke_returns_checked_values_witness :
  (TestDouble_Invoke 0%nat "call" [VStr "first"] mockThenStub).1 = Ok [VInt 1] /\
  AssertMethodReturnValues api_call [VInt 1] = Ok ().
Proof.
  assert (H : TestDouble_Invoke 0%nat "call" [VStr "first"] mockThenStub
              = (Ok [VInt 1],
                 (TestDouble_Invoke 0%nat "call" [VStr "first"] mockThenStub).2))
    by reflexivity.
  split; [reflexivity|].
  destruct (Invoke_returns_checked_values mockThenStub 0%nat "call" [VStr "first"]
              [VInt 1] _ H) as (td & meth & Hd & Hm & Ha & _).
  assert (Hd' : doubles mockThenStub !! 0%nat = Some (doubleOf mockThenStub))
    by reflexivity.
  assert (Hm' : methods (doubleOf mockThenStub) !! "call" = Some (callOf mockThenStub))
    by reflexivity.
  rewrite Hd' in Hd. injection Hd as <-. rewrite Hm' in Hm. injection Hm as <-.
  exact Ha.
Defined.

Lemma default_Spy_is_retrieved_witness :
  doubles spyByDefault !! 0%nat = Some (doubleOf spyByDefault) /\
  defaultCall (doubleOf spyByDefault) (0%nat, "call") = Some (MadeSpy None) /\
  TestDouble_Spy 0%nat "call"
    (TestDouble_Invoke 0%nat "call" [VStr "x"] spyByDefault).2
    = (Ok 0%nat, (TestDouble_Invoke 0%nat "call" [VStr "x"] spyByDefault).2) /\
  exists obj v,
    heap (TestDouble_Invoke 0%nat "call" [VStr "x"] spyByDefault).2 !! 0%nat
      = Some obj /\
    recordedCallsOf obj = Some v /\ recorded v = [exCall 1 "x"].
Proof.
  assert (Hd : doubles spyByDefault !! 0%nat = Some (doubleOf spyByDefault))
    by reflexivity.
  assert (Hm : methods (doubleOf spyByDefault) !! "call" = Some (newMethod api_call))
    by reflexivity.
  assert (Hdef : defaultCall (doubleOf spyByDefault) (0%nat, "call")
                 = Some (MadeSpy None)) by reflexivity.
  split; [exact Hd|]. split; [exact Hdef|].
  exact (default_Spy_is_retrieved spyByDefault 0%nat "call" _ _ None [VStr "x"]
           Hd Hm eq_refl Hdef).
Defined.
